(** * setup-openclaw.py: a shallow embedding and its verified properties

    The script [src/bytedance/setup-openclaw.py] resolves credentials from the
    process environment and a [.env] file, rewrites the JSON configuration
    document of the gateway, edits the memory directives of a systemd unit
    file and enables/restarts the unit with bounded retries.

    Modelling conventions.
    - A Python [str] is a Rocq [string]; its characters are the code points
      below 256.
    - A Python [dict] with string keys is a [gmap string _]: equality of
      maps is Python's [==] on dicts (insertion order is not observable).
    - A JSON document as returned by [json.load] is a [value].
    - Exceptions are the [Raise] outcomes of the monad [M], which also
      collects the messages passed to [log] and the calls to [time.sleep].
    - Everything the script reads from outside (environment, files, the
      metadata service, the random source, the clock, exit statuses of the
      external commands) is a field of the record [world].
    - Operations on files and processes are taken to succeed: the [OSError]
      that [shutil.copy], [open] or the spawning of a command may raise, and
      a configuration file that [json.load] cannot parse, are outside the
      model.  An event of the trace records that the operation is reached; a
      run that such an error cuts short has performed an initial part of
      its trace. *)

From Stdlib Require Import Strings.Ascii Strings.Byte Floats.PrimFloat.
From stdpp Require Import gmap strings list fin_maps pretty.

Local Open Scope list_scope.

(** ** Python string operations *)

Section PyStr.

(** [str.isspace] on one character (code points below 256). *)
Definition py_isspace (c : ascii) : bool :=
  let n := Ascii.N_of_ascii c in
  ((9 <=? n) && (n <=? 13) || (28 <=? n) && (n <=? 31)
   || (n =? 32) || (n =? 133) || (n =? 160))%N.

(** Line boundaries recognised by [str.splitlines]. *)
Definition py_islinebreak (c : ascii) : bool :=
  let n := Ascii.N_of_ascii c in
  ((10 <=? n) && (n <=? 13) || (28 <=? n) && (n <=? 30) || (n =? 133))%N.

Fixpoint lstrip (s : string) : string :=
  match s with
  | String c s' => if py_isspace c then lstrip s' else s
  | EmptyString => EmptyString
  end.

Fixpoint rstrip (s : string) : string :=
  match s with
  | String c s' =>
      match rstrip s' with
      | EmptyString => if py_isspace c then EmptyString else String c EmptyString
      | r => String c r
      end
  | EmptyString => EmptyString
  end.

(** [s.strip()] *)
Definition strip (s : string) : string := lstrip (rstrip s).

(** [s.startswith(p)] and [s.startswith((p1, p2, ...))] *)
Definition startswith (s p : string) : bool := String.prefix p s.
Definition startswith_any (s : string) (ps : list string) : bool :=
  existsb (startswith s) ps.

(** [sub in s] *)
Fixpoint str_contains (sub s : string) : bool :=
  String.prefix sub s ||
  match s with
  | String _ s' => str_contains sub s'
  | EmptyString => false
  end.

(** [s.split(sep, 1)] for a one-character separator: the text before the
    first [sep] and the text after it, or [s] alone. *)
Fixpoint split1 (sep : ascii) (s : string) : list string :=
  match s with
  | EmptyString => [EmptyString]
  | String c s' =>
      if Ascii.eqb c sep then [EmptyString; s']
      else match split1 sep s' with
           | a :: rest => String c a :: rest
           | [] => [String c EmptyString]
           end
  end.

(** [s.splitlines()] *)
Fixpoint splitlines (s : string) : list string :=
  match s with
  | EmptyString => []
  | String c s' =>
      let rest := splitlines s' in
      if py_islinebreak c then
        if Ascii.eqb c "013"%char && startswith s' (String "010"%char EmptyString)
        then rest else EmptyString :: rest
      else match rest with
           | l :: ls => String c l :: ls
           | [] => [String c EmptyString]
           end
  end.

(** [sep.join(parts)] *)
Definition join (sep : string) (parts : list string) : string :=
  String.concat sep parts.

(** [s.replace(old, new)]: every non-overlapping occurrence, leftmost
    first.  [skip] counts the characters of a match still to be dropped. *)
Fixpoint replace_go (old new : string) (skip : nat) (s : string) : string :=
  match s with
  | EmptyString => EmptyString
  | String c s' =>
      match skip with
      | S k => replace_go old new k s'
      | O =>
          if String.prefix old s
          then new +:+ replace_go old new (String.length old - 1) s'
          else String c (replace_go old new 0 s')
      end
  end.

Fixpoint intersperse_str (new s : string) : string :=
  match s with
  | EmptyString => new
  | String c s' => new +:+ String c (intersperse_str new s')
  end.

Definition replace (old new s : string) : string :=
  match old with
  | EmptyString => intersperse_str new s
  | String _ _ => replace_go old new 0 s
  end.

(** [s[:n]] *)
Fixpoint take_str (n : nat) (s : string) : string :=
  match n, s with
  | S k, String c s' => String c (take_str k s')
  | _, _ => EmptyString
  end.

(** Truthiness of a [str]. *)
Definition nonempty (s : string) : bool :=
  match s with EmptyString => false | String _ _ => true end.

End PyStr.

(** ** JSON documents *)

(** The values [json.load] produces.  Objects are dicts keyed by strings. *)
Inductive value : Type :=
| VNull
| VBool (b : bool)
| VInt (n : Z)
| VFloat (f : float)
| VStr (s : string)
| VList (items : list value)
| VDict (d : gmap string value).

Abbreviation dict := (gmap string value).

(** [isinstance(v, dict)] *)
Definition is_dict (v : value) : bool :=
  match v with VDict _ => true | _ => false end.

(** Nesting depth of dicts, the measure for induction through [VDict]. *)
Fixpoint depth (v : value) : nat :=
  match v with
  | VDict d => S (map_fold (λ _ x acc, Nat.max (depth x) acc) 0 d)
  | _ => 0
  end.

(** ** deep_merge (lines 87-94) *)

(** What one iteration of the loop stores at [result[key]]: [old] is
    [result.get(key)] before the iteration, [v] the update's value. *)
Fixpoint merge_item (old : option value) (v : value) {struct v} : value :=
  match old, v with
  | Some (VDict r), VDict u =>
      VDict (map_fold (λ key v' result,
                         <[key := merge_item (result !! key) v']> result) r u)
  | _, _ => v
  end.

Definition deep_merge (base update : dict) : dict :=
  let result := base in
  map_fold (λ key v result, <[key := merge_item (result !! key) v]> result)
           result update.

(** When is [(a merged with b) merged with c] the same as
    [a merged with (b merged with c)]?  [assoc_safe_item] inspects one key:
    where the outer operands both hold dicts, the middle one must hold
    nothing or a dict, recursively. *)
Fixpoint assoc_safe_item (a : value) (b c : option value) {struct a} : bool :=
  match a, c with
  | VDict da, Some (VDict dc) =>
      match b with
      | None => true
      | Some (VDict db) =>
          map_fold (λ k ak acc, acc && assoc_safe_item ak (db !! k) (dc !! k))
                   true da
      | Some _ => false
      end
  | _, _ => true
  end.

Definition assoc_safe (a b c : dict) : bool :=
  assoc_safe_item (VDict a) (Some (VDict b)) (Some (VDict c)).

(** ** Exceptions, traces and the monad of the script *)

Inductive exn : Type := TypeError | AttributeError | KeyError.

Inductive result (A : Type) : Type :=
| Ok (a : A)
| Raise (e : exn).
Arguments Ok {A} a.
Arguments Raise {A} e.

Global Instance result_ret : MRet result := λ A a, Ok a.
Global Instance result_bind : MBind result :=
  λ A B f r, match r with Ok a => f a | Raise e => Raise e end.

(** What a run does to the outside, in order. *)
Inductive event : Type :=
| Log (msg : string)                       (* log(msg), timestamp prefix left out *)
| Sleep (seconds : nat)                    (* time.sleep *)
| Exec (argv : list string)                (* subprocess.run *)
| CopyFile (src dst : string)              (* shutil.copy *)
| DumpJson (path : string) (doc : value)   (* json.dump(doc, f, indent=2, ...) *)
| WriteText (path : string) (text : string)
| SetEnv (name val : string).              (* os.environ[name] = val *)

Record M (A : Type) : Type := MkM { trace : list event; outcome : result A }.
Arguments MkM {A} trace outcome.
Arguments trace {A} m.
Arguments outcome {A} m.

Global Instance M_ret : MRet M := λ A a, MkM [] (Ok a).
Global Instance M_bind : MBind M :=
  λ A B f m,
    match outcome m with
    | Ok a => let m' := f a in MkM (trace m ++ trace m') (outcome m')
    | Raise e => MkM (trace m) (Raise e)
    end.

Definition emit (e : event) : M unit := MkM [e] (Ok tt).
Definition log (msg : string) : M unit := emit (Log msg).
Definition lift {A} (r : result A) : M A := MkM [] r.

(** ** Python's container protocol on JSON values *)

(** [key in container] for a string [key]. *)
Definition py_contains (container : value) (key : string) : result bool :=
  match container with
  | VDict d => Ok (bool_decide (is_Some (d !! key)))
  | VList items =>
      Ok (existsb (λ x, match x with VStr s => bool_decide (s = key) | _ => false end)
                  items)
  | VStr s => Ok (str_contains key s)
  | _ => Raise TypeError                    (* argument is not iterable *)
  end.

(** [container[key]] for a string [key]. *)
Definition py_getitem (container : value) (key : string) : result value :=
  match container with
  | VDict d => match d !! key with Some v => Ok v | None => Raise KeyError end
  | _ => Raise TypeError                    (* indices must be integers / not subscriptable *)
  end.

(** [container[key] = v] for a string [key]; the updated container. *)
Definition py_setitem (container : value) (key : string) (v : value) : result value :=
  match container with
  | VDict d => Ok (VDict (<[key := v]> d))
  | _ => Raise TypeError
  end.

(** [container.get(key, dflt)] *)
Definition py_get (container : value) (key : string) (dflt : value) : result value :=
  match container with
  | VDict d => Ok (default dflt (d !! key))
  | _ => Raise AttributeError
  end.

(** [deep_merge(base, update)] as [main] calls it, [base] being whatever the
    loaded document holds: [base.copy()] exists for dicts and lists only, and
    a list fails at the first key of [update]. *)
Definition call_deep_merge (base : value) (update : dict) : result value :=
  match base with
  | VDict b => Ok (VDict (deep_merge b update))
  | VList items => if decide (size update = 0) then Ok (VList items) else Raise TypeError
  | _ => Raise AttributeError
  end.

(** *** Statements on nested items

    The document is a tree without sharing ([json.load] builds it, and the
    script only stores fresh dicts and strings into it), so the in-place
    update [config[k1]...[kn][key] = v] is the functional update of the
    spine down to [config[k1]...[kn]]. *)

(** [config[k1]...[kn]] *)
Fixpoint getpath (p : list string) (c : value) : result value :=
  match p with
  | [] => Ok c
  | k :: p' => sub ← py_getitem c k; getpath p' sub
  end.

(** [config[k1]...[kn][key] = v] *)
Fixpoint assign (p : list string) (key : string) (v : value) (c : value) : result value :=
  match p with
  | [] => py_setitem c key v
  | k :: p' =>
      sub ← py_getitem c k;
      sub' ← assign p' key v sub;
      py_setitem c k sub'
  end.

(** [if key not in config[k1]...[kn]: config[k1]...[kn][key] = {}] *)
Definition ensure (p : list string) (key : string) (c : value) : result value :=
  o ← getpath p c;
  present ← py_contains o key;
  if present : bool then Ok c else assign p key (VDict ∅) c.

(** Reading without exceptions, for stating properties. *)
Definition child (k : string) (v : value) : option value :=
  match v with VDict d => d !! k | _ => None end.

Fixpoint lookup_path (p : list string) (v : value) : option value :=
  match p with
  | [] => Some v
  | k :: p' => match child k v with Some x => lookup_path p' x | None => None end
  end.

(** [strip_prefix p q = Some r] when [q = p ++ r]. *)
Fixpoint strip_prefix (p q : list string) : option (list string) :=
  match p, q with
  | [], _ => Some q
  | a :: p', b :: q' => if bool_decide (a = b) then strip_prefix p' q' else None
  | _ :: _, [] => None
  end.

(** The two paths part ways at some key. *)
Fixpoint diverge (p q : list string) : bool :=
  match p, q with
  | a :: p', b :: q' => if bool_decide (a = b) then diverge p' q' else true
  | _, _ => false
  end.

(** ** The outside world *)

(** [datetime.utcnow()] *)
Record datetime : Type := {
  year : nat; month : nat; day : nat; hour : nat; minute : nat; second : nat
}.

(** How one external command ended under [subprocess.run(..., check=True)]:
    exit status 0, or [CalledProcessError] whose [str] is [e]. *)
Inductive completed : Type :=
| Exit0
| CalledProcessError (e : string).

(** What the memory query of lines 339-347 yields: the integer parsed from
    the [Mem:] line of [free -m] (0 when there is no such line), or the text
    of the exception raised by the command or by the parsing. *)
Inductive mem_query : Type :=
| MemTotal (total_mem_mb : Z)
| MemError (e : string).

Record world : Type := {
  environ : gmap string string;          (* os.environ *)
  env_file : option (list string);       (* lines of ENV_FILE; None: no such file *)
  config_file : option value;            (* json.load(CONFIG_FILE); None: no such file *)
  site_name : option string;             (* body of the site_name request; None: it raised *)
  instance_id_body : option string;      (* body of the instance_id request; None: it raised *)
  entropy : nat → byte;                 (* the bytes the system random source hands out *)
  utcnow : datetime;
  getuid : nat;
  bus_socket_exists : nat → bool;        (* bus_socket.exists() after so many seconds *)
  service_file : option string;          (* text of the unit file; None: no such file *)
  free_m : mem_query;
  run : list string → nat → completed    (* outcome of the n-th run of a command line *)
}.

(** ** Constants (lines 14-18) *)

Definition CONFIG_DIR : string := "/root/.openclaw".
Definition CONFIG_FILE : string := CONFIG_DIR +:+ "/openclaw.json".
Definition ENV_FILE : string := CONFIG_DIR +:+ "/.env".
Definition SCRIPT_VERSION : string := "0203.1".

Definition nl : string := String "010"%char EmptyString.

(** ** Helpers (lines 32-84) *)

Definition mask (v : string) : string :=
  if nonempty v then "***SET***" else "(not set)".

Definition detect_site (w : world) : string :=
  match site_name w with Some body => strip body | None => "unknown" end.

Definition get_instance_id (w : world) : string :=
  match instance_id_body w with Some body => strip body | None => "unknown" end.

(** The body of the loop of [load_env_file]. *)
Definition load_env_line (env_vars : gmap string string) (line : string)
  : gmap string string :=
  let line := strip line in
  if negb (nonempty line) || startswith line "#" then env_vars
  else if str_contains "=" line then
    match split1 "="%char line with
    | [key; v] => <[strip key := strip v]> env_vars
    | _ => env_vars                       (* not reached, see [split1_contains] *)
    end
  else env_vars.

Definition load_env_file (file : option (list string)) : gmap string string :=
  match file with
  | None => ∅
  | Some lines => fold_left load_env_line lines ∅
  end.

(** [x or y] where [x] is [None] or a [str]. *)
Definition py_or (x : option string) (y : string) : string :=
  match x with
  | Some (String c s) => String c s
  | _ => y
  end.

Definition get_config (environ env_file_vars : gmap string string) (key : string) : string :=
  py_or (environ !! key) (py_or (env_file_vars !! key) "").

Definition get_ark_url (site : string) (coding_plan : bool) : string :=
  if bool_decide (site = "BytePlus") then
    if coding_plan
    then "https://ark.ap-southeast.bytepluses.com/api/coding/v3"
    else "https://ark.ap-southeast.bytepluses.com/api/v3"
  else
    if coding_plan
    then "https://ark.cn-beijing.volces.com/api/coding/v3"
    else "https://ark.cn-beijing.volces.com/api/v3".

(** ** secrets.token_hex and strftime *)

Definition hex_digit (n : N) : ascii :=
  match n with
  | 0 => "0" | 1 => "1" | 2 => "2" | 3 => "3" | 4 => "4" | 5 => "5" | 6 => "6"
  | 7 => "7" | 8 => "8" | 9 => "9" | 10 => "a" | 11 => "b" | 12 => "c"
  | 13 => "d" | 14 => "e" | _ => "f"
  end%N%char.

Definition hexlify_byte (b : byte) : string :=
  let n := Byte.to_N b in
  String (hex_digit (n / 16)) (String (hex_digit (n mod 16)) EmptyString).

Definition hexlify (bs : list byte) : string :=
  foldr (λ b acc, hexlify_byte b +:+ acc) EmptyString bs.

Definition token_bytes (w : world) (nbytes : nat) : list byte :=
  map (entropy w) (seq 0 nbytes).

Definition token_hex (w : world) (nbytes : nat) : string :=
  hexlify (token_bytes w nbytes).

Definition is_hex_digit (c : ascii) : bool :=
  let n := Ascii.N_of_ascii c in
  ((48 <=? n) && (n <=? 57) || (97 <=? n) && (n <=? 102))%N.

Fixpoint all_chars (P : ascii → bool) (s : string) : bool :=
  match s with
  | EmptyString => true
  | String c s' => P c && all_chars P s'
  end.

(** [s] padded with zeros on the left to [width] characters. *)
Definition zero_pad (width : nat) (s : string) : string :=
  Nat.iter (width - String.length s) (String "0"%char) s.

(** [strftime("%Y-%m-%dT%H:%M:%S.000Z")]: the C library renders the year of
    [%Y] as it is, without padding, and the other fields on two digits. *)
Definition strftime_iso (t : datetime) : string :=
  pretty (year t) +:+ "-" +:+ zero_pad 2 (pretty (month t)) +:+ "-"
  +:+ zero_pad 2 (pretty (day t)) +:+ "T" +:+ zero_pad 2 (pretty (hour t)) +:+ ":"
  +:+ zero_pad 2 (pretty (minute t)) +:+ ":" +:+ zero_pad 2 (pretty (second t))
  +:+ ".000Z".

(** ** main, configuration part (lines 98-303) *)

(** The credentials resolved at lines 107-116. *)
Record credentials : Type := {
  ark_api_key : string;
  ark_model_id : string;
  ark_coding_plan : bool;
  feishu_app_id : string;
  feishu_app_secret : string;
  telegram_bot_token : string;
  dingtalk_client_id : string;
  dingtalk_client_secret : string;
  wecom_token : string;
  wecom_encoding_aes_key : string
}.

Definition resolve_credentials (w : world) (env_file_vars : gmap string string)
  : credentials :=
  let get := get_config (environ w) env_file_vars in
  {| ark_api_key := get "ARK_API_KEY";
     ark_model_id := get "ARK_MODEL_ID";
     ark_coding_plan := bool_decide (get "ARK_CODING_PLAN" = "true");
     feishu_app_id := get "FEISHU_APP_ID";
     feishu_app_secret := get "FEISHU_APP_SECRET";
     telegram_bot_token := get "TELEGRAM_BOT_TOKEN";
     dingtalk_client_id := get "DINGTALK_CLIENT_ID";
     dingtalk_client_secret := get "DINGTALK_CLIENT_SECRET";
     wecom_token := get "WECOM_TOKEN";
     wecom_encoding_aes_key := get "WECOM_ENCODING_AES_KEY" |}.

Definition py_bool_str (b : bool) : string := if b then "True" else "False".

(** Lines 118-128. *)
Definition log_final_config (cr : credentials) : M unit :=
  log "Final config:";;
  log ("  ARK_API_KEY: " +:+ mask (ark_api_key cr));;
  log ("  ARK_MODEL_ID: " +:+ py_or (Some (ark_model_id cr)) "(not set)");;
  log ("  ARK_CODING_PLAN: " +:+ py_bool_str (ark_coding_plan cr));;
  log ("  FEISHU_APP_ID: " +:+ mask (feishu_app_id cr));;
  log ("  FEISHU_APP_SECRET: " +:+ mask (feishu_app_secret cr));;
  log ("  TELEGRAM_BOT_TOKEN: " +:+ mask (telegram_bot_token cr));;
  log ("  DINGTALK_CLIENT_ID: " +:+ mask (dingtalk_client_id cr));;
  log ("  DINGTALK_CLIENT_SECRET: " +:+ mask (dingtalk_client_secret cr));;
  log ("  WECOM_TOKEN: " +:+ mask (wecom_token cr));;
  log ("  WECOM_ENCODING_AES_KEY: " +:+ mask (wecom_encoding_aes_key cr)).

(** Lines 130-136. *)
Definition load_config (w : world) : M value :=
  match config_file w with
  | Some doc =>
      log ("Loading existing config from " +:+ CONFIG_FILE +:+ "...");;
      mret doc
  | None =>
      log "No existing config, starting fresh...";;
      mret (VDict ∅)
  end.

(** Lines 144-150. *)
Definition set_gateway_token (gateway_token : string) (config : value) : M value :=
  config ← lift (ensure [] "gateway" config);
  config ← lift (ensure ["gateway"] "auth" config);
  config ← lift (assign ["gateway"; "auth"] "token" (VStr gateway_token) config);
  log ("Generated gateway auth token: " +:+ take_str 8 gateway_token +:+ "...");;
  mret config.

(** The literal of lines 157-186. *)
Definition ark_config (ark_url api_key model_id instance_id : string) : dict :=
  {[ "mode" := VStr "merge";
     "providers" := VDict {[
       "ark" := VDict {[
         "baseUrl" := VStr ark_url;
         "apiKey" := VStr api_key;
         "api" := VStr "openai-completions";
         "models" := VList [
           VDict {[
             "id" := VStr model_id;
             "name" := VStr model_id;
             "reasoning" := VBool false;
             "input" := VList [VStr "text"];
             "cost" := VDict {[ "input" := VInt 0; "output" := VInt 0;
                                "cacheRead" := VInt 0; "cacheWrite" := VInt 0 ]};
             "contextWindow" := VInt 200000;
             "maxTokens" := VInt 8192;
             "headers" := VDict {[
               "X-Client-Request-Id" :=
                 VStr ("ecs-openclaw/" +:+ SCRIPT_VERSION +:+ "/" +:+ instance_id) ]};
             "compat" := VDict {[ "supportsDeveloperRole" := VBool false ]}
           ]}
         ]
       ]}
     ]}
  ]}.

(** Lines 152-197. *)
Definition configure_ark (site instance_id : string) (cr : credentials)
    (config : value) : M value :=
  if nonempty (ark_api_key cr) && nonempty (ark_model_id cr) then
    log "Configuring ARK model...";;
    let ark_url := get_ark_url site (ark_coding_plan cr) in
    log ("ARK_BASE_URL: " +:+ ark_url);;
    models ← lift (py_get config "models" (VDict ∅));
    merged ← lift (call_deep_merge models
                     (ark_config ark_url (ark_api_key cr) (ark_model_id cr) instance_id));
    config ← lift (assign [] "models" merged config);
    config ← lift (ensure [] "agents" config);
    config ← lift (ensure ["agents"] "defaults" config);
    config ← lift (assign ["agents"; "defaults"] "model"
                     (VDict {[ "primary" := VStr ("ark/" +:+ ark_model_id cr) ]}) config);
    config ← lift (assign ["agents"; "defaults"] "models"
                     (VDict {[ "ark/" +:+ ark_model_id cr := VDict ∅ ]}) config);
    log "ARK configured successfully";;
    mret config
  else
    log "Skipping ARK config (ARK_API_KEY or ARK_MODEL_ID not set)";;
    mret config.

(** Lines 199-200. *)
Definition ensure_channels (config : value) : M value :=
  lift (ensure [] "channels" config).

(** Lines 202-209. *)
Definition configure_feishu_app_id (cr : credentials) (config : value) : M value :=
  if nonempty (feishu_app_id cr) then
    log "Configuring Feishu App ID...";;
    config ← lift (ensure ["channels"] "feishu" config);
    config ← lift (assign ["channels"; "feishu"] "appId" (VStr (feishu_app_id cr)) config);
    log "Feishu App ID configured";;
    mret config
  else
    log "Skipping Feishu App ID (not set)";;
    mret config.

(** Lines 211-218. *)
Definition configure_feishu_app_secret (cr : credentials) (config : value) : M value :=
  if nonempty (feishu_app_secret cr) then
    log "Configuring Feishu App Secret...";;
    config ← lift (ensure ["channels"] "feishu" config);
    config ← lift (assign ["channels"; "feishu"] "appSecret"
                     (VStr (feishu_app_secret cr)) config);
    log "Feishu App Secret configured";;
    mret config
  else
    log "Skipping Feishu App Secret (not set)";;
    mret config.

Definition telegram_block (bot_token : string) : dict :=
  {[ "enabled" := VBool true;
     "dmPolicy" := VStr "pairing";
     "botToken" := VStr bot_token;
     "groupPolicy" := VStr "allowlist";
     "streamMode" := VStr "partial" ]}.

(** Lines 220-236. *)
Definition configure_telegram (cr : credentials) (config : value) : M value :=
  if nonempty (telegram_bot_token cr) then
    log "Configuring Telegram...";;
    config ← lift (assign ["channels"] "telegram"
                     (VDict (telegram_block (telegram_bot_token cr))) config);
    config ← lift (ensure [] "plugins" config);
    config ← lift (ensure ["plugins"] "entries" config);
    config ← lift (assign ["plugins"; "entries"] "telegram"
                     (VDict {[ "enabled" := VBool true ]}) config);
    log "Telegram configured";;
    mret config
  else
    log "Skipping Telegram (not set)";;
    mret config.

(** Lines 248-256 and 279-285. *)
Definition enable_chat_completions (config : value) : M value :=
  config ← lift (ensure ["gateway"] "http" config);
  config ← lift (ensure ["gateway"; "http"] "endpoints" config);
  config ← lift (ensure ["gateway"; "http"; "endpoints"] "chatCompletions" config);
  lift (assign ["gateway"; "http"; "endpoints"; "chatCompletions"] "enabled"
          (VBool true) config).

Definition dingtalk_block (client_id client_secret : string) (gateway_token : value)
  : dict :=
  {[ "enabled" := VBool true;
     "clientId" := VStr client_id;
     "clientSecret" := VStr client_secret;
     "gatewayToken" := gateway_token;
     "sessionTimeout" := VInt 1800000 ]}.

(** Lines 238-259. *)
Definition configure_dingtalk (cr : credentials) (config : value) : M value :=
  if nonempty (dingtalk_client_id cr) && nonempty (dingtalk_client_secret cr) then
    log "Configuring DingTalk...";;
    gateway_token ← lift (getpath ["gateway"; "auth"; "token"] config);
    config ← lift (assign ["channels"] "dingtalk-connector"
                     (VDict (dingtalk_block (dingtalk_client_id cr)
                               (dingtalk_client_secret cr) gateway_token)) config);
    config ← lift (ensure [] "gateway" config);
    config ← enable_chat_completions config;
    log "DingTalk configured (chatCompletions endpoint enabled)";;
    mret config
  else
    log "Skipping DingTalk (DINGTALK_CLIENT_ID or DINGTALK_CLIENT_SECRET not set)";;
    mret config.

Definition wecom_block (token aes_key : string) : dict :=
  {[ "enabled" := VBool true;
     "webhookPath" := VStr "/wecom";
     "token" := VStr token;
     "encodingAESKey" := VStr aes_key ]}.

Definition aes_key_warning (aes_key : string) : string :=
  "Warning: EncodingAESKey should be 43 characters (got "
  +:+ pretty (String.length aes_key) +:+ ")".

(** Lines 261-288. *)
Definition configure_wecom (cr : credentials) (config : value) : M value :=
  if nonempty (wecom_token cr) && nonempty (wecom_encoding_aes_key cr) then
    log "Configuring WeCom...";;
    (if bool_decide (String.length (wecom_encoding_aes_key cr) ≠ 43)
     then log (aes_key_warning (wecom_encoding_aes_key cr))
     else mret tt);;
    config ← lift (assign ["channels"] "wecom"
                     (VDict (wecom_block (wecom_token cr) (wecom_encoding_aes_key cr)))
                     config);
    log "Enabling public access for WeCom...";;
    config ← lift (ensure [] "gateway" config);
    config ← lift (assign ["gateway"] "bind" (VStr "lan") config);
    config ← lift (ensure ["gateway"] "controlUi" config);
    config ← lift (assign ["gateway"; "controlUi"] "enabled" (VBool true) config);
    config ← lift (assign ["gateway"; "controlUi"] "allowInsecureAuth" (VBool true) config);
    config ← enable_chat_completions config;
    log "WeCom configured (public access enabled)";;
    mret config
  else
    log "Skipping WeCom (WECOM_TOKEN or WECOM_ENCODING_AES_KEY not set)";;
    mret config.

(** Lines 290-293. *)
Definition touch_meta (now : string) (config : value) : M value :=
  config ← lift (ensure [] "meta" config);
  lift (assign ["meta"] "lastTouchedAt" (VStr now) config).

(** The token of line 148. *)
Definition fresh_token (w : world) : string := token_hex w 24.

(** Lines 98-293: the document that will be written. *)
Definition configure (w : world) : M value :=
  log "========== setup-openclaw.py started ==========";;
  log ("Loading config from " +:+ ENV_FILE +:+ "...");;
  let env_file_vars := load_env_file (env_file w) in
  (if bool_decide (env_file_vars ≠ ∅)
   then log ("Found .env file, loaded " +:+ pretty (size env_file_vars) +:+ " vars")
   else log "No .env file found, using environment variables only");;
  let cr := resolve_credentials w env_file_vars in
  log_final_config cr;;
  config ← load_config w;
  let site := detect_site w in
  log ("Site: " +:+ site);;
  let instance_id := get_instance_id w in
  log ("Instance ID: " +:+ instance_id);;
  config ← set_gateway_token (fresh_token w) config;
  config ← configure_ark site instance_id cr config;
  config ← ensure_channels config;
  config ← configure_feishu_app_id cr config;
  config ← configure_feishu_app_secret cr config;
  config ← configure_telegram cr config;
  config ← configure_dingtalk cr config;
  config ← configure_wecom cr config;
  touch_meta (strftime_iso (utcnow w)) config.

(** Lines 295-303.  The copy and the dump are taken to succeed (the
    directory of the file exists and is writable). *)
Definition persist (w : world) (config : value) : M unit :=
  (if bool_decide (is_Some (config_file w)) then
     let backup := CONFIG_DIR +:+ "/openclaw.json.bak" in
     emit (CopyFile CONFIG_FILE backup);;
     log ("Backup created: " +:+ backup)
   else mret tt);;
  log ("Writing config to " +:+ CONFIG_FILE +:+ "...");;
  emit (DumpJson CONFIG_FILE config);;
  log "Config saved".

(** ** main, service part (lines 305-423) *)

(** [subprocess.run(argv, check=True)], the [n]-th time this command line is
    run: the command is spawned and ends with exit status 0 or with
    [CalledProcessError]; a command that cannot be spawned is outside the
    model. *)
Definition subprocess_run (w : world) (argv : list string) (n : nat) : M completed :=
  emit (Exec argv);;
  mret (run w argv n).

Definition max_wait : nat := 60.

(** Lines 318-323; [fuel] bounds the iterations, [max_wait] of them suffice. *)
Fixpoint wait_for_bus (w : world) (fuel waited : nat) : M nat :=
  if negb (bus_socket_exists w waited) && bool_decide (waited < max_wait) then
    match fuel with
    | S fuel' =>
        emit (Sleep 1);;
        let waited := waited + 1 in
        (if bool_decide (waited `mod` 10 = 0)
         then log ("Still waiting for bus socket... (" +:+ pretty waited +:+ "s)")
         else mret tt);;
        wait_for_bus w fuel' waited
    | O => mret waited
    end
  else mret waited.

Definition SERVICE_FILE : string :=
  "/root/.config/systemd/user/openclaw-gateway.service".

(** Lines 350-351. *)
Definition memory_max (total_mem_mb : Z) : string :=
  pretty ((total_mem_mb * 80) `div` 100)%Z +:+ "M".
Definition memory_high (total_mem_mb : Z) : string :=
  pretty ((total_mem_mb * 75) `div` 100)%Z +:+ "M".

(** The test of line 362. *)
Definition is_memory_directive (line : string) : bool :=
  startswith_any (strip line) ["MemoryMax="; "MemoryHigh="].

(** Lines 360-364. *)
Definition remove_memory_directives (content : string) : string :=
  join nl (filter (λ line, negb (is_memory_directive line)) (splitlines content)).

(** The replacement text of line 370. *)
Definition service_header_with_limits (total_mem_mb : Z) : string :=
  "[Service]" +:+ nl +:+ "MemoryMax=" +:+ memory_max total_mem_mb
  +:+ nl +:+ "MemoryHigh=" +:+ memory_high total_mem_mb.

(** Lines 357-375: the new text of the unit file, [None] when it is left alone. *)
Definition rewrite_unit_file (total_mem_mb : Z) (content : string) : option string :=
  let content := remove_memory_directives content in
  if str_contains "[Service]" content
  then Some (replace "[Service]" (service_header_with_limits total_mem_mb) content)
  else None.

(** Lines 334-381. *)
Definition configure_memory_limits (w : world) : M unit :=
  match service_file w with
  | Some text =>
      log "Configuring memory limits...";;
      emit (Exec ["free"; "-m"]);;
      match free_m w with
      | MemTotal total_mem_mb =>
          if bool_decide (0 < total_mem_mb)%Z then
            log ("Total memory: " +:+ pretty total_mem_mb +:+ "MB, MemoryMax: "
                 +:+ memory_max total_mem_mb +:+ ", MemoryHigh: "
                 +:+ memory_high total_mem_mb);;
            match rewrite_unit_file total_mem_mb text with
            | Some content =>
                emit (WriteText SERVICE_FILE content);;
                log "Memory limits configured in service file"
            | None => log "Warning: [Service] section not found in service file"
            end
          else log "Warning: Could not determine total memory"
      | MemError e => log ("Warning: Failed to configure memory limits: " +:+ e)
      end
  | None => log ("Warning: Service file not found: " +:+ SERVICE_FILE)
  end.

Definition max_retries : nat := 10.
Definition retry_delay : nat := 5.
Definition service_name : string := "openclaw-gateway.service".

(** The two loops of lines 396-407 and 410-421 differ in the command and in
    the wording of their messages only. *)
Section RetryLoop.

Variable w : world.
Variable argv : list string.
Variables what done_msg exhausted_msg : string.

Definition attempt_failed_msg (attempt : nat) (e : string) : string :=
  what +:+ " attempt " +:+ pretty attempt +:+ "/" +:+ pretty max_retries
  +:+ " failed: " +:+ e.

Definition retrying_msg : string :=
  "Retrying in " +:+ pretty retry_delay +:+ " seconds...".

(** [for attempt in attempts: try ... break except CalledProcessError ...] *)
Fixpoint retry_loop (attempts : list nat) : M unit :=
  match attempts with
  | [] => mret tt
  | attempt :: rest =>
      r ← subprocess_run w argv attempt;
      match r with
      | Exit0 => log done_msg
      | CalledProcessError e =>
          log (attempt_failed_msg attempt e);;
          (if bool_decide (attempt < max_retries)
           then log retrying_msg;; emit (Sleep retry_delay)
           else log exhausted_msg);;
          retry_loop rest
      end
  end.

End RetryLoop.

Definition enable_argv : list string := ["systemctl"; "--user"; "enable"; service_name].
Definition restart_argv : list string := ["systemctl"; "--user"; "restart"; service_name].

(** Lines 395-407. *)
Definition enable_service (w : world) : M unit :=
  log "Enabling gateway service...";;
  retry_loop w enable_argv "Enable" "Gateway service enabled!"
             "Warning: All enable attempts failed" (seq 1 max_retries).

(** Lines 409-421. *)
Definition start_service (w : world) : M unit :=
  log "Starting gateway service...";;
  retry_loop w restart_argv "Start" "Gateway service started!"
             "Warning: All start attempts failed" (seq 1 max_retries).

Definition completed_msg : string := "========== setup-openclaw.py completed ==========".

(** Lines 305-423. *)
Definition provision (w : world) : M unit :=
  let uid := pretty (getuid w) in
  let xdg_runtime_dir := "/run/user/" +:+ uid in
  let bus_socket := xdg_runtime_dir +:+ "/bus" in
  log ("Enabling linger for user " +:+ uid +:+ "...");;
  r ← subprocess_run w ["loginctl"; "enable-linger"; uid] 1;
  match r with
  | Exit0 => log "Linger enabled!"
  | CalledProcessError e => log ("Warning: Failed to enable linger: " +:+ e)
  end;;
  log ("Waiting for user bus socket (" +:+ bus_socket +:+ ")...");;
  waited ← wait_for_bus w max_wait 0;
  (if bus_socket_exists w waited
   then log "Bus socket ready!"
   else log ("Warning: Bus socket not found after " +:+ pretty max_wait
             +:+ "s, continuing anyway..."));;
  emit (SetEnv "XDG_RUNTIME_DIR" xdg_runtime_dir);;
  log ("XDG_RUNTIME_DIR: " +:+ xdg_runtime_dir);;
  configure_memory_limits w;;
  log "Reloading systemd user daemon...";;
  r ← subprocess_run w ["systemctl"; "--user"; "daemon-reload"] 1;
  match r with
  | Exit0 => log "Daemon reloaded!"
  | CalledProcessError e => log ("Warning: daemon-reload failed: " +:+ e)
  end;;
  enable_service w;;
  start_service w;;
  log completed_msg.

(** ** main (lines 97-423) *)
Definition main (w : world) : M unit :=
  config ← configure w;
  persist w config;;
  provision w.

(** ** Shape of a configuration document *)

(** The items [main] descends into: the script indexes them as dicts. *)
Definition dict_paths : list (list string) :=
  [ [];
    ["gateway"]; ["gateway"; "auth"]; ["gateway"; "http"];
    ["gateway"; "http"; "endpoints"];
    ["gateway"; "http"; "endpoints"; "chatCompletions"];
    ["gateway"; "controlUi"];
    ["models"];
    ["agents"]; ["agents"; "defaults"];
    ["channels"]; ["channels"; "feishu"];
    ["plugins"]; ["plugins"; "entries"];
    ["meta"] ].

Definition none_or_dict (o : option value) : bool :=
  match o with None => true | Some v => is_dict v end.

Definition is_some_b {A} (o : option A) : bool :=
  match o with Some _ => true | None => false end.

(** The document is an object, and so is each of those items that exists. *)
Definition well_shaped (c : value) : bool :=
  forallb (λ q, none_or_dict (lookup_path q c)) dict_paths.

(** The document [main] starts from (lines 130-136). *)
Definition prior_config (w : world) : value :=
  match config_file w with Some doc => doc | None => VDict ∅ end.

(** ** Statement view of the configuration blocks

    Each block of [main] runs a fixed sequence of the two statements below;
    the lemmas [outcome_*] of Part II say which. *)

Inductive stmt : Type :=
| SEnsure (p : list string) (key : string)
| SAssign (p : list string) (key : string) (v : value).

Definition exec_stmt (st : stmt) (c : value) : result value :=
  match st with
  | SEnsure p key => ensure p key c
  | SAssign p key v => assign p key v c
  end.

Fixpoint exec_list (sts : list stmt) (c : value) : result value :=
  match sts with
  | [] => Ok c
  | st :: rest => c' ← exec_stmt st c; exec_list rest c'
  end.

(** The item a statement may write. *)
Definition footprint (st : stmt) : list string :=
  match st with SEnsure p key | SAssign p key _ => p ++ [key] end.

Definition strictly_below (f q : list string) : bool :=
  match strip_prefix f q with Some (_ :: _) => true | _ => false end.

(** The statement cannot change what is read at [q]. *)
Definition unaffected (q : list string) (st : stmt) : bool :=
  match st with
  | SEnsure p key => diverge (p ++ [key]) q || strictly_below (p ++ [key]) q
  | SAssign p key _ => diverge (p ++ [key]) q
  end.

(** The statement cannot remove the item at [q] or make it a non-dict. *)
Definition keeps_dict (q : list string) (st : stmt) : bool :=
  match st with
  | SEnsure _ _ => true
  | SAssign p key _ => negb (is_some_b (strip_prefix (p ++ [key]) q))
  end.

Definition mem_path (p : list string) (ps : list (list string)) : bool :=
  existsb (λ q, bool_decide (q = p)) ps.

Definition is_present (p : list string) (present : list (list string)) : bool :=
  match p with [] => true | _ => mem_path p present end.

(** Storing [v] at [f] keeps the shape and the items known to exist. *)
Definition value_fits (f : list string) (v : value) (present : list (list string)) : bool :=
  forallb (λ q, match strip_prefix f q with
                | Some r => none_or_dict (lookup_path r v)
                | None => true
                end) dict_paths
  && forallb (λ q, match strip_prefix f q with
                   | Some r => is_some_b (lookup_path r v)
                   | None => true
                   end) present.

(** The statements cannot raise on a well-shaped document in which the
    items [present] exist. *)
Fixpoint admissible (present : list (list string)) (sts : list stmt) : bool :=
  match sts with
  | [] => true
  | st :: rest =>
      match st with
      | SEnsure p key => mem_path p dict_paths && is_present p present
      | SAssign p key v =>
          mem_path p dict_paths && is_present p present
          && value_fits (p ++ [key]) v present
      end && admissible (footprint st :: present) rest
  end.

Definition present_after (present : list (list string)) (sts : list stmt)
  : list (list string) :=
  fold_left (λ acc st, footprint st :: acc) sts present.

Definition Inv (present : list (list string)) (c : value) : Prop :=
  well_shaped c = true ∧
  forallb (λ q, is_some_b (lookup_path q c)) present = true.

(** The statements of each block. *)

Definition stmts_gateway_token (gateway_token : string) : list stmt :=
  [ SEnsure [] "gateway";
    SEnsure ["gateway"] "auth";
    SAssign ["gateway"; "auth"] "token" (VStr gateway_token) ].

Definition stmts_ark (merged : value) (model_id : string) : list stmt :=
  [ SAssign [] "models" merged;
    SEnsure [] "agents";
    SEnsure ["agents"] "defaults";
    SAssign ["agents"; "defaults"] "model"
      (VDict {[ "primary" := VStr ("ark/" +:+ model_id) ]});
    SAssign ["agents"; "defaults"] "models"
      (VDict {[ "ark/" +:+ model_id := VDict ∅ ]}) ].

Definition stmts_channels : list stmt := [ SEnsure [] "channels" ].

Definition stmts_feishu_app_id (cr : credentials) : list stmt :=
  if nonempty (feishu_app_id cr) then
    [ SEnsure ["channels"] "feishu";
      SAssign ["channels"; "feishu"] "appId" (VStr (feishu_app_id cr)) ]
  else [].

Definition stmts_feishu_app_secret (cr : credentials) : list stmt :=
  if nonempty (feishu_app_secret cr) then
    [ SEnsure ["channels"] "feishu";
      SAssign ["channels"; "feishu"] "appSecret" (VStr (feishu_app_secret cr)) ]
  else [].

Definition stmts_telegram (cr : credentials) : list stmt :=
  if nonempty (telegram_bot_token cr) then
    [ SAssign ["channels"] "telegram" (VDict (telegram_block (telegram_bot_token cr)));
      SEnsure [] "plugins";
      SEnsure ["plugins"] "entries";
      SAssign ["plugins"; "entries"] "telegram" (VDict {[ "enabled" := VBool true ]}) ]
  else [].

Definition stmts_chat_completions : list stmt :=
  [ SEnsure ["gateway"] "http";
    SEnsure ["gateway"; "http"] "endpoints";
    SEnsure ["gateway"; "http"; "endpoints"] "chatCompletions";
    SAssign ["gateway"; "http"; "endpoints"; "chatCompletions"] "enabled" (VBool true) ].

Definition stmts_dingtalk (cr : credentials) (gateway_token : value) : list stmt :=
  SAssign ["channels"] "dingtalk-connector"
    (VDict (dingtalk_block (dingtalk_client_id cr) (dingtalk_client_secret cr)
              gateway_token))
  :: SEnsure [] "gateway"
  :: stmts_chat_completions.

Definition stmts_wecom (cr : credentials) : list stmt :=
  if nonempty (wecom_token cr) && nonempty (wecom_encoding_aes_key cr) then
    [ SAssign ["channels"] "wecom"
        (VDict (wecom_block (wecom_token cr) (wecom_encoding_aes_key cr)));
      SEnsure [] "gateway";
      SAssign ["gateway"] "bind" (VStr "lan");
      SEnsure ["gateway"] "controlUi";
      SAssign ["gateway"; "controlUi"] "enabled" (VBool true);
      SAssign ["gateway"; "controlUi"] "allowInsecureAuth" (VBool true) ]
    ++ stmts_chat_completions
  else [].

Definition stmts_meta (now : string) : list stmt :=
  [ SEnsure [] "meta"; SAssign ["meta"] "lastTouchedAt" (VStr now) ].

(** The blocks that read the document before writing it. *)
Definition ark_result (site instance_id : string) (cr : credentials) (c : value)
  : result value :=
  if nonempty (ark_api_key cr) && nonempty (ark_model_id cr) then
    models ← py_get c "models" (VDict ∅);
    merged ← call_deep_merge models
               (ark_config (get_ark_url site (ark_coding_plan cr)) (ark_api_key cr)
                           (ark_model_id cr) instance_id);
    exec_list (stmts_ark merged (ark_model_id cr)) c
  else Ok c.

Definition dingtalk_result (cr : credentials) (c : value) : result value :=
  if nonempty (dingtalk_client_id cr) && nonempty (dingtalk_client_secret cr) then
    gateway_token ← getpath ["gateway"; "auth"; "token"] c;
    exec_list (stmts_dingtalk cr gateway_token) c
  else Ok c.

(** The credentials of a run. *)
Definition credentials_of (w : world) : credentials :=
  resolve_credentials w (load_env_file (env_file w)).

(** What [configure] returns or raises, block by block. *)
Definition configure_result (w : world) : result value :=
  let cr := credentials_of w in
  c ← exec_list (stmts_gateway_token (fresh_token w)) (prior_config w);
  c ← ark_result (detect_site w) (get_instance_id w) cr c;
  c ← exec_list stmts_channels c;
  c ← exec_list (stmts_feishu_app_id cr) c;
  c ← exec_list (stmts_feishu_app_secret cr) c;
  c ← exec_list (stmts_telegram cr) c;
  c ← dingtalk_result cr c;
  c ← exec_list (stmts_wecom cr) c;
  exec_list (stmts_meta (strftime_iso (utcnow w))) c.

(** The intermediate documents of a run of [configure_result] that completes. *)
Inductive run_of (w : world) (out : value) : Prop :=
| RunOf (doc1 doc2 doc3 doc4 doc5 doc6 doc7 doc8 : value)
    (run_token :
       exec_list (stmts_gateway_token (fresh_token w)) (prior_config w) = Ok doc1)
    (run_ark :
       ark_result (detect_site w) (get_instance_id w) (credentials_of w) doc1 = Ok doc2)
    (run_channels : exec_list stmts_channels doc2 = Ok doc3)
    (run_feishu_id : exec_list (stmts_feishu_app_id (credentials_of w)) doc3 = Ok doc4)
    (run_feishu_secret :
       exec_list (stmts_feishu_app_secret (credentials_of w)) doc4 = Ok doc5)
    (run_telegram : exec_list (stmts_telegram (credentials_of w)) doc5 = Ok doc6)
    (run_dingtalk : dingtalk_result (credentials_of w) doc6 = Ok doc7)
    (run_wecom : exec_list (stmts_wecom (credentials_of w)) doc7 = Ok doc8)
    (run_meta : exec_list (stmts_meta (strftime_iso (utcnow w))) doc8 = Ok out).

(** Items that exist once the token is stored, and once [channels] is. *)
Definition present_token : list (list string) :=
  [ ["gateway"; "auth"; "token"]; ["gateway"; "auth"]; ["gateway"] ].
Definition present_channels : list (list string) :=
  ["channels"] :: present_token.

(** Decoding of [hexlify], to state that the token keeps every random byte. *)
Definition hex_value (c : ascii) : N :=
  let n := Ascii.N_of_ascii c in
  if (n <? 58)%N then (n - 48)%N else (n - 87)%N.

Fixpoint unhexlify (s : string) : list byte :=
  match s with
  | String hi (String lo s') =>
      default Byte.x00 (Byte.of_N (16 * hex_value hi + hex_value lo)) :: unhexlify s'
  | _ => []
  end.

(** ** Sample worlds *)

(** No environment, no files, metadata service unreachable, every command
    succeeds. *)
Definition quiet_world : world :=
  {| environ := ∅;
     env_file := None;
     config_file := None;
     site_name := None;
     instance_id_body := None;
     entropy := λ n, default Byte.x00 (Byte.of_N (N.of_nat (7 * n + 3)));
     utcnow := {| year := 2026; month := 2; day := 3;
                  hour := 4; minute := 5; second := 6 |};
     getuid := 0;
     bus_socket_exists := λ _, true;
     service_file := None;
     free_m := MemTotal 1000;
     run := λ _ _, Exit0 |}.

Definition with_config_file (doc : value) (w : world) : world :=
  {| environ := environ w; env_file := env_file w; config_file := Some doc;
     site_name := site_name w; instance_id_body := instance_id_body w;
     entropy := entropy w; utcnow := utcnow w; getuid := getuid w;
     bus_socket_exists := bus_socket_exists w; service_file := service_file w;
     free_m := free_m w; run := run w |}.

Definition with_environ (env : gmap string string) (w : world) : world :=
  {| environ := env; env_file := env_file w; config_file := config_file w;
     site_name := site_name w; instance_id_body := instance_id_body w;
     entropy := entropy w; utcnow := utcnow w; getuid := getuid w;
     bus_socket_exists := bus_socket_exists w; service_file := service_file w;
     free_m := free_m w; run := run w |}.

Definition with_site (site : string) (w : world) : world :=
  {| environ := environ w; env_file := env_file w; config_file := config_file w;
     site_name := Some site; instance_id_body := instance_id_body w;
     entropy := entropy w; utcnow := utcnow w; getuid := getuid w;
     bus_socket_exists := bus_socket_exists w; service_file := service_file w;
     free_m := free_m w; run := run w |}.

Definition with_run (r : list string → nat → completed) (w : world) : world :=
  {| environ := environ w; env_file := env_file w; config_file := config_file w;
     site_name := site_name w; instance_id_body := instance_id_body w;
     entropy := entropy w; utcnow := utcnow w; getuid := getuid w;
     bus_socket_exists := bus_socket_exists w; service_file := service_file w;
     free_m := free_m w; run := r |}.

(** An existing document whose [gateway] entry is a number. *)
Definition world_gateway_number : world :=
  with_config_file (VDict {[ "gateway" := VInt 5 ]}) quiet_world.

(** An existing document whose [channels] entry is a number. *)
Definition world_channels_number : world :=
  with_config_file (VDict {[ "channels" := VInt 5 ]}) quiet_world.

(** An existing document with a token, channel blocks and a model section,
    and credentials for every integration. *)
Definition old_document : value :=
  VDict {[
    "gateway" := VDict {[ "auth" := VDict {[ "token" := VStr "old-token" ]};
                          "port" := VInt 18789 ]};
    "models" := VDict {[ "providers" := VDict {[
                  "ark" := VDict {[ "baseUrl" := VStr "http://old"; "note" := VStr "n" ]} ]} ]};
    "channels" := VDict {[
      "telegram" := VDict {[ "botToken" := VStr "old"; "proxy" := VStr "http://p" ]};
      "dingtalk-connector" := VDict {[ "extra" := VBool true ]};
      "wecom" := VDict {[ "agentId" := VInt 7 ]};
      "feishu" := VDict {[ "appId" := VStr "old-id"; "domain" := VStr "lark" ]} ]}
  ]}.

Definition all_credentials : gmap string string :=
  {[ "ARK_API_KEY" := "k1"; "ARK_MODEL_ID" := "m1";
     "FEISHU_APP_ID" := "cli_a"; "FEISHU_APP_SECRET" := "s3";
     "TELEGRAM_BOT_TOKEN" := "123:abc";
     "DINGTALK_CLIENT_ID" := "ding1"; "DINGTALK_CLIENT_SECRET" := "ding2";
     "WECOM_TOKEN" := "wt";
     "WECOM_ENCODING_AES_KEY" := "0123456789012345678901234567890123456789" ]}.

Definition busy_world : world :=
  with_site "BytePlus" (with_environ all_credentials
                          (with_config_file old_document quiet_world)).

(** The top-level keys of a document. *)
Definition top_keys (v : value) : gset string :=
  match v with VDict d => dom d | _ => ∅ end.

(** No credential is resolved. *)
Definition no_credentials (cr : credentials) : bool :=
  negb (nonempty (ark_api_key cr)) && negb (nonempty (ark_model_id cr))
  && negb (nonempty (feishu_app_id cr)) && negb (nonempty (feishu_app_secret cr))
  && negb (nonempty (telegram_bot_token cr))
  && negb (nonempty (dingtalk_client_id cr)) && negb (nonempty (dingtalk_client_secret cr))
  && negb (nonempty (wecom_token cr)) && negb (nonempty (wecom_encoding_aes_key cr)).

(** The document a first run without credentials writes. *)
Definition fresh_document (gateway_token now : string) : value :=
  VDict {[ "gateway" := VDict {[ "auth" := VDict {[ "token" := VStr gateway_token ]} ]};
           "channels" := VDict ∅;
           "meta" := VDict {[ "lastTouchedAt" := VStr now ]} ]}.

(** ** The length warning of line 264 in a trace *)

Definition is_aes_warning (e : event) : bool :=
  match e with
  | Log msg => startswith msg "Warning: EncodingAESKey"
  | _ => false
  end.

(** A computation that logs no such warning. *)
Definition quiet {A} (m : M A) : Prop :=
  Forall (λ e, is_aes_warning e = false) (trace m).

(** ** What a retry loop is expected to leave in the trace *)

Definition error_text (r : completed) : string :=
  match r with CalledProcessError e => e | Exit0 => EmptyString end.

Definition succeeded (r : completed) : bool :=
  match r with Exit0 => true | CalledProcessError _ => false end.

(** A failed attempt that is followed by another one: the command, the
    message of line 402, the message of line 404 and the sleep of line 405. *)
Definition failed_attempt (w : world) (argv : list string) (what : string)
    (attempt : nat) : list event :=
  [ Exec argv;
    Log (attempt_failed_msg what attempt (error_text (run w argv attempt)));
    Log retrying_msg;
    Sleep retry_delay ].

(** The first [n] attempts, all failed and retried. *)
Definition failed_attempts (w : world) (argv : list string) (what : string) (n : nat)
  : list event :=
  flat_map (failed_attempt w argv what) (seq 1 n).

(** The messages that report a failed attempt. *)
Definition is_attempt_failed (what : string) (e : event) : bool :=
  match e with
  | Log msg => startswith msg (what +:+ " attempt ")
  | _ => false
  end.

Definition is_sleep (e : event) : bool :=
  match e with Sleep _ => true | _ => false end.

Definition is_exec (e : event) : bool :=
  match e with Exec _ => true | _ => false end.

Definition count_events (P : event → bool) (tr : list event) : nat :=
  length (List.filter P tr).

(** What the specification asks of a retry loop [m] that runs [argv]:
    it never raises; if the [n]-th attempt is the first to succeed, the trace
    is the opening message, [n - 1] failed and retried attempts and the
    successful one; if all [max_retries] attempts fail, the last is followed
    by the final warning. *)
Definition retry_policy (w : world) (m : M unit) (argv : list string)
    (what opening done_msg exhausted_msg : string) : Prop :=
  outcome m = Ok tt ∧
  (∀ n, 1 ≤ n ≤ max_retries →
        (∀ i, 1 ≤ i < n → succeeded (run w argv i) = false) →
        run w argv n = Exit0 →
        trace m = Log opening :: failed_attempts w argv what (n - 1)
                  ++ [Exec argv; Log done_msg]) ∧
  ((∀ i, 1 ≤ i ≤ max_retries → succeeded (run w argv i) = false) →
   trace m = Log opening :: failed_attempts w argv what (max_retries - 1)
             ++ [ Exec argv;
                  Log (attempt_failed_msg what max_retries
                         (error_text (run w argv max_retries)));
                  Log exhausted_msg ]) ∧
  (∀ n, count_events is_exec (failed_attempts w argv what n) = n ∧
        count_events is_sleep (failed_attempts w argv what n) = n ∧
        count_events (is_attempt_failed what) (failed_attempts w argv what n) = n ∧
        Forall (λ e, is_sleep e = true → e = Sleep retry_delay)
               (failed_attempts w argv what n)).

(** A computation that does not raise. *)
Definition completes {A} (m : M A) : Prop := ∃ a, outcome m = Ok a.

(** A world whose commands fail until their [n]-th run. *)
Definition flaky_world (n : nat) : world :=
  with_run (λ _ attempt, if bool_decide (attempt < n)
                         then CalledProcessError "returned non-zero exit status 1."
                         else Exit0) quiet_world.

(** A world whose commands always fail. *)
Definition failing_world : world :=
  with_run (λ _ _, CalledProcessError "returned non-zero exit status 1.") quiet_world.

(** A unit file whose comment mentions the section by name. *)
Definition unit_file_with_comment : string :=
  "[Unit]" +:+ nl +:+
  "# limits live in the [Service] section" +:+ nl +:+
  "[Service]" +:+ nl +:+
  "MemoryMax=1G" +:+ nl +:+
  "ExecStart=/usr/bin/openclaw gateway" +:+ nl.

(** ** Notions used to state what a run changes *)

(** Walking [p] through the update [u] leaves it: some key of [p] is missing
    from the mapping reached so far. *)
Fixpoint misses (p : list string) (u : value) : bool :=
  match p, u with
  | k :: r, VDict du =>
      match du !! k with
      | None => true
      | Some uk => misses r uk
      end
  | _, _ => false
  end.

(** The top-level key a statement may add. *)
Definition stmt_top_key (st : stmt) : gset string :=
  match st with
  | SEnsure [] key | SAssign [] key _ => {[ key ]}
  | _ => ∅
  end.

Definition stmts_top_keys (sts : list stmt) : gset string :=
  foldr (λ st acc, stmt_top_key st ∪ acc) ∅ sts.

Definition ark_configured (cr : credentials) : bool :=
  nonempty (ark_api_key cr) && nonempty (ark_model_id cr).
Definition dingtalk_configured (cr : credentials) : bool :=
  nonempty (dingtalk_client_id cr) && nonempty (dingtalk_client_secret cr).
Definition wecom_configured (cr : credentials) : bool :=
  nonempty (wecom_token cr) && nonempty (wecom_encoding_aes_key cr).

(** The top-level keys [main] adds when they are missing (lines 144-293). *)
Definition added_top_keys (cr : credentials) : gset string :=
  {[ "gateway"; "channels"; "meta" ]}
  ∪ (if ark_configured cr then {[ "models"; "agents" ]} else ∅)
  ∪ (if nonempty (telegram_bot_token cr) then {[ "plugins" ]} else ∅).

(** The items [main] creates as empty objects when they are missing
    ([if k not in ...: ... = {}]), for the credentials [cr]. *)
Definition created_items (cr : credentials) : list (list string) :=
  [ ["gateway"]; ["gateway"; "auth"]; ["channels"]; ["meta"] ]
  ++ (if ark_configured cr then [ ["agents"]; ["agents"; "defaults"] ] else [])
  ++ (if nonempty (feishu_app_id cr) || nonempty (feishu_app_secret cr)
      then [ ["channels"; "feishu"] ] else [])
  ++ (if nonempty (telegram_bot_token cr)
      then [ ["plugins"]; ["plugins"; "entries"] ] else [])
  ++ (if dingtalk_configured cr || wecom_configured cr
      then [ ["gateway"; "http"]; ["gateway"; "http"; "endpoints"];
             ["gateway"; "http"; "endpoints"; "chatCompletions"] ] else [])
  ++ (if wecom_configured cr then [ ["gateway"; "controlUi"] ] else []).

(** The items [main] assigns, for the credentials [cr]. *)
Definition assigned_items (cr : credentials) : list (list string) :=
  [ ["gateway"; "auth"; "token"]; ["meta"; "lastTouchedAt"] ]
  ++ (if ark_configured cr
      then [ ["models"]; ["agents"; "defaults"; "model"];
             ["agents"; "defaults"; "models"] ] else [])
  ++ (if nonempty (feishu_app_id cr) then [ ["channels"; "feishu"; "appId"] ] else [])
  ++ (if nonempty (feishu_app_secret cr)
      then [ ["channels"; "feishu"; "appSecret"] ] else [])
  ++ (if nonempty (telegram_bot_token cr)
      then [ ["channels"; "telegram"]; ["plugins"; "entries"; "telegram"] ] else [])
  ++ (if dingtalk_configured cr then [ ["channels"; "dingtalk-connector"] ] else [])
  ++ (if wecom_configured cr
      then [ ["channels"; "wecom"]; ["gateway"; "bind"];
             ["gateway"; "controlUi"; "enabled"];
             ["gateway"; "controlUi"; "allowInsecureAuth"] ] else [])
  ++ (if dingtalk_configured cr || wecom_configured cr
      then [ ["gateway"; "http"; "endpoints"; "chatCompletions"; "enabled"] ] else []).

(** Reading at [q] cannot see any of those writes: [q] parts ways with every
    assigned item, and with every created item unless it lies below it. *)
Definition untouched (cr : credentials) (q : list string) : bool :=
  forallb (λ f, diverge f q) (assigned_items cr)
  && forallb (λ e, diverge e q || strictly_below e q) (created_items cr).

(** Whether a statement is one of those writes. *)
Definition stmt_listed (cr : credentials) (st : stmt) : Prop :=
  match st with
  | SEnsure p key => In (p ++ [key]) (created_items cr)
  | SAssign p key _ => In (p ++ [key]) (assigned_items cr)
  end.

(** The statement finds the document already as it would leave it. *)
Definition stmt_settled (c : value) (st : stmt) : Prop :=
  match st with
  | SEnsure p key => is_some_b (lookup_path (p ++ [key]) c) = true
  | SAssign p key v => lookup_path (p ++ [key]) c = Some v
  end.

(** ** Kinds of events *)

Definition is_log (e : event) : bool :=
  match e with Log _ => true | _ => false end.

(** The events that write a file. *)
Definition is_write (e : event) : bool :=
  match e with
  | CopyFile _ _ | DumpJson _ _ | WriteText _ _ => true
  | _ => false
  end.

Definition writes (tr : list event) : list event := List.filter is_write tr.

(** The seconds spent in [time.sleep]. *)
Definition slept (tr : list event) : nat :=
  foldr (λ e acc, match e with Sleep seconds => seconds + acc | _ => acc end) 0 tr.

(** The progress message of line 323. *)
Definition is_still_waiting (e : event) : bool :=
  match e with
  | Log msg => startswith msg "Still waiting for bus socket"
  | _ => false
  end.



(** A computation none of whose events satisfies [P]. *)
Definition silent {A} (P : event → bool) (m : M A) : Prop :=
  Forall (λ e, P e = false) (trace m).

(** A world in which the bus socket never appears and every command fails. *)
Definition worst_world : world :=
  {| environ := environ failing_world; env_file := env_file failing_world;
     config_file := config_file failing_world; site_name := site_name failing_world;
     instance_id_body := instance_id_body failing_world;
     entropy := entropy failing_world; utcnow := utcnow failing_world;
     getuid := getuid failing_world;
     bus_socket_exists := λ _, false;
     service_file := service_file failing_world;
     free_m := free_m failing_world; run := run failing_world |}.

(** What every entry read from the [.env] file satisfies. *)
Definition trimmed_entry (key v : string) : Prop :=
  strip key = key ∧ strip v = v ∧
  str_contains "=" key = false ∧ startswith key "#" = false.

(** A unit file with one [[Service]] header and an old memory directive. *)
Definition plain_unit_file : string :=
  "[Unit]" +:+ nl +:+
  "Description=OpenClaw gateway" +:+ nl +:+
  "[Service]" +:+ nl +:+
  "MemoryMax=1G" +:+ nl +:+
  "ExecStart=/usr/bin/openclaw gateway" +:+ nl +:+
  "[Install]" +:+ nl +:+
  "WantedBy=default.target" +:+ nl.

(** Two credential sets that differ at most in the values of the secrets
    that are set. *)
Definition same_up_to_secrets (cr cr' : credentials) : Prop :=
  ark_model_id cr = ark_model_id cr' ∧
  ark_coding_plan cr = ark_coding_plan cr' ∧
  nonempty (ark_api_key cr) = nonempty (ark_api_key cr') ∧
  nonempty (feishu_app_id cr) = nonempty (feishu_app_id cr') ∧
  nonempty (feishu_app_secret cr) = nonempty (feishu_app_secret cr') ∧
  nonempty (telegram_bot_token cr) = nonempty (telegram_bot_token cr') ∧
  nonempty (dingtalk_client_id cr) = nonempty (dingtalk_client_id cr') ∧
  nonempty (dingtalk_client_secret cr) = nonempty (dingtalk_client_secret cr') ∧
  nonempty (wecom_token cr) = nonempty (wecom_token cr') ∧
  nonempty (wecom_encoding_aes_key cr) = nonempty (wecom_encoding_aes_key cr').

(** An existing document whose [gateway.auth] entry is a string. *)
Definition world_auth_string : world :=
  with_environ all_credentials
    (with_config_file (VDict {[ "gateway" := VDict {[ "auth" := VStr "token" ]} ]})
       quiet_world).

(** A world in which the bus socket appears after 25 seconds. *)
Definition slow_bus_world : world :=
  {| environ := environ quiet_world; env_file := env_file quiet_world;
     config_file := config_file quiet_world; site_name := site_name quiet_world;
     instance_id_body := instance_id_body quiet_world;
     entropy := entropy quiet_world; utcnow := utcnow quiet_world;
     getuid := getuid quiet_world;
     bus_socket_exists := λ waited, bool_decide (25 ≤ waited);
     service_file := service_file quiet_world;
     free_m := free_m quiet_world; run := run quiet_world |}.

(** ** Paths that cannot raise KeyError *)

(** Walking [p] from [c] never meets a mapping that lacks the next key: each
    key is found, or the walk stops at a value that is not a mapping (where
    Python raises [TypeError]). *)
Fixpoint walkable (p : list string) (c : value) : bool :=
  match p with
  | [] => true
  | k :: p' =>
      match c with
      | VDict d => match d !! k with Some x => walkable p' x | None => false end
      | _ => true
      end
  end.

(** The statement leaves [q] walkable. *)
Definition keeps_walk (q : list string) (st : stmt) : bool :=
  match st with
  | SEnsure _ _ => true
  | SAssign p key _ =>
      diverge (p ++ [key]) q || is_some_b (strip_prefix q (p ++ [key]))
  end.

(** The mapping a statement indexes. *)
Definition stmt_path (st : stmt) : list string :=
  match st with SEnsure p _ | SAssign p _ _ => p end.

Definition walk_step (known : list (list string)) (st : stmt) : list (list string) :=
  footprint st :: List.filter (λ q, keeps_walk q st) known.

(** Every statement indexes the document itself or an item known walkable. *)
Fixpoint keysafe (known : list (list string)) (sts : list stmt) : bool :=
  match sts with
  | [] => true
  | st :: rest => is_present (stmt_path st) known && keysafe (walk_step known st) rest
  end.

Definition walk_after (known : list (list string)) (sts : list stmt)
  : list (list string) :=
  fold_left walk_step sts known.

Definition Walk (known : list (list string)) (c : value) : Prop :=
  forallb (λ q, walkable q c) known = true.

(** The result is a document in which [known] is walkable, or an exception
    other than [KeyError]. *)
Definition key_safe (known : list (list string)) (r : result value) : Prop :=
  match r with
  | Ok c => Walk known c
  | Raise e => e ≠ KeyError
  end.

(** ** Notions used to state that the key mismatch is not fatal *)

(** The world [w] with the environment variable of the AES key set to [key]. *)
Definition with_aes_key (key : string) (w : world) : world :=
  with_environ (<[ "WECOM_ENCODING_AES_KEY" := key ]> (environ w)) w.

(** The credentials [cr] with the AES key [key]. *)
Definition set_aes_key (key : string) (cr : credentials) : credentials :=
  {| ark_api_key := ark_api_key cr;
     ark_model_id := ark_model_id cr;
     ark_coding_plan := ark_coding_plan cr;
     feishu_app_id := feishu_app_id cr;
     feishu_app_secret := feishu_app_secret cr;
     telegram_bot_token := telegram_bot_token cr;
     dingtalk_client_id := dingtalk_client_id cr;
     dingtalk_client_secret := dingtalk_client_secret cr;
     wecom_token := wecom_token cr;
     wecom_encoding_aes_key := key |}.

(** How a computation ended: [None] when it returned, the exception
    otherwise. *)
Definition raised {A} (r : result A) : option exn :=
  match r with Ok _ => None | Raise e => Some e end.

(** The top-level key under which a statement works. *)
Definition stmt_head (st : stmt) : string :=
  match st with
  | SEnsure [] key | SAssign [] key _ => key
  | SEnsure (h :: _) _ | SAssign (h :: _) _ _ => h
  end.

(** Two mappings that agree at every key but [channels]. *)
Definition same_off_channels (d d' : dict) : Prop :=
  ∀ k, k ≠ "channels" → d !! k = d' !! k.

(** Two results that raise the same exception, or are objects that agree at
    every key but [channels]. *)
Definition alike (r r' : result value) : Prop :=
  match r, r' with
  | Ok (VDict d), Ok (VDict d') => same_off_channels d d'
  | Raise e, Raise e' => e = e'
  | _, _ => False
  end.

(** What [configure] has computed when it reaches line 261. *)
Definition configure_before_wecom (w : world) : result value :=
  let cr := credentials_of w in
  c ← exec_list (stmts_gateway_token (fresh_token w)) (prior_config w);
  c ← ark_result (detect_site w) (get_instance_id w) cr c;
  c ← exec_list stmts_channels c;
  c ← exec_list (stmts_feishu_app_id cr) c;
  c ← exec_list (stmts_feishu_app_secret cr) c;
  c ← exec_list (stmts_telegram cr) c;
  dingtalk_result cr c.

(** An existing document whose [channels] entry is a number, with the WeCom
    credentials, the key having 43 characters. *)
Definition world_channels_number_wecom : world :=
  with_environ {[ "WECOM_TOKEN" := "wt";
                  "WECOM_ENCODING_AES_KEY" :=
                    "0123456789012345678901234567890123456789abc" ]}
               world_channels_number.

(** [busy_world] with a key of 43 characters. *)
Definition busy_world_43 : world :=
  with_aes_key "0123456789012345678901234567890123456789abc" busy_world.

(* ================================================================== *)
(** * Part II: properties *)
(* ================================================================== *)

(** *** Lemmas on deep_merge *)

Lemma merge_item_unfold old v :
  merge_item old v =
  match old, v with
  | Some (VDict r), VDict u => VDict (deep_merge r u)
  | _, _ => v
  end.
Proof. destruct old as [[]|], v; reflexivity. Qed.

Lemma deep_merge_lookup (base update : dict) (k : string) :
  deep_merge base update !! k =
  match update !! k with
  | Some v => Some (merge_item (base !! k) v)
  | None => base !! k
  end.
Proof.
  unfold deep_merge. revert k.
  apply (map_fold_weak_ind
    (λ (r : dict) (m : dict), ∀ k, r !! k =
       match m !! k with
       | Some v => Some (merge_item (base !! k) v)
       | None => base !! k
       end)).
  - intros k. by rewrite lookup_empty.
  - intros i x m r Hi IH k. destruct (decide (i = k)) as [->|Hne].
    + rewrite !lookup_insert_eq. by rewrite IH, Hi.
    + rewrite !lookup_insert_ne by done. apply IH.
Qed.

Lemma deep_merge_empty_r (base : dict) : deep_merge base ∅ = base.
Proof. apply map_eq. intros k. by rewrite deep_merge_lookup, lookup_empty. Qed.

Lemma deep_merge_empty_l (update : dict) : deep_merge ∅ update = update.
Proof.
  apply map_eq. intros k. rewrite deep_merge_lookup, lookup_empty.
  destruct (update !! k) as [v|]; [|done]. by rewrite merge_item_unfold.
Qed.

Lemma map_fold_andb_true {A} (f : string → A → bool) (m : gmap string A) :
  map_fold (λ k x acc, acc && f k x) true m = true ↔
  ∀ k x, m !! k = Some x → f k x = true.
Proof.
  apply (map_fold_weak_ind
    (λ (r : bool) (m : gmap string A),
       r = true ↔ ∀ k x, m !! k = Some x → f k x = true)).
  - split; [|done]. intros _ k x. by rewrite lookup_empty.
  - intros i x m' r Hi IH. rewrite andb_true_iff, IH. split.
    + intros [Hm Hx] k y. destruct (decide (i = k)) as [->|Hne].
      * rewrite lookup_insert_eq. by intros [= <-].
      * rewrite lookup_insert_ne by done. apply Hm.
    + intros H. split.
      * intros k y Hk. apply (H k y).
        rewrite lookup_insert_ne; [done|]. intros ->. congruence.
      * apply (H i x). by rewrite lookup_insert_eq.
Qed.

Lemma depth_lookup (d : dict) (k : string) (x : value) :
  d !! k = Some x → depth x < depth (VDict d).
Proof.
  simpl. revert k x.
  apply (map_fold_weak_ind
    (λ (r : nat) (m : dict), ∀ k x, m !! k = Some x → depth x < S r)).
  - intros k x. by rewrite lookup_empty.
  - intros i y m r Hi IH k x. destruct (decide (i = k)) as [->|Hne].
    + rewrite lookup_insert_eq. intros [= <-]. lia.
    + rewrite lookup_insert_ne by done. intros Hk. specialize (IH k x Hk). lia.
Qed.

Lemma assoc_safe_lookup (a b c : dict) (k : string) (ak : value) :
  assoc_safe a b c = true → a !! k = Some ak →
  assoc_safe_item ak (b !! k) (c !! k) = true.
Proof.
  unfold assoc_safe. simpl. rewrite map_fold_andb_true. intros H. apply H.
Qed.

Lemma deep_merge_assoc_depth (n : nat) :
  ∀ a b c : dict, depth (VDict a) ≤ n → assoc_safe a b c = true →
    deep_merge (deep_merge a b) c = deep_merge a (deep_merge b c).
Proof.
  induction n as [|n IH]; intros a b c Hd Hs; [simpl in Hd; lia|].
  apply map_eq. intros k. rewrite !deep_merge_lookup.
  destruct (c !! k) as [ck|] eqn:Hc; [|by destruct (b !! k)].
  destruct (b !! k) as [bk|] eqn:Hb; [|by rewrite (merge_item_unfold None)].
  destruct (a !! k) as [ak|] eqn:Ha.
  - pose proof (assoc_safe_lookup _ _ _ _ _ Hs Ha) as Hk.
    pose proof (depth_lookup _ _ _ Ha) as Hlt.
    rewrite Hb, Hc in Hk. rewrite !merge_item_unfold.
    destruct ak as [| | | | | |da]; try by destruct bk, ck.
    destruct ck as [| | | | | |dc]; try by destruct bk.
    destruct bk as [| | | | | |db]; try done.
    do 2 f_equal. apply IH; [lia|done].
  - rewrite !merge_item_unfold. by destruct bk, ck.
Qed.

Lemma deep_merge_assoc (a b c : dict) :
  assoc_safe a b c = true →
  deep_merge (deep_merge a b) c = deep_merge a (deep_merge b c).
Proof. by apply (deep_merge_assoc_depth (depth (VDict a))). Qed.

(** *** The monad *)

Lemma outcome_bind {A B} (m : M A) (f : A → M B) :
  outcome (m ≫= f) =
  match outcome m with Ok a => outcome (f a) | Raise e => Raise e end.
Proof. unfold mbind, M_bind. by destruct (outcome m). Qed.

Lemma trace_bind {A B} (m : M A) (f : A → M B) :
  trace (m ≫= f) =
  trace m ++ match outcome m with Ok a => trace (f a) | Raise _ => [] end.
Proof.
  unfold mbind, M_bind. destruct (outcome m); simpl; [done|].
  by rewrite app_nil_r.
Qed.

Lemma bind_Ok_inv {A B} (m : M A) (f : A → M B) (b : B) :
  outcome (m ≫= f) = Ok b → ∃ a, outcome m = Ok a ∧ outcome (f a) = Ok b.
Proof. rewrite outcome_bind. destruct (outcome m) as [a|]; [eauto|done]. Qed.

Lemma result_bind_Ok_inv {A B} (r : result A) (f : A → result B) (b : B) :
  r ≫= f = Ok b → ∃ a, r = Ok a ∧ f a = Ok b.
Proof. destruct r as [a|]; [eauto|done]. Qed.

(** *** Reading and writing along a path *)

Lemma getitem_child (c : value) (k : string) (v : value) :
  py_getitem c k = Ok v ↔ child k c = Some v.
Proof.
  destruct c; simpl; try (split; congruence).
  destruct (d !! k); split; congruence.
Qed.

Lemma getpath_lookup (p : list string) (c v : value) :
  getpath p c = Ok v ↔ lookup_path p c = Some v.
Proof.
  revert c. induction p as [|k p IH]; intros c; simpl.
  - split; congruence.
  - destruct (py_getitem c k) as [sub|e] eqn:Hget; simpl.
    + apply getitem_child in Hget. rewrite Hget. apply IH.
    + destruct (child k c) as [x|] eqn:Hc; [|split; congruence].
      apply getitem_child in Hc. congruence.
Qed.

Lemma lookup_path_app (p q : list string) (c : value) :
  lookup_path (p ++ q) c =
  match lookup_path p c with Some x => lookup_path q x | None => None end.
Proof.
  revert c. induction p as [|k p IH]; intros c; simpl; [done|].
  destruct (child k c); [apply IH|done].
Qed.

Lemma assign_spec (p : list string) (key : string) (v c c' : value) :
  assign p key v c = Ok c' →
  ∃ d, lookup_path p c = Some (VDict d) ∧
       lookup_path p c' = Some (VDict (<[key := v]> d)).
Proof.
  revert c c'. induction p as [|k p IH]; intros c c'; simpl.
  - destruct c; simpl; try done. intros [= <-]. eauto.
  - intros (sub & Hget & H)%result_bind_Ok_inv.
    apply result_bind_Ok_inv in H as (sub' & Hsub & Hset).
    destruct c as [| | | | | |d]; try done. simpl in *.
    destruct (d !! k) eqn:Hk; [|done]. injection Hget as ->.
    injection Hset as <-. simpl. rewrite lookup_insert_eq. by apply IH.
Qed.

Lemma assign_ok (p : list string) (key : string) (v c : value) (d : dict) :
  lookup_path p c = Some (VDict d) → ∃ c', assign p key v c = Ok c'.
Proof.
  revert c. induction p as [|k p IH]; intros c; simpl.
  - intros [= ->]. simpl. eauto.
  - destruct c as [| | | | | |dc]; simpl; try done.
    destruct (dc !! k) as [sub|]; [|done]. simpl. intros Hsub.
    destruct (IH _ Hsub) as [sub' ->]. simpl. eauto.
Qed.

Lemma assign_hit (p : list string) (key : string) (v c c' : value) (r : list string) :
  assign p key v c = Ok c' →
  lookup_path (p ++ key :: r) c' = lookup_path r v.
Proof.
  intros (d & _ & Hc')%assign_spec. rewrite lookup_path_app, Hc'. simpl.
  by rewrite lookup_insert_eq.
Qed.

Lemma assign_diverge (p : list string) (key : string) (v c c' : value) (q : list string) :
  assign p key v c = Ok c' → diverge (p ++ [key]) q = true →
  lookup_path q c' = lookup_path q c.
Proof.
  revert c c' q. induction p as [|k p IH]; intros c c' q; simpl.
  - destruct c as [| | | | | |d]; try done. simpl. intros [= <-].
    destruct q as [|j q]; [done|]. case_bool_decide; [by destruct q|].
    intros _. simpl. by rewrite lookup_insert_ne.
  - intros (sub & Hget & H)%result_bind_Ok_inv.
    apply result_bind_Ok_inv in H as (sub' & Hsub & Hset).
    destruct c as [| | | | | |d]; try done. simpl in *.
    destruct (d !! k) eqn:Hk; [|done]. injection Hget as ->.
    injection Hset as <-. destruct q as [|j q]; [done|].
    case_bool_decide as Hkj.
    + subst j. simpl. rewrite lookup_insert_eq, Hk. by apply IH.
    + intros _. simpl. by rewrite lookup_insert_ne.
Qed.

Lemma assign_above (p : list string) (key : string) (v c c' : value)
    (q r : list string) :
  assign p key v c = Ok c' → strip_prefix q p = Some r →
  ∃ d d', lookup_path q c = Some (VDict d) ∧ lookup_path q c' = Some (VDict d').
Proof.
  revert c c' q r. induction p as [|k p IH]; intros c c' q r; simpl.
  - destruct q; [|done]. destruct c; try done. simpl. intros [= <-] _. eauto.
  - intros (sub & Hget & H)%result_bind_Ok_inv.
    apply result_bind_Ok_inv in H as (sub' & Hsub & Hset).
    destruct c as [| | | | | |d]; try done. simpl in *.
    destruct (d !! k) eqn:Hk; [|done]. injection Hget as ->.
    injection Hset as <-. destruct q as [|j q]; simpl; [eauto|].
    case_bool_decide; [subst j|done]. rewrite lookup_insert_eq, Hk.
    by apply IH.
Qed.

(** Every path is above, below or beside the item a statement writes. *)
Lemma path_trichotomy (f q : list string) :
  diverge f q = true ∨ is_Some (strip_prefix f q) ∨
  (∃ k r, strip_prefix q f = Some (k :: r)).
Proof.
  revert q. induction f as [|a f IH]; intros q; simpl.
  - right. left. eauto.
  - destruct q as [|b q]; simpl; [right; right; eauto|].
    case_bool_decide; [subst b|by left].
    rewrite bool_decide_true by done. apply IH.
Qed.

Lemma strip_prefix_Some (p q r : list string) :
  strip_prefix p q = Some r ↔ q = p ++ r.
Proof.
  revert q. induction p as [|a p IH]; intros q; simpl.
  - split; congruence.
  - destruct q as [|b q]; [done|]. case_bool_decide.
    + subst. rewrite IH. split; congruence.
    + split; [done|]. congruence.
Qed.

Lemma strip_prefix_snoc (p : list string) (key : string) (q : list string) (k : string)
    (r : list string) :
  strip_prefix q (p ++ [key]) = Some (k :: r) → is_Some (strip_prefix q p).
Proof.
  rewrite strip_prefix_Some. intros Heq.
  destruct (decide (r = [])) as [->|Hr].
  - apply app_inj_tail in Heq as [-> _]. exists []. apply strip_prefix_Some.
    by rewrite app_nil_r.
  - destruct (exists_last Hr) as (r' & z & ->).
    change (k :: r' ++ [z]) with ((k :: r') ++ [z]) in Heq.
    rewrite app_assoc in Heq. apply app_inj_tail in Heq as [-> _].
    exists (k :: r'). by apply strip_prefix_Some.
Qed.

Lemma ensure_cases (p : list string) (key : string) (c c' : value) :
  ensure p key c = Ok c' →
  (c' = c ∧ ∃ o, lookup_path p c = Some o ∧ py_contains o key = Ok true) ∨
  (∃ d, lookup_path p c = Some (VDict d) ∧ d !! key = None ∧
        assign p key (VDict ∅) c = Ok c').
Proof.
  unfold ensure. intros (o & Ho & H)%result_bind_Ok_inv.
  apply result_bind_Ok_inv in H as (b & Hb & H).
  apply getpath_lookup in Ho. destruct b.
  - left. injection H as <-. eauto.
  - right. destruct (assign_spec _ _ _ _ _ H) as (d & Hd & _).
    exists d. split; [done|]. split; [|done].
    rewrite Hd in Ho. injection Ho as <-. simpl in Hb. injection Hb as Hb.
    apply bool_decide_eq_false in Hb. by apply eq_None_not_Some.
Qed.

Lemma ensure_ok (p : list string) (key : string) (c : value) (d : dict) :
  lookup_path p c = Some (VDict d) → ∃ c', ensure p key c = Ok c'.
Proof.
  intros Hd. unfold ensure. apply getpath_lookup in Hd as Hg. rewrite Hg. simpl.
  destruct (bool_decide _); [eauto|]. by eapply assign_ok.
Qed.

Lemma ensure_present (p : list string) (key : string) (c c' : value) (d : dict) :
  ensure p key c = Ok c' → lookup_path p c = Some (VDict d) →
  is_some_b (lookup_path (p ++ [key]) c') = true.
Proof.
  intros [[-> (o & Ho & Hc)]|(d' & Hd' & Hk & Ha)]%ensure_cases Hd.
  - rewrite Ho in Hd. injection Hd as ->. simpl in Hc. injection Hc as Hc.
    apply bool_decide_eq_true in Hc as [x Hx].
    rewrite lookup_path_app, Ho. simpl. by rewrite Hx.
  - by rewrite (assign_hit _ _ _ _ _ [] Ha).
Qed.

Lemma lookup_path_absent (p : list string) (key : string) (r : list string)
    (c : value) (d : dict) :
  lookup_path p c = Some (VDict d) → d !! key = None →
  lookup_path (p ++ key :: r) c = None.
Proof. intros Hd Hk. rewrite lookup_path_app, Hd. simpl. by rewrite Hk. Qed.

Lemma ensure_frame (p : list string) (key : string) (c c' : value) (q : list string) :
  ensure p key c = Ok c' → unaffected q (SEnsure p key) = true →
  lookup_path q c' = lookup_path q c.
Proof.
  intros [[-> _]|(d & Hd & Hk & Ha)]%ensure_cases; [done|].
  simpl. intros [Hdiv|Hbelow]%orb_true_iff.
  - by eapply assign_diverge.
  - unfold strictly_below in Hbelow.
    destruct (strip_prefix (p ++ [key]) q) as [[|k r]|] eqn:Hq; try done.
    apply strip_prefix_Some in Hq. subst q. rewrite <-app_assoc. simpl.
    rewrite (assign_hit _ _ _ _ _ (k :: r) Ha).
    by rewrite (lookup_path_absent _ _ _ _ _ Hd Hk).
Qed.

(** An item that was a dict (or absent) stays so under both statements. *)
Lemma ensure_none_or_dict (p : list string) (key : string) (c c' : value)
    (q : list string) :
  ensure p key c = Ok c' → none_or_dict (lookup_path q c) = true →
  none_or_dict (lookup_path q c') = true.
Proof.
  intros [[-> _]|(d & Hd & Hk & Ha)]%ensure_cases; [done|]. intros Hq.
  destruct (path_trichotomy (p ++ [key]) q) as [Hdiv|[[r Hr]|(k & r & Hr)]].
  - by rewrite (assign_diverge _ _ _ _ _ _ Ha Hdiv).
  - apply strip_prefix_Some in Hr. subst q. rewrite <-app_assoc. simpl.
    rewrite (assign_hit _ _ _ _ _ r Ha). by destruct r.
  - apply strip_prefix_snoc in Hr as [r' Hr'].
    destruct (assign_above _ _ _ _ _ _ _ Ha Hr') as (? & ? & _ & ->). done.
Qed.

Lemma assign_none_or_dict (p : list string) (key : string) (v c c' : value)
    (q : list string) :
  assign p key v c = Ok c' → none_or_dict (lookup_path q c) = true →
  match strip_prefix (p ++ [key]) q with
  | Some r => none_or_dict (lookup_path r v)
  | None => true
  end = true →
  none_or_dict (lookup_path q c') = true.
Proof.
  intros Ha Hq Hv.
  destruct (path_trichotomy (p ++ [key]) q) as [Hdiv|[[r Hr]|(k & r & Hr)]].
  - by rewrite (assign_diverge _ _ _ _ _ _ Ha Hdiv).
  - rewrite Hr in Hv. apply strip_prefix_Some in Hr. subst q.
    rewrite <-app_assoc. simpl. by rewrite (assign_hit _ _ _ _ _ r Ha).
  - apply strip_prefix_snoc in Hr as [r' Hr'].
    destruct (assign_above _ _ _ _ _ _ _ Ha Hr') as (? & ? & _ & ->). done.
Qed.

Lemma ensure_is_some (p : list string) (key : string) (c c' : value) (q : list string) :
  ensure p key c = Ok c' → is_some_b (lookup_path q c) = true →
  is_some_b (lookup_path q c') = true.
Proof.
  intros [[-> _]|(d & Hd & Hk & Ha)]%ensure_cases; [done|]. intros Hq.
  destruct (path_trichotomy (p ++ [key]) q) as [Hdiv|[[r Hr]|(k & r & Hr)]].
  - by rewrite (assign_diverge _ _ _ _ _ _ Ha Hdiv).
  - apply strip_prefix_Some in Hr. subst q. rewrite <-app_assoc in Hq. simpl in Hq.
    by rewrite (lookup_path_absent _ _ _ _ _ Hd Hk) in Hq.
  - apply strip_prefix_snoc in Hr as [r' Hr'].
    destruct (assign_above _ _ _ _ _ _ _ Ha Hr') as (? & ? & _ & ->). done.
Qed.

Lemma assign_is_some (p : list string) (key : string) (v c c' : value)
    (q : list string) :
  assign p key v c = Ok c' → is_some_b (lookup_path q c) = true →
  match strip_prefix (p ++ [key]) q with
  | Some r => is_some_b (lookup_path r v)
  | None => true
  end = true →
  is_some_b (lookup_path q c') = true.
Proof.
  intros Ha Hq Hv.
  destruct (path_trichotomy (p ++ [key]) q) as [Hdiv|[[r Hr]|(k & r & Hr)]].
  - by rewrite (assign_diverge _ _ _ _ _ _ Ha Hdiv).
  - rewrite Hr in Hv. apply strip_prefix_Some in Hr. subst q.
    rewrite <-app_assoc. simpl. by rewrite (assign_hit _ _ _ _ _ r Ha).
  - apply strip_prefix_snoc in Hr as [r' Hr'].
    destruct (assign_above _ _ _ _ _ _ _ Ha Hr') as (? & ? & _ & ->). done.
Qed.

(** *** Sequences of statements *)

Lemma exec_frame (sts : list stmt) (c c' : value) (q : list string) :
  exec_list sts c = Ok c' → forallb (unaffected q) sts = true →
  lookup_path q c' = lookup_path q c.
Proof.
  revert c. induction sts as [|st sts IH]; intros c; simpl.
  - by intros [= ->].
  - intros (c1 & H1 & H)%result_bind_Ok_inv [Hst Hsts]%andb_prop.
    rewrite (IH _ H Hsts). destruct st as [p key|p key v]; simpl in H1.
    + by apply (ensure_frame p key).
    + by apply (assign_diverge p key v).
Qed.

Lemma dict_iff (o : option value) :
  (∃ d, o = Some (VDict d)) ↔ none_or_dict o = true ∧ is_some_b o = true.
Proof.
  split.
  - by intros [d ->].
  - destruct o as [[]|]; simpl; intros [? ?]; try done. eauto.
Qed.

Lemma exec_keeps_dict (sts : list stmt) (c c' : value) (q : list string) (d : dict) :
  exec_list sts c = Ok c' → forallb (keeps_dict q) sts = true →
  lookup_path q c = Some (VDict d) → ∃ d', lookup_path q c' = Some (VDict d').
Proof.
  revert c d. induction sts as [|st sts IH]; intros c d; simpl.
  - intros [= ->]. eauto.
  - intros (c1 & H1 & H)%result_bind_Ok_inv [Hst Hsts]%andb_prop Hd.
    assert (∃ d1, lookup_path q c1 = Some (VDict d1)) as [d1 Hd1]; [|by eapply IH].
    apply dict_iff. assert (Hq : ∃ d, lookup_path q c = Some (VDict d)) by eauto.
    apply dict_iff in Hq as [Hq1 Hq2].
    destruct st as [p key|p key v]; simpl in H1, Hst.
    + split; [by eapply (ensure_none_or_dict p key)|by eapply (ensure_is_some p key)].
    + destruct (strip_prefix (p ++ [key]) q) eqn:Hs; [done|].
      split; [eapply (assign_none_or_dict p key)|eapply (assign_is_some p key)];
        eauto; by rewrite Hs.
Qed.

Lemma mem_path_In (p : list string) (ps : list (list string)) :
  mem_path p ps = true → In p ps.
Proof.
  unfold mem_path. rewrite existsb_exists. intros (q & Hq & Heq).
  apply bool_decide_eq_true in Heq. by subst.
Qed.

Lemma Inv_dict (present : list (list string)) (c : value) (p : list string) :
  Inv present c → mem_path p dict_paths = true → is_present p present = true →
  ∃ d, lookup_path p c = Some (VDict d).
Proof.
  intros [Hshape Hpres] Hp%mem_path_In Hin. apply dict_iff. split.
  - unfold well_shaped in Hshape. rewrite forallb_forall in Hshape. by apply Hshape.
  - destruct p as [|k p]; [done|]. apply mem_path_In in Hin.
    rewrite forallb_forall in Hpres. by apply Hpres.
Qed.

Lemma exec_stmt_total (present : list (list string)) (st : stmt) (c : value) :
  Inv present c → admissible present [st] = true →
  ∃ c', exec_stmt st c = Ok c' ∧ Inv (footprint st :: present) c'.
Proof.
  intros HInv Hadm. simpl in Hadm. rewrite andb_true_r in Hadm.
  pose proof HInv as [Hshape Hpres].
  unfold well_shaped in Hshape. rewrite forallb_forall in Hshape.
  rewrite forallb_forall in Hpres.
  destruct st as [p key|p key v]; simpl.
  - apply andb_prop in Hadm as [Hp1 Hp2].
    destruct (Inv_dict _ _ _ HInv Hp1 Hp2) as [d Hd].
    destruct (ensure_ok p key c d Hd) as [c' Hc']. exists c'. split; [done|].
    split; [unfold well_shaped|simpl; apply andb_true_intro; split].
    + apply forallb_forall. intros q Hq. eapply (ensure_none_or_dict p key); eauto.
    + by eapply ensure_present.
    + apply forallb_forall. intros q Hq. eapply (ensure_is_some p key); eauto.
  - apply andb_prop in Hadm as [[Hp1 Hp2]%andb_prop [Hv1 Hv2]%andb_prop].
    rewrite forallb_forall in Hv1. rewrite forallb_forall in Hv2.
    destruct (Inv_dict _ _ _ HInv Hp1 Hp2) as [d Hd].
    destruct (assign_ok p key v c d Hd) as [c' Hc']. exists c'. split; [done|].
    split; [unfold well_shaped|simpl; apply andb_true_intro; split].
    + apply forallb_forall. intros q Hq. eapply (assign_none_or_dict p key); eauto.
    + by rewrite (assign_hit _ _ _ _ _ [] Hc').
    + apply forallb_forall. intros q Hq. eapply (assign_is_some p key); eauto.
Qed.

Lemma exec_total (sts : list stmt) (present : list (list string)) (c : value) :
  Inv present c → admissible present sts = true →
  ∃ c', exec_list sts c = Ok c' ∧ Inv (present_after present sts) c'.
Proof.
  revert present c. induction sts as [|st sts IH]; intros present c HInv Hadm.
  - exists c. by split.
  - assert (admissible present [st] = true ∧
            admissible (footprint st :: present) sts = true) as [H1 H2].
    { simpl in *. rewrite andb_true_r. by apply andb_prop. }
    destruct (exec_stmt_total _ _ _ HInv H1) as (c1 & Hc1 & HInv1).
    destruct (IH _ _ HInv1 H2) as (c' & Hc' & HInv').
    exists c'. split; [|done]. simpl. by rewrite Hc1.
Qed.

Lemma Inv_weaken (present present' : list (list string)) (c : value) :
  forallb (λ q, mem_path q present) present' = true →
  Inv present c → Inv present' c.
Proof.
  intros Hsub [Hshape Hpres]. split; [done|].
  rewrite forallb_forall in Hsub. rewrite forallb_forall in Hpres.
  apply forallb_forall. intros q Hq. apply Hpres. by apply mem_path_In, Hsub.
Qed.

(** *** The blocks of [configure] as statement sequences *)

Lemma outcome_bind_lift {A B} (r : result A) (f : A → M B) :
  outcome (lift r ≫= f) = r ≫= (λ a, outcome (f a)).
Proof. rewrite outcome_bind. by destruct r. Qed.

Lemma outcome_bind_log {B} (msg : string) (f : unit → M B) :
  outcome (log msg ≫= f) = outcome (f tt).
Proof. by rewrite outcome_bind. Qed.

Lemma result_bind_Ok {A B} (a : A) (f : A → result B) : Ok a ≫= f = f a.
Proof. reflexivity. Qed.

Lemma outcome_lift {A} (r : result A) : outcome (lift r) = r.
Proof. reflexivity. Qed.

Lemma outcome_ret {A} (a : A) : outcome (mret a) = Ok a.
Proof. reflexivity. Qed.

(** Both sides run the same statements: follow them one by one. *)
Ltac run_block :=
  repeat first
    [ rewrite outcome_bind_log
    | rewrite outcome_bind_lift;
      match goal with
      | |- mbind _ ?r = _ =>
          destruct r; [rewrite !result_bind_Ok; cbv beta|reflexivity]
      end
    | rewrite outcome_lift
    | rewrite outcome_ret ];
  try reflexivity.

Lemma outcome_set_gateway_token (tok : string) (c : value) :
  outcome (set_gateway_token tok c) = exec_list (stmts_gateway_token tok) c.
Proof.
  unfold set_gateway_token, stmts_gateway_token. cbn [exec_list exec_stmt].
  run_block.
Qed.

Lemma outcome_configure_ark (site iid : string) (cr : credentials) (c : value) :
  outcome (configure_ark site iid cr c) = ark_result site iid cr c.
Proof.
  unfold configure_ark, ark_result, stmts_ark. cbn [exec_list exec_stmt].
  destruct (nonempty (ark_api_key cr) && nonempty (ark_model_id cr)); run_block.
Qed.

Lemma outcome_ensure_channels (c : value) :
  outcome (ensure_channels c) = exec_list stmts_channels c.
Proof.
  unfold ensure_channels, stmts_channels. cbn [exec_list exec_stmt].
  rewrite outcome_lift. by destruct (ensure [] "channels" c).
Qed.

Lemma outcome_configure_feishu_app_id (cr : credentials) (c : value) :
  outcome (configure_feishu_app_id cr c) = exec_list (stmts_feishu_app_id cr) c.
Proof.
  unfold configure_feishu_app_id, stmts_feishu_app_id.
  destruct (nonempty (feishu_app_id cr)); cbn [exec_list exec_stmt]; run_block.
Qed.

Lemma outcome_configure_feishu_app_secret (cr : credentials) (c : value) :
  outcome (configure_feishu_app_secret cr c) = exec_list (stmts_feishu_app_secret cr) c.
Proof.
  unfold configure_feishu_app_secret, stmts_feishu_app_secret.
  destruct (nonempty (feishu_app_secret cr)); cbn [exec_list exec_stmt]; run_block.
Qed.

Lemma outcome_configure_telegram (cr : credentials) (c : value) :
  outcome (configure_telegram cr c) = exec_list (stmts_telegram cr) c.
Proof.
  unfold configure_telegram, stmts_telegram.
  destruct (nonempty (telegram_bot_token cr)); cbn [exec_list exec_stmt]; run_block.
Qed.

Lemma outcome_enable_chat_completions (c : value) :
  outcome (enable_chat_completions c) = exec_list stmts_chat_completions c.
Proof.
  unfold enable_chat_completions, stmts_chat_completions.
  cbn [exec_list exec_stmt]. run_block.
  by destruct (assign _ _ _ _).
Qed.

Lemma outcome_configure_dingtalk (cr : credentials) (c : value) :
  outcome (configure_dingtalk cr c) = dingtalk_result cr c.
Proof.
  unfold configure_dingtalk, dingtalk_result, stmts_dingtalk.
  destruct (nonempty (dingtalk_client_id cr) && nonempty (dingtalk_client_secret cr));
    [|run_block].
  cbn [exec_list exec_stmt]. run_block.
  rewrite outcome_bind, outcome_enable_chat_completions.
  destruct (exec_list stmts_chat_completions _); [|done]. run_block.
Qed.

Lemma outcome_configure_wecom (cr : credentials) (c : value) :
  outcome (configure_wecom cr c) = exec_list (stmts_wecom cr) c.
Proof.
  unfold configure_wecom, stmts_wecom.
  destruct (nonempty (wecom_token cr) && nonempty (wecom_encoding_aes_key cr));
    [|run_block].
  cbn [exec_list exec_stmt app]. rewrite outcome_bind_log.
  assert (Hwarn : ∀ (B : Type) (b : bool) (msg : string) (f : unit → M B),
            outcome ((if b then log msg else mret tt) ≫= f) = outcome (f tt)).
  { intros B b msg f. rewrite outcome_bind. by destruct b. }
  rewrite Hwarn. run_block.
  rewrite outcome_bind, outcome_enable_chat_completions.
  change (exec_list stmts_chat_completions ?x ≫= ?f)
    with (exec_list stmts_chat_completions x ≫= f).
  match goal with
  | |- _ = ?r => change r with (exec_list stmts_chat_completions a4)
  end.
  destruct (exec_list stmts_chat_completions _); [|done]. run_block.
Qed.

Lemma outcome_touch_meta (now : string) (c : value) :
  outcome (touch_meta now c) = exec_list (stmts_meta now) c.
Proof.
  unfold touch_meta, stmts_meta. cbn [exec_list exec_stmt]. run_block.
  by destruct (assign _ _ _ _).
Qed.

Lemma outcome_log_final_config (cr : credentials) :
  outcome (log_final_config cr) = Ok tt.
Proof. unfold log_final_config. by rewrite !outcome_bind_log. Qed.

Lemma outcome_load_config (w : world) : outcome (load_config w) = Ok (prior_config w).
Proof. unfold load_config, prior_config. by destruct (config_file w). Qed.

Lemma outcome_configure (w : world) : outcome (configure w) = configure_result w.
Proof.
  unfold configure, configure_result, credentials_of.
  rewrite !outcome_bind_log.
  rewrite outcome_bind.
  assert (outcome (if bool_decide (load_env_file (env_file w) ≠ ∅)
                   then log ("Found .env file, loaded "
                             +:+ pretty (size (load_env_file (env_file w))) +:+ " vars")
                   else log "No .env file found, using environment variables only")
          = Ok tt) as -> by (by destruct (bool_decide _)).
  rewrite outcome_bind, outcome_log_final_config.
  rewrite outcome_bind, outcome_load_config.
  rewrite !outcome_bind_log.
  rewrite outcome_bind, outcome_set_gateway_token.
  destruct (exec_list (stmts_gateway_token _) _) as [c1|]; [|done].
  rewrite result_bind_Ok, outcome_bind, outcome_configure_ark.
  destruct (ark_result _ _ _ _) as [c2|]; [|done].
  rewrite result_bind_Ok, outcome_bind, outcome_ensure_channels.
  destruct (exec_list stmts_channels _) as [c3|]; [|done].
  rewrite result_bind_Ok, outcome_bind, outcome_configure_feishu_app_id.
  destruct (exec_list (stmts_feishu_app_id _) _) as [c4|]; [|done].
  rewrite result_bind_Ok, outcome_bind, outcome_configure_feishu_app_secret.
  destruct (exec_list (stmts_feishu_app_secret _) _) as [c5|]; [|done].
  rewrite result_bind_Ok, outcome_bind, outcome_configure_telegram.
  destruct (exec_list (stmts_telegram _) _) as [c6|]; [|done].
  rewrite result_bind_Ok, outcome_bind, outcome_configure_dingtalk.
  destruct (dingtalk_result _ _) as [c7|]; [|done].
  rewrite result_bind_Ok, outcome_bind, outcome_configure_wecom.
  destruct (exec_list (stmts_wecom _) _) as [c8|]; [|done].
  rewrite result_bind_Ok. apply outcome_touch_meta.
Qed.

Lemma exec_keeps (P : option value → bool) (sts : list stmt) (c c' : value)
    (q : list string) :
  P = none_or_dict ∨ P = is_some_b →
  exec_list sts c = Ok c' → forallb (keeps_dict q) sts = true →
  P (lookup_path q c) = true → P (lookup_path q c') = true.
Proof.
  intros HP. revert c. induction sts as [|st sts IH]; intros c; simpl.
  - by intros [= ->].
  - intros (c1 & H1 & H)%result_bind_Ok_inv [Hst Hsts]%andb_prop Hq.
    apply (IH _ H Hsts). destruct st as [p key|p key v]; simpl in H1, Hst.
    + destruct HP as [-> | ->].
      * by apply (ensure_none_or_dict p key c).
      * by apply (ensure_is_some p key c).
    + destruct (strip_prefix (p ++ [key]) q) eqn:Hs; [done|].
      destruct HP as [-> | ->].
      * apply (assign_none_or_dict p key v c); [done..|by rewrite Hs].
      * apply (assign_is_some p key v c); [done..|by rewrite Hs].
Qed.

(** *** The blocks that read before they write *)

Lemma ark_config_nonempty (url key id iid : string) :
  size (ark_config url key id iid) ≠ 0.
Proof.
  intros Hsz%map_size_empty_inv.
  assert (Hl : (∅ : dict) !! "mode" = Some (VStr "merge")).
  { rewrite <-Hsz. unfold ark_config. by rewrite lookup_insert_eq. }
  by rewrite lookup_empty in Hl.
Qed.

Lemma call_deep_merge_inv (base : value) (update : dict) (merged : value) :
  size update ≠ 0 → call_deep_merge base update = Ok merged →
  ∃ b, base = VDict b ∧ merged = VDict (deep_merge b update).
Proof.
  intros Hsz. destruct base as [| | | | |items|b]; simpl; try discriminate.
  - by destruct (decide _).
  - intros [= <-]. eauto.
Qed.

Lemma ark_result_inv (site iid : string) (cr : credentials) (c c' : value) :
  ark_result site iid cr c = Ok c' →
  (nonempty (ark_api_key cr) && nonempty (ark_model_id cr) = false ∧ c' = c) ∨
  (nonempty (ark_api_key cr) && nonempty (ark_model_id cr) = true ∧
   ∃ (d : dict) (base : dict),
     c = VDict d ∧ default (VDict ∅) (d !! "models") = VDict base ∧
     exec_list
       (stmts_ark
          (VDict (deep_merge base
                    (ark_config (get_ark_url site (ark_coding_plan cr)) (ark_api_key cr)
                                (ark_model_id cr) iid)))
          (ark_model_id cr)) c = Ok c').
Proof.
  unfold ark_result.
  destruct (nonempty (ark_api_key cr) && nonempty (ark_model_id cr)).
  - intros (models & Hget & H)%result_bind_Ok_inv.
    apply result_bind_Ok_inv in H as (merged & Hm & H). right. split; [done|].
    apply call_deep_merge_inv in Hm as (base & -> & ->);
      [|apply ark_config_nonempty].
    destruct c as [| | | | | |d]; try discriminate Hget.
    unfold py_get in Hget. injection Hget as Hget. eauto.
  - intros [= <-]. by left.
Qed.

Lemma ark_frame (site iid : string) (cr : credentials) (c c' : value) (q : list string) :
  ark_result site iid cr c = Ok c' →
  (∀ merged id, forallb (unaffected q) (stmts_ark merged id) = true) →
  lookup_path q c' = lookup_path q c.
Proof.
  intros [[_ ->]|(_ & d & base & _ & _ & H)]%ark_result_inv Hq; [done|].
  by apply (exec_frame _ _ _ _ H).
Qed.

Lemma ark_keeps (P : option value → bool) (site iid : string) (cr : credentials)
    (c c' : value) (q : list string) :
  P = none_or_dict ∨ P = is_some_b →
  ark_result site iid cr c = Ok c' →
  (∀ merged id, forallb (keeps_dict q) (stmts_ark merged id) = true) →
  P (lookup_path q c) = true → P (lookup_path q c') = true.
Proof.
  intros HP [[_ ->]|(_ & d & base & _ & _ & H)]%ark_result_inv Hq; [done|].
  by apply (exec_keeps P _ _ _ _ HP H).
Qed.

Lemma dingtalk_result_inv (cr : credentials) (c c' : value) :
  dingtalk_result cr c = Ok c' →
  (nonempty (dingtalk_client_id cr) && nonempty (dingtalk_client_secret cr) = false
   ∧ c' = c) ∨
  (nonempty (dingtalk_client_id cr) && nonempty (dingtalk_client_secret cr) = true ∧
   ∃ tok, lookup_path ["gateway"; "auth"; "token"] c = Some tok ∧
          exec_list (stmts_dingtalk cr tok) c = Ok c').
Proof.
  unfold dingtalk_result.
  destruct (nonempty (dingtalk_client_id cr) && nonempty (dingtalk_client_secret cr)).
  - intros (tok & Hget & H)%result_bind_Ok_inv. right. split; [done|].
    exists tok. split; [|done]. by apply getpath_lookup.
  - intros [= <-]. by left.
Qed.

Lemma dingtalk_frame (cr : credentials) (c c' : value) (q : list string) :
  dingtalk_result cr c = Ok c' →
  (∀ tok, forallb (unaffected q) (stmts_dingtalk cr tok) = true) →
  lookup_path q c' = lookup_path q c.
Proof.
  intros [[_ ->]|(_ & tok & _ & H)]%dingtalk_result_inv Hq; [done|].
  by apply (exec_frame _ _ _ _ H).
Qed.

Lemma dingtalk_keeps (P : option value → bool) (cr : credentials) (c c' : value)
    (q : list string) :
  P = none_or_dict ∨ P = is_some_b →
  dingtalk_result cr c = Ok c' →
  (∀ tok, forallb (keeps_dict q) (stmts_dingtalk cr tok) = true) →
  P (lookup_path q c) = true → P (lookup_path q c') = true.
Proof.
  intros HP [[_ ->]|(_ & tok & _ & H)]%dingtalk_result_inv Hq; [done|].
  by apply (exec_keeps P _ _ _ _ HP H).
Qed.

Lemma configure_inv (w : world) (out : value) :
  outcome (configure w) = Ok out → run_of w out.
Proof.
  rewrite outcome_configure. unfold configure_result.
  intros (c1 & H1 & H)%result_bind_Ok_inv.
  apply result_bind_Ok_inv in H as (c2 & H2 & H).
  apply result_bind_Ok_inv in H as (c3 & H3 & H).
  apply result_bind_Ok_inv in H as (c4 & H4 & H).
  apply result_bind_Ok_inv in H as (c5 & H5 & H).
  apply result_bind_Ok_inv in H as (c6 & H6 & H).
  apply result_bind_Ok_inv in H as (c7 & H7 & H).
  apply result_bind_Ok_inv in H as (c8 & H8 & H).
  by econstructor.
Qed.

(** *** Runs on well-shaped documents complete *)

Lemma exec_total_weaken (sts : list stmt) (present present' : list (list string))
    (c : value) :
  Inv present c → admissible present sts = true →
  forallb (λ q, mem_path q (present_after present sts)) present' = true →
  ∃ c', exec_list sts c = Ok c' ∧ Inv present' c'.
Proof.
  intros HInv Hadm Hsub.
  destruct (exec_total sts present c HInv Hadm) as (c' & Hc' & HInv').
  exists c'. split; [done|]. by eapply Inv_weaken.
Qed.

Lemma ark_total (site iid : string) (cr : credentials) (c : value) :
  Inv present_token c →
  ∃ c', ark_result site iid cr c = Ok c' ∧ Inv present_token c'.
Proof.
  intros HInv. unfold ark_result.
  destruct (nonempty (ark_api_key cr) && nonempty (ark_model_id cr)); [|eauto].
  destruct (Inv_dict _ _ [] HInv) as [d Hd]; [done..|].
  injection Hd as ->. unfold py_get. rewrite result_bind_Ok.
  assert (∃ base, default (VDict ∅) (d !! "models") = VDict base) as [base ->].
  { destruct HInv as [Hshape _]. unfold well_shaped in Hshape.
    rewrite forallb_forall in Hshape.
    specialize (Hshape ["models"]). simpl in Hshape.
    destruct (d !! "models") as [[]|]; simpl in *; eauto;
      discriminate Hshape; tauto. }
  unfold call_deep_merge. rewrite result_bind_Ok.
  by apply (exec_total_weaken _ present_token).
Qed.

Lemma dingtalk_total (cr : credentials) (c : value) :
  Inv present_channels c →
  ∃ c', dingtalk_result cr c = Ok c' ∧ Inv present_channels c'.
Proof.
  intros HInv. unfold dingtalk_result.
  destruct (nonempty (dingtalk_client_id cr) && nonempty (dingtalk_client_secret cr));
    [|eauto].
  assert (∃ tok, lookup_path ["gateway"; "auth"; "token"] c = Some tok) as [tok Htok].
  { destruct HInv as [_ Hpres]. rewrite forallb_forall in Hpres.
    specialize (Hpres ["gateway"; "auth"; "token"]).
    destruct (lookup_path _ c); [eauto|].
    discriminate Hpres. simpl. tauto. }
  apply getpath_lookup in Htok. rewrite Htok, result_bind_Ok.
  by apply (exec_total_weaken _ present_channels).
Qed.

Lemma configure_result_total (w : world) :
  well_shaped (prior_config w) = true →
  ∃ out, configure_result w = Ok out ∧ well_shaped out = true.
Proof.
  intros Hshape. assert (HInv : Inv [] (prior_config w)) by done.
  unfold configure_result.
  destruct (exec_total_weaken (stmts_gateway_token (fresh_token w)) [] present_token
              _ HInv) as (c1 & -> & HInv1); [done..|].
  rewrite result_bind_Ok.
  destruct (ark_total (detect_site w) (get_instance_id w) (credentials_of w) c1 HInv1)
    as (c2 & -> & HInv2).
  rewrite result_bind_Ok.
  destruct (exec_total_weaken stmts_channels present_token present_channels
              _ HInv2) as (c3 & -> & HInv3); [done..|].
  rewrite result_bind_Ok.
  destruct (exec_total_weaken (stmts_feishu_app_id (credentials_of w)) present_channels
              present_channels _ HInv3) as (c4 & -> & HInv4);
    [unfold stmts_feishu_app_id; by destruct (nonempty _)..|].
  rewrite result_bind_Ok.
  destruct (exec_total_weaken (stmts_feishu_app_secret (credentials_of w))
              present_channels present_channels _ HInv4) as (c5 & -> & HInv5);
    [unfold stmts_feishu_app_secret; by destruct (nonempty _)..|].
  rewrite result_bind_Ok.
  destruct (exec_total_weaken (stmts_telegram (credentials_of w))
              present_channels present_channels _ HInv5) as (c6 & -> & HInv6);
    [unfold stmts_telegram; by destruct (nonempty _)..|].
  rewrite result_bind_Ok.
  destruct (dingtalk_total (credentials_of w) c6 HInv6) as (c7 & -> & HInv7).
  rewrite result_bind_Ok.
  destruct (exec_total_weaken (stmts_wecom (credentials_of w))
              present_channels present_channels _ HInv7) as (c8 & -> & HInv8);
    [unfold stmts_wecom; by destruct (nonempty _ && nonempty _)..|].
  rewrite result_bind_Ok.
  destruct (exec_total_weaken (stmts_meta (strftime_iso (utcnow w)))
              present_channels present_channels _ HInv8) as (out & -> & HInv9);
    [done..|].
  exists out. split; [done|]. by destruct HInv9.
Qed.

Lemma configure_completes (w : world) :
  well_shaped (prior_config w) = true → ∃ out, outcome (configure w) = Ok out.
Proof.
  intros (out & Hout & _)%configure_result_total. exists out.
  by rewrite outcome_configure.
Qed.

(** *** The token *)

Lemma hexlify_cons (b : byte) (bs : list byte) :
  hexlify (b :: bs) =
  String (hex_digit (Byte.to_N b / 16))
         (String (hex_digit (Byte.to_N b `mod` 16)) (hexlify bs)).
Proof. reflexivity. Qed.

Lemma unhexlify_hexlify (bs : list byte) : unhexlify (hexlify bs) = bs.
Proof.
  induction bs as [|b bs IH]; [done|]. rewrite hexlify_cons.
  cbn [unhexlify]. rewrite IH. f_equal. by destruct b.
Qed.

Lemma hexlify_inj (bs bs' : list byte) : hexlify bs = hexlify bs' → bs = bs'.
Proof.
  intros H. by rewrite <-(unhexlify_hexlify bs), H, unhexlify_hexlify.
Qed.

Lemma hexlify_length (bs : list byte) : String.length (hexlify bs) = 2 * length bs.
Proof.
  induction bs as [|b bs IH]; [done|]. rewrite hexlify_cons. simpl. rewrite IH. lia.
Qed.

Lemma hexlify_hex (bs : list byte) : all_chars is_hex_digit (hexlify bs) = true.
Proof.
  induction bs as [|b bs IH]; [done|]. rewrite hexlify_cons.
  cbn [all_chars]. rewrite IH. by destruct b.
Qed.

Lemma token_bytes_length (w : world) (n : nat) : length (token_bytes w n) = n.
Proof. unfold token_bytes. by rewrite length_map, length_seq. Qed.

Lemma fresh_token_spec (w : world) :
  fresh_token w = hexlify (token_bytes w 24) ∧
  length (token_bytes w 24) = 24 ∧
  String.length (fresh_token w) = 48 ∧
  all_chars is_hex_digit (fresh_token w) = true.
Proof.
  unfold fresh_token, token_hex. split; [done|]. split; [apply token_bytes_length|].
  split; [|apply hexlify_hex]. by rewrite hexlify_length, token_bytes_length.
Qed.

(** *** What a completed run leaves at an item *)

(** A statement sequence that assigns [v] and then leaves it alone. *)
Lemma exec_assigned (before after : list stmt) (p : list string) (key : string)
    (v c c' : value) (r : list string) :
  exec_list (before ++ SAssign p key v :: after) c = Ok c' →
  forallb (unaffected (p ++ key :: r)) after = true →
  lookup_path (p ++ key :: r) c' = lookup_path r v.
Proof.
  revert c. induction before as [|st before IH]; intros c; simpl.
  - intros (c1 & H1 & H)%result_bind_Ok_inv Hafter.
    rewrite (exec_frame _ _ _ _ H Hafter). by apply (assign_hit p key v c).
  - intros (c1 & H1 & H)%result_bind_Ok_inv Hafter. by apply (IH c1).
Qed.

Ltac solve_unaffected :=
  intros;
  unfold stmts_feishu_app_id, stmts_feishu_app_secret, stmts_telegram, stmts_wecom;
  repeat match goal with
         | |- context [if ?b then _ else _] => destruct b
         end;
  reflexivity.

(** Read the goal's item one block earlier. *)
Ltac frame_block H :=
  first [ rewrite (exec_frame _ _ _ _ H) by solve_unaffected
        | rewrite (ark_frame _ _ _ _ _ _ H) by solve_unaffected
        | rewrite (dingtalk_frame _ _ _ _ H) by solve_unaffected ].

Lemma token_after_run (w : world) (out : value) :
  outcome (configure w) = Ok out →
  lookup_path ["gateway"; "auth"; "token"] out = Some (VStr (fresh_token w)).
Proof.
  intros [c1 c2 c3 c4 c5 c6 c7 c8 H1 H2 H3 H4 H5 H6 H7 H8 H9]%configure_inv.
  frame_block H9. frame_block H8. frame_block H7. frame_block H6.
  frame_block H5. frame_block H4. frame_block H3. frame_block H2.
  by apply (exec_assigned [SEnsure [] "gateway"; SEnsure ["gateway"] "auth"] []
              ["gateway"; "auth"] "token" _ _ _ [] H1).
Qed.

(** ** C1: the gateway token *)

(** C1 (as amended). Every run of the configuration step that completes
    leaves at [gateway.auth.token] the token generated in that run, whatever
    the credentials and whatever token the loaded document held; the token is
    the hexadecimal rendering of 24 bytes of the random source, 48 characters
    from which the bytes can be read back; and the step completes on every
    well-shaped document. *)
Theorem gateway_token_overwritten (w : world) :
  (well_shaped (prior_config w) = true → ∃ out, outcome (configure w) = Ok out) ∧
  (∀ out, outcome (configure w) = Ok out →
     lookup_path ["gateway"; "auth"; "token"] out = Some (VStr (fresh_token w))) ∧
  fresh_token w = hexlify (token_bytes w 24) ∧
  length (token_bytes w 24) = 24 ∧
  unhexlify (fresh_token w) = token_bytes w 24 ∧
  String.length (fresh_token w) = 48 ∧
  all_chars is_hex_digit (fresh_token w) = true.
Proof.
  destruct (fresh_token_spec w) as (Htok & Hlen & Hlen' & Hhex).
  split; [apply configure_completes|]. split; [apply token_after_run|].
  repeat split; try done. rewrite Htok. apply unhexlify_hexlify.
Qed.

Lemma gateway_token_overwritten_witness :
  (∃ out, outcome (configure busy_world) = Ok out) ∧
  lookup_path ["gateway"; "auth"; "token"] old_document = Some (VStr "old-token") ∧
  ∃ out, outcome (configure busy_world) = Ok out ∧
         lookup_path ["gateway"; "auth"; "token"] out
         = Some (VStr "030a11181f262d343b424950575e656c737a81888f969da4").
Proof.
  destruct (gateway_token_overwritten busy_world) as (Htotal & Hfresh & _).
  assert (Hshape : well_shaped (prior_config busy_world) = true)
    by (vm_compute; reflexivity).
  split; [by apply Htotal|]. split; [vm_compute; reflexivity|].
  destruct (Htotal Hshape) as [out Hout]. exists out. split; [done|].
  rewrite (Hfresh out Hout). vm_compute. reflexivity.
Defined.

(** The claim as stated fails: a loaded document whose [gateway] entry is not
    an object makes the step raise [TypeError] at line 146, and no document
    is produced. *)
Lemma gateway_token_counterexample :
  outcome (configure world_gateway_number) = Raise TypeError ∧
  ¬ ∃ out, outcome (configure world_gateway_number) = Ok out ∧
           lookup_path ["gateway"; "auth"; "token"] out
           = Some (VStr (fresh_token world_gateway_number)).
Proof.
  assert (H : outcome (configure world_gateway_number) = Raise TypeError)
    by (vm_compute; reflexivity).
  split; [done|]. intros (out & Hout & _). rewrite H in Hout. discriminate Hout.
Qed.

(** ** C2: the first run without credentials *)

(** C2 (as amended). Starting with no configuration file and no credential
    resolved, the step produces exactly the document with
    [gateway.auth.token] (a string of 48 hexadecimal characters), an empty
    [channels] object and [meta.lastTouchedAt]: its top-level keys are
    [gateway], [channels] and [meta]. *)
Theorem fresh_run_document (w : world) :
  config_file w = None → no_credentials (credentials_of w) = true →
  outcome (configure w)
  = Ok (fresh_document (fresh_token w) (strftime_iso (utcnow w))) ∧
  String.length (fresh_token w) = 48 ∧
  all_chars is_hex_digit (fresh_token w) = true ∧
  top_keys (fresh_document (fresh_token w) (strftime_iso (utcnow w)))
  = {[ "gateway"; "channels"; "meta" ]}.
Proof.
  intros Hfile Hcr. destruct (fresh_token_spec w) as (_ & _ & Hlen & Hhex).
  split; [|split; [done|split; [done|]]].
  - unfold no_credentials in Hcr.
    repeat match goal with
           | H : _ && _ = true |- _ => apply andb_prop in H as [? ?]
           | H : negb _ = true |- _ => apply negb_true_iff in H
           end.
    rewrite outcome_configure.
    unfold configure_result, ark_result, dingtalk_result, stmts_feishu_app_id,
      stmts_feishu_app_secret, stmts_telegram, stmts_wecom, prior_config.
    rewrite Hfile.
    repeat match goal with H : nonempty _ = false |- _ => rewrite H; clear H end.
    cbn [andb]. generalize (fresh_token w) (strftime_iso (utcnow w)).
    intros tok now. vm_compute. reflexivity.
  - unfold fresh_document, top_keys.
    rewrite !dom_insert_L, dom_singleton_L. set_solver.
Qed.

Lemma quiet_world_document :
  outcome (configure quiet_world)
  = Ok (fresh_document "030a11181f262d343b424950575e656c737a81888f969da4"
                       "2026-02-03T04:05:06.000Z").
Proof. vm_compute. reflexivity. Qed.

Lemma fresh_run_document_witness :
  outcome (configure quiet_world)
  = Ok (fresh_document "030a11181f262d343b424950575e656c737a81888f969da4"
                       "2026-02-03T04:05:06.000Z").
Proof.
  destruct (fresh_run_document quiet_world) as [H _];
    [reflexivity|vm_compute; reflexivity|].
  rewrite H. vm_compute. reflexivity.
Defined.

(** The claim as stated fails on the first run without credentials: the
    document also has the top-level key [channels], and the token has 48
    characters, not 64. *)
Lemma fresh_run_counterexample :
  config_file quiet_world = None ∧ no_credentials (credentials_of quiet_world) = true ∧
  ¬ ∃ out tok,
      outcome (configure quiet_world) = Ok out ∧
      top_keys out ⊆ {[ "gateway"; "meta" ]} ∧
      lookup_path ["gateway"; "auth"; "token"] out = Some (VStr tok) ∧
      String.length tok = 64.
Proof.
  split; [done|]. split; [vm_compute; reflexivity|].
  intros (out & tok & Hout & Hkeys & _).
  rewrite quiet_world_document in Hout. injection Hout as <-.
  unfold fresh_document, top_keys in Hkeys.
  rewrite !dom_insert_L, dom_singleton_L in Hkeys.
  specialize (Hkeys "channels"). set_solver.
Qed.

(** ** C9: the channels key *)

(** Carry [P] of the goal's item one block back. *)
Ltac keep_block HP H :=
  first [ apply (exec_keeps _ _ _ _ _ HP H); [solve_unaffected|]
        | apply (ark_keeps _ _ _ _ _ _ _ HP H); [solve_unaffected|]
        | apply (dingtalk_keeps _ _ _ _ _ HP H); [solve_unaffected|] ].

Lemma kept_none_or_dict : none_or_dict = none_or_dict ∨ none_or_dict = is_some_b.
Proof. by left. Qed.

Lemma kept_is_some : @is_some_b value = none_or_dict ∨ @is_some_b value = is_some_b.
Proof. by right. Qed.

Lemma root_dict_after_token (tok : string) (c c1 : value) :
  exec_list (stmts_gateway_token tok) c = Ok c1 → ∃ d, c1 = VDict d.
Proof.
  unfold stmts_gateway_token. cbn [exec_list exec_stmt].
  intros (a & _ & H)%result_bind_Ok_inv.
  apply result_bind_Ok_inv in H as (b & _ & H).
  apply result_bind_Ok_inv in H as (c' & H & [= ->]).
  destruct (assign_above _ _ _ _ _ [] _ H eq_refl) as (_ & d' & _ & [= ->]).
  eauto.
Qed.

Lemma channels_after_run (P : option value → bool) (w : world) (out : value) :
  P = none_or_dict ∨ P = is_some_b →
  outcome (configure w) = Ok out →
  P (lookup_path ["channels"] (prior_config w)) = true ∨ P = is_some_b →
  P (lookup_path ["channels"] out) = true.
Proof.
  intros HP [c1 c2 c3 c4 c5 c6 c7 c8 H1 H2 H3 H4 H5 H6 H7 H8 H9]%configure_inv Hprior.
  keep_block HP H9. keep_block HP H8. keep_block HP H7. keep_block HP H6.
  keep_block HP H5. keep_block HP H4.
  destruct (root_dict_after_token _ _ _ H1) as [d1 ->].
  assert (∃ d2, c2 = VDict d2) as [d2 ->].
  { assert (Hd : ∃ d, lookup_path [] c2 = Some (VDict d)).
    { apply dict_iff. split.
      - keep_block kept_none_or_dict H2. done.
      - keep_block kept_is_some H2. done. }
    destruct Hd as [d [= ->]]. eauto. }
  unfold stmts_channels in H3. cbn [exec_list exec_stmt] in H3.
  apply result_bind_Ok_inv in H3 as (c3' & H3 & [= ->]).
  destruct HP as [-> | ->].
  - apply (ensure_none_or_dict [] "channels" _ _ _ H3).
    rewrite (ark_frame _ _ _ _ _ ["channels"] H2) by solve_unaffected.
    rewrite (exec_frame _ _ _ ["channels"] H1) by solve_unaffected.
    destruct Hprior as [Hprior|Heq]; [done|].
    by apply (f_equal (λ f, f None)) in Heq.
  - by apply (ensure_present [] "channels" _ _ d2 H3).
Qed.

(** C9 (as amended). The output document of every run that completes has a
    top-level [channels] key, whatever the credentials; it is bound to an
    object whenever the loaded document had no [channels] entry or had an
    object there (created empty at line 200 when absent); the step completes
    on every well-shaped document. *)
Theorem channels_key_present (w : world) :
  (well_shaped (prior_config w) = true → ∃ out, outcome (configure w) = Ok out) ∧
  (∀ out, outcome (configure w) = Ok out →
     ∃ v, lookup_path ["channels"] out = Some v ∧
          (none_or_dict (lookup_path ["channels"] (prior_config w)) = true →
           is_dict v = true)).
Proof.
  split; [apply configure_completes|]. intros out Hout.
  pose proof (channels_after_run is_some_b w out kept_is_some Hout
                (or_intror eq_refl)) as Hsome.
  destruct (lookup_path ["channels"] out) as [v|] eqn:Hv;
    [|by discriminate Hsome]. exists v. split; [done|]. intros Hprior.
  pose proof (channels_after_run none_or_dict w out kept_none_or_dict Hout
                (or_introl Hprior)) as Hdict.
  by rewrite Hv in Hdict.
Qed.

Lemma channels_key_present_witness :
  ∃ out v, outcome (configure quiet_world) = Ok out ∧
           lookup_path ["channels"] out = Some v ∧ is_dict v = true.
Proof.
  destruct (channels_key_present quiet_world) as [Htotal Hkey].
  destruct Htotal as [out Hout]; [vm_compute; reflexivity|].
  destruct (Hkey out Hout) as (v & Hv & Hdict). exists out, v.
  split; [done|]. split; [done|]. apply Hdict. vm_compute. reflexivity.
Defined.

(** The claim as stated fails: a [channels] entry that is not an object is
    left as it is when no channel credential is resolved. *)
Lemma channels_key_counterexample :
  (∃ out, outcome (configure world_channels_number) = Ok out ∧
          lookup_path ["channels"] out = Some (VInt 5)) ∧
  ¬ ∃ out d, outcome (configure world_channels_number) = Ok out ∧
             lookup_path ["channels"] out = Some (VDict d).
Proof.
  assert (H : ∃ out, outcome (configure world_channels_number) = Ok out ∧
                     lookup_path ["channels"] out = Some (VInt 5)).
  { eexists. split; [vm_compute; reflexivity|]. vm_compute. reflexivity. }
  split; [done|]. destruct H as (out & Hout & Hv).
  intros (out' & d & Hout' & Hd). rewrite Hout in Hout'. injection Hout' as <-.
  rewrite Hv in Hd. discriminate Hd.
Qed.

(** ** C10: channel blocks are replaced, feishu fields are written one by one *)

Ltac solve_unaffected_using Hcond :=
  intros;
  unfold stmts_feishu_app_id, stmts_feishu_app_secret, stmts_telegram, stmts_wecom;
  rewrite ?Hcond;
  repeat match goal with
         | |- context [if ?b then _ else _] => destruct b
         end;
  reflexivity.

Ltac frame_block_using Hcond H :=
  first [ rewrite (exec_frame _ _ _ _ H) by solve_unaffected_using Hcond
        | rewrite (ark_frame _ _ _ _ _ _ H) by solve_unaffected_using Hcond
        | rewrite (dingtalk_frame _ _ _ _ H) by solve_unaffected_using Hcond ].

(** The same for an item [channels.feishu.k] with [k] neither field. *)
Ltac solve_unaffected_field :=
  intros;
  unfold stmts_feishu_app_id, stmts_feishu_app_secret, stmts_telegram, stmts_wecom;
  repeat match goal with
         | |- context [if ?b then _ else _] => destruct b
         end;
  cbn;
  match goal with
  | k : string |- _ =>
      rewrite ?(bool_decide_false ("appId" = k)),
              ?(bool_decide_false ("appSecret" = k)) by congruence
  end;
  reflexivity.

Ltac frame_block_field H :=
  first [ rewrite (exec_frame _ _ _ _ H) by solve_unaffected_field
        | rewrite (ark_frame _ _ _ _ _ _ H) by solve_unaffected_field
        | rewrite (dingtalk_frame _ _ _ _ H) by solve_unaffected_field ].

Lemma telegram_after_run (w : world) (out : value) :
  outcome (configure w) = Ok out →
  nonempty (telegram_bot_token (credentials_of w)) = true →
  lookup_path ["channels"; "telegram"] out
  = Some (VDict (telegram_block (telegram_bot_token (credentials_of w)))).
Proof.
  intros [c1 c2 c3 c4 c5 c6 c7 c8 H1 H2 H3 H4 H5 H6 H7 H8 H9]%configure_inv Hcond.
  frame_block H9. frame_block H8. frame_block H7.
  unfold stmts_telegram in H6. rewrite Hcond in H6.
  by apply (exec_assigned [] _ ["channels"] "telegram" _ _ _ [] H6).
Qed.

Lemma dingtalk_after_run (w : world) (out : value) :
  outcome (configure w) = Ok out →
  nonempty (dingtalk_client_id (credentials_of w))
  && nonempty (dingtalk_client_secret (credentials_of w)) = true →
  lookup_path ["channels"; "dingtalk-connector"] out
  = Some (VDict (dingtalk_block (dingtalk_client_id (credentials_of w))
                   (dingtalk_client_secret (credentials_of w))
                   (VStr (fresh_token w)))).
Proof.
  intros [c1 c2 c3 c4 c5 c6 c7 c8 H1 H2 H3 H4 H5 H6 H7 H8 H9]%configure_inv Hcond.
  frame_block H9. frame_block H8.
  apply dingtalk_result_inv in H7 as [[Hno _]|(_ & tok & Htok & H7)];
    [by rewrite Hcond in Hno|].
  assert (tok = VStr (fresh_token w)) as ->.
  { revert Htok. frame_block H6. frame_block H5. frame_block H4. frame_block H3.
    frame_block H2.
    pose proof (exec_assigned [SEnsure [] "gateway"; SEnsure ["gateway"] "auth"] []
                  ["gateway"; "auth"] "token" _ _ _ [] H1 eq_refl) as Hc1.
    cbn [app] in Hc1. rewrite Hc1. cbn [lookup_path]. congruence. }
  by apply (exec_assigned [] _ ["channels"] "dingtalk-connector" _ _ _ [] H7).
Qed.

Lemma wecom_after_run (w : world) (out : value) :
  outcome (configure w) = Ok out →
  nonempty (wecom_token (credentials_of w))
  && nonempty (wecom_encoding_aes_key (credentials_of w)) = true →
  lookup_path ["channels"; "wecom"] out
  = Some (VDict (wecom_block (wecom_token (credentials_of w))
                   (wecom_encoding_aes_key (credentials_of w)))).
Proof.
  intros [c1 c2 c3 c4 c5 c6 c7 c8 H1 H2 H3 H4 H5 H6 H7 H8 H9]%configure_inv Hcond.
  frame_block H9. unfold stmts_wecom in H8. rewrite Hcond in H8.
  by apply (exec_assigned [] _ ["channels"] "wecom" _ _ _ [] H8).
Qed.

Lemma feishu_fields_after_run (w : world) (out : value) :
  outcome (configure w) = Ok out →
  let cr := credentials_of w in
  lookup_path ["channels"; "feishu"; "appId"] out
  = (if nonempty (feishu_app_id cr) then Some (VStr (feishu_app_id cr))
     else lookup_path ["channels"; "feishu"; "appId"] (prior_config w)) ∧
  lookup_path ["channels"; "feishu"; "appSecret"] out
  = (if nonempty (feishu_app_secret cr) then Some (VStr (feishu_app_secret cr))
     else lookup_path ["channels"; "feishu"; "appSecret"] (prior_config w)) ∧
  ∀ k, k ≠ "appId" → k ≠ "appSecret" →
       lookup_path ["channels"; "feishu"; k] out
       = lookup_path ["channels"; "feishu"; k] (prior_config w).
Proof.
  intros [c1 c2 c3 c4 c5 c6 c7 c8 H1 H2 H3 H4 H5 H6 H7 H8 H9]%configure_inv cr.
  split; [|split].
  - frame_block H9. frame_block H8. frame_block H7. frame_block H6. frame_block H5.
    destruct (nonempty (feishu_app_id cr)) eqn:Hcond.
    + unfold stmts_feishu_app_id in H4. fold cr in H4. rewrite Hcond in H4.
      by apply (exec_assigned [SEnsure ["channels"] "feishu"] []
                  ["channels"; "feishu"] "appId" _ _ _ [] H4).
    + fold cr in H4. frame_block_using Hcond H4.
      frame_block H3. frame_block H2. by frame_block H1.
  - frame_block H9. frame_block H8. frame_block H7. frame_block H6.
    destruct (nonempty (feishu_app_secret cr)) eqn:Hcond.
    + unfold stmts_feishu_app_secret in H5. fold cr in H5. rewrite Hcond in H5.
      by apply (exec_assigned [SEnsure ["channels"] "feishu"] []
                  ["channels"; "feishu"] "appSecret" _ _ _ [] H5).
    + fold cr in H5. frame_block_using Hcond H5. frame_block H4.
      frame_block H3. frame_block H2. by frame_block H1.
  - intros k Hid Hsecret.
    frame_block_field H9. frame_block_field H8. frame_block_field H7.
    frame_block_field H6. frame_block_field H5. frame_block_field H4.
    frame_block_field H3. frame_block_field H2. by frame_block_field H1.
Qed.

(** C10. In the output of a run, [channels.telegram],
    [channels.dingtalk-connector] and [channels.wecom] are, when their
    credentials are resolved, exactly the new mappings of lines 222, 241 and
    265: nothing of a block the loaded document had under the same key is
    kept.  The feishu credentials are stored field by field: [appId] and
    [appSecret] are written when resolved and left as loaded otherwise, and
    every other field of [channels.feishu] reads as in the loaded
    document. *)
Theorem channel_blocks_replaced_feishu_fields_kept (w : world) :
  (well_shaped (prior_config w) = true → ∃ out, outcome (configure w) = Ok out) ∧
  ∀ out, outcome (configure w) = Ok out →
    let cr := credentials_of w in
    (nonempty (telegram_bot_token cr) = true →
       lookup_path ["channels"; "telegram"] out
       = Some (VDict (telegram_block (telegram_bot_token cr)))) ∧
    (nonempty (dingtalk_client_id cr) && nonempty (dingtalk_client_secret cr) = true →
       lookup_path ["channels"; "dingtalk-connector"] out
       = Some (VDict (dingtalk_block (dingtalk_client_id cr)
                        (dingtalk_client_secret cr) (VStr (fresh_token w))))) ∧
    (nonempty (wecom_token cr) && nonempty (wecom_encoding_aes_key cr) = true →
       lookup_path ["channels"; "wecom"] out
       = Some (VDict (wecom_block (wecom_token cr) (wecom_encoding_aes_key cr)))) ∧
    lookup_path ["channels"; "feishu"; "appId"] out
    = (if nonempty (feishu_app_id cr) then Some (VStr (feishu_app_id cr))
       else lookup_path ["channels"; "feishu"; "appId"] (prior_config w)) ∧
    lookup_path ["channels"; "feishu"; "appSecret"] out
    = (if nonempty (feishu_app_secret cr) then Some (VStr (feishu_app_secret cr))
       else lookup_path ["channels"; "feishu"; "appSecret"] (prior_config w)) ∧
    ∀ k, k ≠ "appId" → k ≠ "appSecret" →
         lookup_path ["channels"; "feishu"; k] out
         = lookup_path ["channels"; "feishu"; k] (prior_config w).
Proof.
  split; [apply configure_completes|]. intros out Hout cr.
  split; [by apply telegram_after_run|].
  split; [by apply dingtalk_after_run|].
  split; [by apply wecom_after_run|].
  by apply feishu_fields_after_run.
Qed.

Lemma channel_blocks_replaced_feishu_fields_kept_witness :
  ∃ out,
    outcome (configure busy_world) = Ok out ∧
    lookup_path ["channels"; "telegram"; "proxy"] old_document
    = Some (VStr "http://p") ∧
    lookup_path ["channels"; "telegram"] out = Some (VDict (telegram_block "123:abc")) ∧
    lookup_path ["channels"; "telegram"; "proxy"] out = None ∧
    lookup_path ["channels"; "dingtalk-connector"] out
    = Some (VDict (dingtalk_block "ding1" "ding2" (VStr (fresh_token busy_world)))) ∧
    lookup_path ["channels"; "wecom"] out
    = Some (VDict (wecom_block "wt" "0123456789012345678901234567890123456789")) ∧
    lookup_path ["channels"; "feishu"; "appId"] out = Some (VStr "cli_a") ∧
    lookup_path ["channels"; "feishu"; "domain"] out = Some (VStr "lark").
Proof.
  destruct (channel_blocks_replaced_feishu_fields_kept busy_world) as [Htotal H].
  destruct Htotal as [out Hout]; [vm_compute; reflexivity|].
  destruct (H out Hout) as (Htg & Hdt & Hwc & Hid & _ & Hother).
  exists out. split; [done|]. split; [vm_compute; reflexivity|].
  assert (Htg' := Htg eq_refl). split; [exact Htg'|].
  split.
  { change ["channels"; "telegram"; "proxy"] with (["channels"; "telegram"] ++ ["proxy"]).
    rewrite lookup_path_app, Htg'. vm_compute. reflexivity. }
  split; [exact (Hdt eq_refl)|]. split; [exact (Hwc eq_refl)|].
  split; [exact Hid|].
  rewrite (Hother "domain") by discriminate. vm_compute. reflexivity.
Defined.

(** ** C5: the provider base URL *)

(** A leaf of the update survives the merge, whatever the base holds. *)
Lemma merge_item_lookup_path (p : list string) (old : option value) (u x : value) :
  lookup_path p u = Some x → is_dict x = false →
  lookup_path p (merge_item old u) = Some x.
Proof.
  revert old u. induction p as [|k p IH]; intros old u; cbn [lookup_path].
  - intros [= ->] Hx. rewrite merge_item_unfold.
    destruct old as [[]|], x; done.
  - destruct u as [| | | | | |du]; try done. cbn [child].
    destruct (du !! k) as [uk|] eqn:Hk; [|done]. intros Hx Hleaf.
    rewrite merge_item_unfold.
    destruct old as [[| | | | | |r]|]; cbn [child]; rewrite ?Hk; try done.
    rewrite deep_merge_lookup, Hk. by apply IH.
Qed.

Lemma ark_base_url_after_run (w : world) (out : value) :
  outcome (configure w) = Ok out →
  nonempty (ark_api_key (credentials_of w))
  && nonempty (ark_model_id (credentials_of w)) = true →
  lookup_path ["models"; "providers"; "ark"; "baseUrl"] out
  = Some (VStr (get_ark_url (detect_site w) (ark_coding_plan (credentials_of w)))).
Proof.
  intros [c1 c2 c3 c4 c5 c6 c7 c8 H1 H2 H3 H4 H5 H6 H7 H8 H9]%configure_inv Hcond.
  frame_block H9. frame_block H8. frame_block H7. frame_block H6.
  frame_block H5. frame_block H4. frame_block H3.
  apply ark_result_inv in H2 as [[Hno _]|(_ & d & base & _ & _ & H2)];
    [by rewrite Hcond in Hno|].
  pose proof (exec_assigned [] _ [] "models" _ _ _ ["providers"; "ark"; "baseUrl"]
                H2 eq_refl) as Hc2.
  cbn [app] in Hc2. rewrite Hc2. clear Hc2 H2.
  change (VDict (deep_merge base ?u)) with (merge_item (Some (VDict base)) (VDict u)).
  apply merge_item_lookup_path; [|done].
  generalize (get_ark_url (detect_site w) (ark_coding_plan (credentials_of w))).
  generalize (ark_api_key (credentials_of w)) (ark_model_id (credentials_of w))
             (get_instance_id w).
  intros key id iid url. vm_compute. reflexivity.
Qed.

(** C5. When an API key and a model identifier are resolved, the provider
    base URL of the output document is [get_ark_url] of the resolved site and
    of the coding-plan flag, whatever the loaded document held there;
    [get_ark_url] is a table of four entries indexed by whether the site is
    "BytePlus" and by the flag, and for "BytePlus" it gives the two URLs of
    the claim. *)
Theorem ark_base_url_from_site_and_plan (w : world) :
  (well_shaped (prior_config w) = true → ∃ out, outcome (configure w) = Ok out) ∧
  (∀ out, outcome (configure w) = Ok out →
     nonempty (ark_api_key (credentials_of w))
     && nonempty (ark_model_id (credentials_of w)) = true →
     lookup_path ["models"; "providers"; "ark"; "baseUrl"] out
     = Some (VStr (get_ark_url (detect_site w)
                     (ark_coding_plan (credentials_of w))))) ∧
  (∀ site plan,
     get_ark_url site plan =
     match bool_decide (site = "BytePlus"), plan with
     | true, false => "https://ark.ap-southeast.bytepluses.com/api/v3"
     | true, true => "https://ark.ap-southeast.bytepluses.com/api/coding/v3"
     | false, false => "https://ark.cn-beijing.volces.com/api/v3"
     | false, true => "https://ark.cn-beijing.volces.com/api/coding/v3"
     end) ∧
  get_ark_url "BytePlus" false = "https://ark.ap-southeast.bytepluses.com/api/v3" ∧
  get_ark_url "BytePlus" true = "https://ark.ap-southeast.bytepluses.com/api/coding/v3".
Proof.
  split; [apply configure_completes|]. split; [apply ark_base_url_after_run|].
  split; [|done]. intros site plan. unfold get_ark_url.
  by destruct (bool_decide _), plan.
Qed.

Lemma ark_base_url_from_site_and_plan_witness :
  ∃ out,
    outcome (configure busy_world) = Ok out ∧
    ark_api_key (credentials_of busy_world) = "k1" ∧
    ark_model_id (credentials_of busy_world) = "m1" ∧
    detect_site busy_world = "BytePlus" ∧
    ark_coding_plan (credentials_of busy_world) = false ∧
    lookup_path ["models"; "providers"; "ark"; "baseUrl"] out
    = Some (VStr "https://ark.ap-southeast.bytepluses.com/api/v3").
Proof.
  destruct (ark_base_url_from_site_and_plan busy_world) as (Htotal & Hurl & _).
  destruct Htotal as [out Hout]; [vm_compute; reflexivity|].
  exists out. split; [done|].
  do 4 (split; [vm_compute; reflexivity|]).
  rewrite (Hurl out Hout) by (vm_compute; reflexivity).
  vm_compute. reflexivity.
Defined.

(** ** C6: the WeCom channel and the length warning *)

Lemma quiet_ret {A} (a : A) : quiet (mret a : M A).
Proof. constructor. Qed.

Lemma quiet_lift {A} (r : result A) : quiet (lift r).
Proof. constructor. Qed.

Lemma quiet_emit (e : event) : is_aes_warning e = false → quiet (emit e).
Proof. intros He. by repeat constructor. Qed.

Lemma quiet_log (msg : string) : is_aes_warning (Log msg) = false → quiet (log msg).
Proof. apply quiet_emit. Qed.

Lemma quiet_bind {A B} (m : M A) (f : A → M B) :
  quiet m → (∀ a, quiet (f a)) → quiet (m ≫= f).
Proof.
  unfold quiet. intros Hm Hf. rewrite trace_bind. apply Forall_app. split; [done|].
  destruct (outcome m); [apply Hf|constructor].
Qed.

Ltac quiet_step :=
  lazymatch goal with
  | |- quiet (mbind _ _) => apply quiet_bind; [|intros]
  | |- quiet (mret _) => apply quiet_ret
  | |- quiet (lift _) => apply quiet_lift
  | |- quiet (log _) => apply quiet_log; reflexivity
  | |- quiet (emit _) => apply quiet_emit; reflexivity
  | |- quiet (if ?b then _ else _) => destruct b
  | |- quiet (match ?x with _ => _ end) => destruct x
  end.

Lemma quiet_enable_chat_completions (c : value) : quiet (enable_chat_completions c).
Proof. unfold enable_chat_completions. repeat quiet_step. Qed.

Lemma quiet_configure_wecom (cr : credentials) (c : value) :
  nonempty (wecom_token cr) && nonempty (wecom_encoding_aes_key cr) = false
  ∨ String.length (wecom_encoding_aes_key cr) = 43 →
  quiet (configure_wecom cr c).
Proof.
  intros Hq. unfold configure_wecom.
  destruct (nonempty (wecom_token cr) && nonempty (wecom_encoding_aes_key cr)).
  - destruct Hq as [?|Hlen]; [done|].
    rewrite bool_decide_false by (by intros ?).
    repeat lazymatch goal with
           | |- quiet (enable_chat_completions _) => apply quiet_enable_chat_completions
           | |- _ => quiet_step
           end.
  - repeat quiet_step.
Qed.

Lemma quiet_configure (w : world) :
  nonempty (wecom_token (credentials_of w))
  && nonempty (wecom_encoding_aes_key (credentials_of w)) = false
  ∨ String.length (wecom_encoding_aes_key (credentials_of w)) = 43 →
  quiet (configure w).
Proof.
  intros Hq. unfold configure, log_final_config, load_config, set_gateway_token,
    configure_ark, ensure_channels, configure_feishu_app_id,
    configure_feishu_app_secret, configure_telegram, configure_dingtalk, touch_meta.
  repeat lazymatch goal with
         | |- quiet (enable_chat_completions _) => apply quiet_enable_chat_completions
         | |- quiet (configure_wecom _ _) => by apply quiet_configure_wecom
         | |- _ => quiet_step
         end.
Qed.

Lemma quiet_persist (w : world) (config : value) : quiet (persist w config).
Proof. unfold persist. repeat quiet_step. Qed.

Lemma quiet_wait_for_bus (w : world) (fuel waited : nat) :
  quiet (wait_for_bus w fuel waited).
Proof.
  revert waited. induction fuel as [|fuel IH]; intros waited; cbn [wait_for_bus].
  - repeat quiet_step.
  - destruct (negb (bus_socket_exists w waited) && bool_decide (waited < max_wait));
      repeat lazymatch goal with
             | |- quiet (wait_for_bus _ _ _) => apply IH
             | |- _ => quiet_step
             end.
Qed.

Lemma quiet_configure_memory_limits (w : world) : quiet (configure_memory_limits w).
Proof. unfold configure_memory_limits. repeat quiet_step. Qed.

Lemma quiet_enable_service (w : world) : quiet (enable_service w).
Proof.
  unfold enable_service. apply quiet_bind; [by apply quiet_log|intros _].
  induction (seq 1 max_retries) as [|attempt rest IH]; cbn [retry_loop].
  - apply quiet_ret.
  - unfold subprocess_run, attempt_failed_msg, retrying_msg.
    repeat lazymatch goal with
           | |- quiet (retry_loop _ _ _ _ _ _) => apply IH
           | |- _ => quiet_step
           end.
Qed.

Lemma quiet_start_service (w : world) : quiet (start_service w).
Proof.
  unfold start_service. apply quiet_bind; [by apply quiet_log|intros _].
  induction (seq 1 max_retries) as [|attempt rest IH]; cbn [retry_loop].
  - apply quiet_ret.
  - unfold subprocess_run, attempt_failed_msg, retrying_msg.
    repeat lazymatch goal with
           | |- quiet (retry_loop _ _ _ _ _ _) => apply IH
           | |- _ => quiet_step
           end.
Qed.

Lemma quiet_provision (w : world) : quiet (provision w).
Proof.
  unfold provision, subprocess_run. cbv zeta.
  repeat lazymatch goal with
         | |- quiet (wait_for_bus _ _ _) => apply quiet_wait_for_bus
         | |- quiet (configure_memory_limits _) => apply quiet_configure_memory_limits
         | |- quiet (enable_service _) => apply quiet_enable_service
         | |- quiet (start_service _) => apply quiet_start_service
         | |- _ => quiet_step
         end.
Qed.

Lemma quiet_main (w : world) :
  nonempty (wecom_token (credentials_of w))
  && nonempty (wecom_encoding_aes_key (credentials_of w)) = false
  ∨ String.length (wecom_encoding_aes_key (credentials_of w)) = 43 →
  quiet (main w).
Proof.
  intros Hq. unfold main.
  repeat lazymatch goal with
         | |- quiet (configure _) => by apply quiet_configure
         | |- quiet (persist _ _) => apply quiet_persist
         | |- quiet (provision _) => apply quiet_provision
         | |- _ => quiet_step
         end.
Qed.

Lemma In_trace_bind_l {A B} (m : M A) (f : A → M B) (e : event) :
  In e (trace m) → In e (trace (m ≫= f)).
Proof. intros H. rewrite trace_bind. apply in_or_app. by left. Qed.

Lemma In_trace_bind_r {A B} (m : M A) (f : A → M B) (e : event) (a : A) :
  outcome m = Ok a → In e (trace (f a)) → In e (trace (m ≫= f)).
Proof. intros Hm H. rewrite trace_bind, Hm. apply in_or_app. by right. Qed.

Lemma warning_in_configure_wecom (cr : credentials) (c : value) :
  nonempty (wecom_token cr) && nonempty (wecom_encoding_aes_key cr) = true →
  String.length (wecom_encoding_aes_key cr) ≠ 43 →
  In (Log (aes_key_warning (wecom_encoding_aes_key cr))) (trace (configure_wecom cr c)).
Proof.
  intros Hcond Hlen. unfold configure_wecom. rewrite Hcond.
  apply (In_trace_bind_r _ _ _ tt); [done|]. apply In_trace_bind_l.
  rewrite bool_decide_true by done. by left.
Qed.

Lemma warning_in_configure (w : world) (out : value) :
  outcome (configure w) = Ok out →
  nonempty (wecom_token (credentials_of w))
  && nonempty (wecom_encoding_aes_key (credentials_of w)) = true →
  String.length (wecom_encoding_aes_key (credentials_of w)) ≠ 43 →
  In (Log (aes_key_warning (wecom_encoding_aes_key (credentials_of w))))
     (trace (configure w)).
Proof.
  intros [c1 c2 c3 c4 c5 c6 c7 c8 H1 H2 H3 H4 H5 H6 H7 H8 H9]%configure_inv Hcond Hlen.
  unfold configure.
  apply (In_trace_bind_r _ _ _ tt); [done|].
  apply (In_trace_bind_r _ _ _ tt); [done|].
  apply (In_trace_bind_r _ _ _ tt); [by destruct (bool_decide _)|].
  apply (In_trace_bind_r _ _ _ tt); [apply outcome_log_final_config|].
  apply (In_trace_bind_r _ _ _ (prior_config w)); [apply outcome_load_config|].
  apply (In_trace_bind_r _ _ _ tt); [done|].
  apply (In_trace_bind_r _ _ _ tt); [done|].
  apply (In_trace_bind_r _ _ _ c1); [by rewrite outcome_set_gateway_token|].
  apply (In_trace_bind_r _ _ _ c2); [by rewrite outcome_configure_ark|].
  apply (In_trace_bind_r _ _ _ c3); [by rewrite outcome_ensure_channels|].
  apply (In_trace_bind_r _ _ _ c4); [by rewrite outcome_configure_feishu_app_id|].
  apply (In_trace_bind_r _ _ _ c5); [by rewrite outcome_configure_feishu_app_secret|].
  apply (In_trace_bind_r _ _ _ c6); [by rewrite outcome_configure_telegram|].
  apply (In_trace_bind_r _ _ _ c7); [by rewrite outcome_configure_dingtalk|].
  apply In_trace_bind_l. by apply warning_in_configure_wecom.
Qed.

Lemma get_config_other (env vars : gmap string string) (key name : string) :
  name ≠ "WECOM_ENCODING_AES_KEY" →
  get_config (<[ "WECOM_ENCODING_AES_KEY" := key ]> env) vars name
  = get_config env vars name.
Proof. intros Hne. unfold get_config. by rewrite lookup_insert_ne. Qed.

Lemma credentials_with_aes_key (key : string) (w : world) :
  nonempty key = true →
  credentials_of (with_aes_key key w) = set_aes_key key (credentials_of w).
Proof.
  intros Hkey. unfold credentials_of, resolve_credentials, set_aes_key, with_aes_key.
  cbn [environ env_file with_environ ark_api_key ark_model_id ark_coding_plan
       feishu_app_id feishu_app_secret telegram_bot_token dingtalk_client_id
       dingtalk_client_secret wecom_token wecom_encoding_aes_key].
  rewrite !get_config_other by done. f_equal.
  unfold get_config. rewrite lookup_insert_eq. by destruct key.
Qed.

Lemma result_bind_assoc {A B C} (r : result A) (f : A → result B) (g : B → result C) :
  (r ≫= f) ≫= g = r ≫= (λ a, f a ≫= g).
Proof. by destruct r. Qed.

Lemma configure_result_split (w : world) :
  configure_result w
  = c ← configure_before_wecom w;
    c ← exec_list (stmts_wecom (credentials_of w)) c;
    exec_list (stmts_meta (strftime_iso (utcnow w))) c.
Proof.
  unfold configure_result, configure_before_wecom. cbv zeta.
  destruct (exec_list (stmts_gateway_token _) _) as [c1|]; [|done].
  rewrite !result_bind_Ok.
  destruct (ark_result _ _ _ c1) as [c2|]; [|done]. rewrite !result_bind_Ok.
  destruct (exec_list stmts_channels c2) as [c3|]; [|done]. rewrite !result_bind_Ok.
  destruct (exec_list (stmts_feishu_app_id _) c3) as [c4|]; [|done].
  rewrite !result_bind_Ok.
  destruct (exec_list (stmts_feishu_app_secret _) c4) as [c5|]; [|done].
  rewrite !result_bind_Ok.
  destruct (exec_list (stmts_telegram _) c5) as [c6|]; [|done].
  rewrite !result_bind_Ok. reflexivity.
Qed.

Lemma configure_before_wecom_key (key : string) (w : world) :
  nonempty key = true →
  configure_before_wecom (with_aes_key key w) = configure_before_wecom w.
Proof.
  intros Hkey. unfold configure_before_wecom.
  rewrite (credentials_with_aes_key key w Hkey). reflexivity.
Qed.

Lemma exec_stmt_local (st : stmt) (d d' : dict) :
  d !! stmt_head st = d' !! stmt_head st →
  (∃ x, exec_stmt st (VDict d) = Ok (VDict (<[stmt_head st := x]> d)) ∧
        exec_stmt st (VDict d') = Ok (VDict (<[stmt_head st := x]> d')))
  ∨ (∃ e, exec_stmt st (VDict d) = Raise e ∧ exec_stmt st (VDict d') = Raise e).
Proof.
  destruct st as [[|h p] key|[|h p] key v]; cbn [stmt_head exec_stmt]; intros Hh.
  - unfold ensure. cbn [getpath]. rewrite !result_bind_Ok. cbn [py_contains].
    rewrite !result_bind_Ok, <-Hh.
    destruct (d !! key) as [x|] eqn:Hk.
    + rewrite bool_decide_true by eauto. left. exists x.
      by rewrite !insert_id by congruence.
    + rewrite bool_decide_false by (by intros [? ?]). left. by exists (VDict ∅).
  - unfold ensure. cbn [getpath py_getitem assign]. rewrite <-Hh.
    destruct (d !! h) as [sub|] eqn:Hd; [|right; by exists KeyError].
    rewrite !result_bind_Ok.
    destruct (getpath p sub) as [o|e]; [|right; by exists e].
    rewrite !result_bind_Ok.
    destruct (py_contains o key) as [[]|e]; [| |right; by exists e].
    + rewrite !result_bind_Ok. left. exists sub.
      by rewrite !insert_id by congruence.
    + rewrite !result_bind_Ok.
      destruct (assign p key (VDict ∅) sub) as [sub'|e]; [|right; by exists e].
      left. by exists sub'.
  - left. by exists v.
  - cbn [assign py_getitem]. rewrite <-Hh.
    destruct (d !! h) as [sub|] eqn:Hd; [|right; by exists KeyError].
    rewrite !result_bind_Ok.
    destruct (assign p key v sub) as [sub'|e]; [|right; by exists e].
    left. by exists sub'.
Qed.

Lemma exec_list_alike (sts : list stmt) (d d' : dict) :
  List.Forall (λ st, stmt_head st ≠ "channels") sts →
  same_off_channels d d' →
  alike (exec_list sts (VDict d)) (exec_list sts (VDict d')).
Proof.
  intros Hsts. revert d d'. induction Hsts as [|st sts Hst _ IH]; intros d d' Hd.
  - exact Hd.
  - cbn [exec_list].
    destruct (exec_stmt_local st d d' (Hd _ Hst)) as [(x & -> & ->)|(e & -> & ->)].
    + rewrite !result_bind_Ok. apply IH. intros k Hk.
      destruct (decide (stmt_head st = k)) as [->|Hne].
      * by rewrite !lookup_insert_eq.
      * rewrite !lookup_insert_ne by done. by apply Hd.
    + done.
Qed.

Lemma assign_wecom_alike (v v' c : value) :
  alike (assign ["channels"] "wecom" v c) (assign ["channels"] "wecom" v' c).
Proof.
  destruct c as [| | | | | |d]; try done. cbn [assign py_getitem].
  destruct (d !! "channels") as [ch|]; [|done]. rewrite !result_bind_Ok.
  destruct ch as [| | | | | |dc]; try done. cbn [py_setitem mbind result_bind].
  intros k Hk. by rewrite !lookup_insert_ne.
Qed.

Lemma alike_raised (r r' : result value) : alike r r' → raised r = raised r'.
Proof. destruct r as [[]|], r' as [[]|]; simpl; try done. by intros ->. Qed.

Lemma exec_list_app (a b : list stmt) (c : value) :
  exec_list (a ++ b) c = exec_list a c ≫= exec_list b.
Proof.
  revert c. induction a as [|st a IH]; intros c; [done|]. cbn [app exec_list].
  destruct (exec_stmt st c) as [c1|]; [|done]. rewrite !result_bind_Ok. apply IH.
Qed.

(** From line 261 on, the value stored as the AES key has no influence on
    how the run ends. *)
Lemma wecom_key_irrelevant (cr : credentials) (key : string) (now : string) (c : value) :
  nonempty (wecom_token cr) && nonempty (wecom_encoding_aes_key cr) = true →
  nonempty key = true →
  raised (c ← exec_list (stmts_wecom (set_aes_key key cr)) c;
          exec_list (stmts_meta now) c)
  = raised (c ← exec_list (stmts_wecom cr) c; exec_list (stmts_meta now) c).
Proof.
  intros Hcond Hkey. apply andb_prop in Hcond as [Htok Haes].
  unfold stmts_wecom.
  cbn [wecom_token wecom_encoding_aes_key set_aes_key].
  rewrite Htok, Haes, Hkey. cbn [andb].
  rewrite <-!exec_list_app, <-!app_assoc. cbn [app].
  change (exec_list (?x :: ?l) c) with (exec_stmt x c ≫= exec_list l).
  cbn [exec_stmt]. apply alike_raised.
  pose proof (assign_wecom_alike
                (VDict (wecom_block (wecom_token cr) key))
                (VDict (wecom_block (wecom_token cr) (wecom_encoding_aes_key cr))) c)
    as Hfirst.
  destruct (assign ["channels"] "wecom" (VDict (wecom_block (wecom_token cr) key)) c)
    as [[| | | | | |d]|e],
    (assign ["channels"] "wecom"
       (VDict (wecom_block (wecom_token cr) (wecom_encoding_aes_key cr))) c)
    as [[| | | | | |d']|e']; try done.
  rewrite !result_bind_Ok. apply exec_list_alike; [|exact Hfirst].
  unfold stmts_chat_completions, stmts_meta. cbn [app].
  repeat (apply List.Forall_cons; [discriminate|]). apply List.Forall_nil.
Qed.

Lemma configure_key_irrelevant (w : world) (key : string) :
  nonempty (wecom_token (credentials_of w))
  && nonempty (wecom_encoding_aes_key (credentials_of w)) = true →
  nonempty key = true →
  raised (outcome (configure (with_aes_key key w))) = raised (outcome (configure w)).
Proof.
  intros Hcond Hkey. rewrite !outcome_configure, !configure_result_split.
  rewrite (configure_before_wecom_key key w Hkey).
  rewrite (credentials_with_aes_key key w Hkey).
  change (utcnow (with_aes_key key w)) with (utcnow w).
  destruct (configure_before_wecom w) as [c|e]; [|done].
  rewrite !result_bind_Ok. by apply wecom_key_irrelevant.
Qed.

(** C6 (as amended). When the WeCom token and AES key are both resolved:
    on every well-shaped document the configuration step completes, whatever
    the length of the key; replacing the key by any other non-empty key
    never changes how the step ends (it completes, or raises the same
    exception), so a key of the wrong length is never what makes a run fail;
    and every run that completes stores at [channels.wecom] exactly the
    mapping of lines 265-270 (enabled, the path [/wecom], the token, the
    key), and logs the length warning exactly when the key is not 43
    characters long (with 43 characters no message of the run is such a
    warning). *)
Theorem wecom_configured_warning_iff_length (w : world) :
  let cr := credentials_of w in
  nonempty (wecom_token cr) && nonempty (wecom_encoding_aes_key cr) = true →
  (well_shaped (prior_config w) = true → ∃ out, outcome (configure w) = Ok out) ∧
  (∀ key, nonempty key = true →
     raised (outcome (configure (with_aes_key key w)))
     = raised (outcome (configure w))) ∧
  ∀ out, outcome (configure w) = Ok out →
    lookup_path ["channels"; "wecom"] out
    = Some (VDict {[ "enabled" := VBool true;
                     "webhookPath" := VStr "/wecom";
                     "token" := VStr (wecom_token cr);
                     "encodingAESKey" := VStr (wecom_encoding_aes_key cr) ]}) ∧
    (In (Log ("Warning: EncodingAESKey should be 43 characters (got "
              +:+ pretty (String.length (wecom_encoding_aes_key cr)) +:+ ")"))
        (trace (main w))
     ↔ String.length (wecom_encoding_aes_key cr) ≠ 43) ∧
    (String.length (wecom_encoding_aes_key cr) = 43 → quiet (main w)).
Proof.
  intros cr Hcond. split; [apply configure_completes|].
  split; [intros key Hkey; by apply configure_key_irrelevant|].
  intros out Hout. split; [by apply wecom_after_run|].
  assert (Hquiet : String.length (wecom_encoding_aes_key cr) = 43 → quiet (main w)).
  { intros Hlen. apply quiet_main. by right. }
  split; [|done]. split.
  - intros Hin Hlen. specialize (Hquiet Hlen). unfold quiet in Hquiet.
    rewrite Forall_forall in Hquiet. apply list_elem_of_In in Hin.
    specialize (Hquiet _ Hin). change (true = false) in Hquiet.
    discriminate Hquiet.
  - intros Hlen. unfold main. apply In_trace_bind_l.
    by apply (warning_in_configure w out).
Qed.

Lemma wecom_configured_warning_iff_length_witness :
  (∃ out,
     outcome (configure busy_world) = Ok out ∧
     String.length (wecom_encoding_aes_key (credentials_of busy_world)) = 40 ∧
     lookup_path ["channels"; "wecom"] out
     = Some (VDict {[ "enabled" := VBool true;
                      "webhookPath" := VStr "/wecom";
                      "token" := VStr "wt";
                      "encodingAESKey" :=
                        VStr "0123456789012345678901234567890123456789" ]}) ∧
     In (Log "Warning: EncodingAESKey should be 43 characters (got 40)")
        (trace (main busy_world))) ∧
  (∃ out,
     outcome (configure busy_world_43) = Ok out ∧
     String.length (wecom_encoding_aes_key (credentials_of busy_world_43)) = 43 ∧
     lookup_path ["channels"; "wecom"; "encodingAESKey"] out
     = Some (VStr "0123456789012345678901234567890123456789abc") ∧
     quiet (main busy_world_43)).
Proof.
  split.
  - destruct (wecom_configured_warning_iff_length busy_world) as (Htotal & _ & H);
      [vm_compute; reflexivity|].
    destruct Htotal as [out Hout]; [vm_compute; reflexivity|].
    destruct (H out Hout) as (Hblock & Hwarn & _).
    exists out. split; [exact Hout|]. split; [vm_compute; reflexivity|].
    split; [exact Hblock|]. apply Hwarn. vm_compute. discriminate.
  - destruct (wecom_configured_warning_iff_length busy_world_43) as (Htotal & _ & H);
      [vm_compute; reflexivity|].
    destruct Htotal as [out Hout]; [vm_compute; reflexivity|].
    destruct (H out Hout) as (Hblock & _ & Hquiet).
    exists out. split; [exact Hout|]. split; [vm_compute; reflexivity|].
    split; [|apply Hquiet; vm_compute; reflexivity].
    change ["channels"; "wecom"; "encodingAESKey"]
      with (["channels"; "wecom"] ++ ["encodingAESKey"]).
    rewrite lookup_path_app, Hblock. vm_compute. reflexivity.
Defined.

(** The claim as stated fails: with both credentials resolved (and a key of
    the right length) a loaded document whose [channels] entry is not an
    object makes the run raise [TypeError] at line 265, so no channel is
    configured. *)
Lemma wecom_configured_counterexample :
  let w := world_channels_number_wecom in
  nonempty (wecom_token (credentials_of w))
  && nonempty (wecom_encoding_aes_key (credentials_of w)) = true ∧
  String.length (wecom_encoding_aes_key (credentials_of w)) = 43 ∧
  lookup_path ["channels"] (prior_config w) = Some (VInt 5) ∧
  outcome (configure w) = Raise TypeError ∧
  outcome (main w) = Raise TypeError ∧
  ¬ ∃ out, outcome (configure w) = Ok out ∧
           is_some_b (lookup_path ["channels"; "wecom"] out) = true.
Proof.
  intros w.
  assert (H : outcome (configure w) = Raise TypeError) by (vm_compute; reflexivity).
  split; [vm_compute; reflexivity|]. split; [vm_compute; reflexivity|].
  split; [vm_compute; reflexivity|]. split; [exact H|].
  split; [vm_compute; reflexivity|].
  intros (out & Hout & _). rewrite H in Hout. discriminate Hout.
Qed.

(** ** C3: deep_merge *)

(** C3 (as amended). For all mappings [base] and [update]: at a key where
    both hold a mapping the result holds their recursive merge; at a key
    where the update's value is not a mapping (a sequence included) the
    result holds exactly that value, with no concatenation; keys the update
    lacks keep the base's value; the two examples of the claim hold.  Merging
    three mappings is associative whenever no key path holds a mapping in the
    first and third operands and a non-mapping in the second. *)
Theorem deep_merge_recursive_replacing (base update : dict) :
  (∀ k r u, base !! k = Some (VDict r) → update !! k = Some (VDict u) →
            deep_merge base update !! k = Some (VDict (deep_merge r u))) ∧
  (∀ k v, update !! k = Some v → is_dict v = false →
          deep_merge base update !! k = Some v) ∧
  (∀ k v, update !! k = Some v → none_or_dict (base !! k) = false ∨ base !! k = None →
          deep_merge base update !! k = Some v) ∧
  (∀ k, update !! k = None → deep_merge base update !! k = base !! k) ∧
  deep_merge {[ "a" := VDict {[ "x" := VInt 1 ]} ]} {[ "a" := VDict {[ "y" := VInt 2 ]} ]}
  = {[ "a" := VDict {[ "x" := VInt 1; "y" := VInt 2 ]} ]} ∧
  deep_merge {[ "a" := VList [VInt 1] ]} {[ "a" := VList [VInt 2] ]}
  = {[ "a" := VList [VInt 2] ]} ∧
  (∀ c, assoc_safe base update c = true →
        deep_merge (deep_merge base update) c = deep_merge base (deep_merge update c)).
Proof.
  split; [|split; [|split; [|split; [|split; [|split]]]]].
  - intros k r u Hb Hu. by rewrite deep_merge_lookup, Hu, Hb.
  - intros k v Hu Hv. rewrite deep_merge_lookup, Hu, merge_item_unfold.
    by destruct (base !! k) as [[]|], v.
  - intros k v Hu Hb. rewrite deep_merge_lookup, Hu, merge_item_unfold.
    destruct Hb as [Hb| ->]; [|done]. by destruct (base !! k) as [[]|].
  - intros k Hu. by rewrite deep_merge_lookup, Hu.
  - vm_compute. reflexivity.
  - vm_compute. reflexivity.
  - apply deep_merge_assoc.
Qed.

Lemma deep_merge_recursive_replacing_witness :
  let a : dict := {[ "a" := VDict {[ "x" := VInt 1 ]}; "n" := VInt 0 ]} in
  let b : dict := {[ "a" := VDict {[ "y" := VInt 2 ]}; "l" := VList [VInt 1] ]} in
  let c : dict := {[ "a" := VDict {[ "x" := VInt 3 ]}; "l" := VList [VInt 2] ]} in
  deep_merge a b !! "a" = Some (VDict {[ "x" := VInt 1; "y" := VInt 2 ]}) ∧
  deep_merge a b !! "l" = Some (VList [VInt 1]) ∧
  deep_merge a b !! "n" = Some (VInt 0) ∧
  deep_merge (deep_merge a b) c = deep_merge a (deep_merge b c).
Proof.
  intros a b c.
  destruct (deep_merge_recursive_replacing a b) as (Hrec & Hrepl & _ & Hkeep & _ & _ & Hassoc).
  split.
  { rewrite (Hrec "a" {[ "x" := VInt 1 ]} {[ "y" := VInt 2 ]});
      [|vm_compute; reflexivity..].
    vm_compute. reflexivity. }
  split; [apply Hrepl; vm_compute; reflexivity|].
  split; [rewrite Hkeep; vm_compute; reflexivity|].
  apply Hassoc. vm_compute. reflexivity.
Defined.

(** Associativity fails without the side condition: a non-mapping in the
    middle operand discards the first operand's mapping on one side only. *)
Lemma deep_merge_assoc_counterexample :
  let a : dict := {[ "k" := VDict {[ "x" := VInt 1 ]} ]} in
  let b : dict := {[ "k" := VInt 1 ]} in
  let c : dict := {[ "k" := VDict {[ "y" := VInt 2 ]} ]} in
  deep_merge (deep_merge a b) c = {[ "k" := VDict {[ "y" := VInt 2 ]} ]} ∧
  deep_merge a (deep_merge b c) = {[ "k" := VDict {[ "x" := VInt 1; "y" := VInt 2 ]} ]} ∧
  deep_merge (deep_merge a b) c ≠ deep_merge a (deep_merge b c).
Proof.
  intros a b c.
  assert (H1 : deep_merge (deep_merge a b) c = {[ "k" := VDict {[ "y" := VInt 2 ]} ]})
    by (vm_compute; reflexivity).
  assert (H2 : deep_merge a (deep_merge b c)
               = {[ "k" := VDict {[ "x" := VInt 1; "y" := VInt 2 ]} ]})
    by (vm_compute; reflexivity).
  split; [done|]. split; [done|]. rewrite H1, H2. intros Heq.
  apply (f_equal (λ m : dict, lookup_path ["k"; "x"] (VDict m))) in Heq.
  vm_compute in Heq. discriminate Heq.
Qed.

(** ** C4: credential resolution *)

Lemma contains_char_cons (c a : ascii) (s : string) :
  str_contains (String c EmptyString) (String a s)
  = bool_decide (c = a) || str_contains (String c EmptyString) s.
Proof.
  cbn [str_contains String.prefix]. destruct (ascii_dec c a) as [->|Hne].
  - rewrite bool_decide_true by done. by destruct s.
  - by rewrite bool_decide_false.
Qed.

Lemma contains_char_empty (c : ascii) : str_contains (String c EmptyString) EmptyString = false.
Proof. reflexivity. Qed.

Lemma split1_no_sep (c : ascii) (k v : string) :
  str_contains (String c EmptyString) k = false →
  split1 c (k +:+ String c v) = [k; v].
Proof.
  induction k as [|a k IH]; intros Hk.
  - simpl. by rewrite Ascii.eqb_refl.
  - rewrite contains_char_cons in Hk. apply orb_false_iff in Hk as [Hac Hk].
    apply bool_decide_eq_false in Hac. simpl.
    rewrite (proj2 (Ascii.eqb_neq a c)) by congruence. by rewrite IH.
Qed.

Lemma contains_sep (c : ascii) (k v : string) :
  str_contains (String c EmptyString) (k +:+ String c v) = true.
Proof.
  induction k as [|a k IH].
  - change (EmptyString +:+ String c v) with (String c v).
    rewrite contains_char_cons. by rewrite bool_decide_true.
  - change (String a k +:+ String c v) with (String a (k +:+ String c v)).
    rewrite contains_char_cons, IH. apply orb_true_r.
Qed.

Lemma split1_contains (c : ascii) (s : string) :
  str_contains (String c EmptyString) s = true → ∃ k v, split1 c s = [k; v].
Proof.
  induction s as [|a s IH]; [done|]. rewrite contains_char_cons.
  cbn [split1]. destruct (Ascii.eqb a c) eqn:Hac; [eauto|].
  apply Ascii.eqb_neq in Hac. rewrite bool_decide_false by congruence.
  intros (k & v & ->)%IH. eauto.
Qed.

Lemma lstrip_no_char (c : ascii) (s : string) :
  str_contains (String c EmptyString) s = false →
  str_contains (String c EmptyString) (lstrip s) = false.
Proof.
  induction s as [|a s IH]; [done|]. intros Hs. cbn [lstrip].
  destruct (py_isspace a); [|done].
  rewrite contains_char_cons in Hs. apply orb_false_iff in Hs as [_ Hs]. auto.
Qed.

Lemma rstrip_no_char (c : ascii) (s : string) :
  str_contains (String c EmptyString) s = false →
  str_contains (String c EmptyString) (rstrip s) = false.
Proof.
  induction s as [|a s IH]; [done|]. intros Hs. cbn [rstrip].
  rewrite contains_char_cons in Hs. apply orb_false_iff in Hs as [Hac Hs].
  specialize (IH Hs). destruct (rstrip s) as [|b r].
  - destruct (py_isspace a); [done|]. by rewrite contains_char_cons, Hac.
  - by rewrite contains_char_cons, Hac, IH.
Qed.

Lemma strip_no_char (c : ascii) (s : string) :
  str_contains (String c EmptyString) s = false →
  str_contains (String c EmptyString) (strip s) = false.
Proof. intros Hs. by apply lstrip_no_char, rstrip_no_char. Qed.

Lemma load_env_line_skip (vars : gmap string string) (line : string) :
  strip line = EmptyString ∨ startswith (strip line) "#" = true →
  load_env_line vars line = vars.
Proof.
  unfold load_env_line. intros [-> | ->]; [done|]. by rewrite orb_true_r.
Qed.

Lemma load_env_line_no_sep (vars : gmap string string) (line : string) :
  str_contains "=" line = false → load_env_line vars line = vars.
Proof.
  intros Hline%strip_no_char. unfold load_env_line. rewrite Hline.
  by destruct (negb _ || _).
Qed.

Lemma load_env_line_pair (vars : gmap string string) (line k v : string) :
  strip line = k +:+ "=" +:+ v → str_contains "=" k = false →
  startswith (strip line) "#" = false →
  load_env_line vars line = <[strip k := strip v]> vars.
Proof.
  intros Hline Hk Hhash. unfold load_env_line. rewrite Hhash, Hline.
  assert (nonempty (k +:+ "=" +:+ v) = true) as -> by (by destruct k).
  cbn [negb orb]. change ("=" +:+ v) with (String "="%char v).
  by rewrite contains_sep, split1_no_sep.
Qed.

Lemma load_env_file_snoc (lines : list string) (line : string) :
  load_env_file (Some (lines ++ [line]))
  = load_env_line (load_env_file (Some lines)) line.
Proof. unfold load_env_file. by rewrite fold_left_app. Qed.

(** C4. [get_config] returns the environment variable when it is set and not
    empty; otherwise the value the file gives for the key, or the empty
    string when it gives none (so the environment wins over the file).  The
    file is read line by line, later lines overriding earlier ones: a line
    that is blank or starts with [#] once stripped is skipped, a line
    without [=] is ignored, and any other line is split at its first [=]
    into key and value; a missing file gives no values. *)
Theorem credential_resolution (env : gmap string string) (file : option (list string))
    (key : string) :
  let vars := load_env_file file in
  (∀ v, env !! key = Some v → v ≠ EmptyString → get_config env vars key = v) ∧
  (env !! key = None ∨ env !! key = Some EmptyString →
     get_config env vars key = default EmptyString (vars !! key)) ∧
  load_env_file None = ∅ ∧
  (∀ lines line, load_env_file (Some (lines ++ [line]))
                 = load_env_line (load_env_file (Some lines)) line) ∧
  (∀ vs line, strip line = EmptyString ∨ startswith (strip line) "#" = true →
              load_env_line vs line = vs) ∧
  (∀ vs line, str_contains "=" line = false → load_env_line vs line = vs) ∧
  (∀ vs line k v, strip line = k +:+ "=" +:+ v → str_contains "=" k = false →
                  startswith (strip line) "#" = false →
                  load_env_line vs line = <[strip k := strip v]> vs).
Proof.
  intros vars. split; [|split; [|split; [done|split; [|split; [|split]]]]].
  - intros v Hv Hne. unfold get_config. rewrite Hv. by destruct v.
  - intros [Hv|Hv]; unfold get_config; rewrite Hv; cbn [py_or];
      by destruct (vars !! key) as [[|]|].
  - apply load_env_file_snoc.
  - apply load_env_line_skip.
  - apply load_env_line_no_sep.
  - apply load_env_line_pair.
Qed.

Lemma credential_resolution_witness :
  let file := Some ["# credentials"; ""; "no separator here";
                    "WECOM_TOKEN=file"; " ARK_MODEL_ID = a=b "; "ARK_MODEL_ID=m2"] in
  let env : gmap string string := {[ "WECOM_TOKEN" := "env"; "ARK_MODEL_ID" := "" ]} in
  get_config env (load_env_file file) "WECOM_TOKEN" = "env" ∧
  get_config env (load_env_file file) "ARK_MODEL_ID" = "m2" ∧
  get_config env (load_env_file file) "ARK_API_KEY" = "" ∧
  load_env_line ∅ " ARK_MODEL_ID = a=b " = {[ "ARK_MODEL_ID" := "a=b" ]} ∧
  load_env_line ∅ "# credentials" = ∅ ∧
  load_env_line ∅ "no separator here" = ∅.
Proof.
  intros file env.
  destruct (credential_resolution env file "WECOM_TOKEN") as (Henv & _).
  destruct (credential_resolution env file "ARK_MODEL_ID") as (_ & Hfile & _).
  destruct (credential_resolution env file "ARK_API_KEY")
    as (_ & Hnone & _ & _ & Hskip & Hnosep & Hpair).
  split; [apply Henv; [vm_compute; reflexivity|discriminate]|].
  split; [rewrite Hfile; [vm_compute; reflexivity|right; vm_compute; reflexivity]|].
  split; [rewrite Hnone; [vm_compute; reflexivity|left; vm_compute; reflexivity]|].
  split.
  { rewrite (Hpair ∅ " ARK_MODEL_ID = a=b " "ARK_MODEL_ID " " a=b");
      vm_compute; reflexivity. }
  split; [apply Hskip; right; vm_compute; reflexivity|].
  apply Hnosep. vm_compute. reflexivity.
Defined.

(** ** C8: the retry loops *)

Section RetryLoopFacts.

Variable w : world.
Variable argv : list string.
Variables what done_msg exhausted_msg : string.

Let loop := retry_loop w argv what done_msg exhausted_msg.

Lemma retry_loop_cons (attempt : nat) (rest : list nat) :
  trace (loop (attempt :: rest)) =
  Exec argv ::
  match run w argv attempt with
  | Exit0 => [Log done_msg]
  | CalledProcessError e =>
      Log (attempt_failed_msg what attempt e) ::
      (if bool_decide (attempt < max_retries)
       then [Log retrying_msg; Sleep retry_delay]
       else [Log exhausted_msg]) ++ trace (loop rest)
  end.
Proof.
  unfold loop. cbn [retry_loop]. unfold subprocess_run.
  rewrite !trace_bind. cbn [emit trace outcome mret M_ret app].
  rewrite ?outcome_bind. cbn [emit trace outcome mret M_ret app].
  destruct (run w argv attempt) as [|e]; [done|].
  rewrite ?trace_bind. cbn [log emit trace outcome app].
  destruct (bool_decide (attempt < max_retries)).
  - rewrite ?trace_bind, ?outcome_bind. by cbn [log emit trace outcome app].
  - by cbn [log emit trace outcome app].
Qed.

Lemma retry_loop_outcome (attempts : list nat) : outcome (loop attempts) = Ok tt.
Proof.
  unfold loop. induction attempts as [|attempt rest IH]; [done|].
  cbn [retry_loop]. unfold subprocess_run. rewrite !outcome_bind.
  cbn [emit outcome mret M_ret]. destruct (run w argv attempt); [done|].
  rewrite !outcome_bind. cbn [log emit outcome].
  destruct (bool_decide _); [rewrite outcome_bind|]; by cbn [log emit outcome].
Qed.

(** The loop stops at the first success. *)
Lemma retry_loop_first_success (start n : nat) (later : list nat) :
  start + n ≤ max_retries →
  (∀ i, start ≤ i < start + n → succeeded (run w argv i) = false) →
  run w argv (start + n) = Exit0 →
  trace (loop (seq start n ++ (start + n) :: later))
  = flat_map (failed_attempt w argv what) (seq start n) ++ [Exec argv; Log done_msg].
Proof.
  revert start. induction n as [|n IH]; intros start Hle Hfail Hok.
  - rewrite Nat.add_0_r in Hok. cbn [seq app flat_map]. rewrite retry_loop_cons.
    by rewrite Nat.add_0_r, Hok.
  - cbn [seq app flat_map]. rewrite retry_loop_cons.
    pose proof (Hfail start) as Hs. unfold failed_attempt at 1.
    destruct (run w argv start) as [|e]; [discriminate Hs; lia|].
    rewrite bool_decide_true by lia. cbn [error_text app]. do 4 f_equal.
    replace (start + S n) with (S start + n) in * by lia.
    apply IH; [lia| |done]. intros i Hi. apply Hfail. lia.
Qed.

(** When every attempt fails, the last one is followed by the final
    warning instead of a sleep. *)
Lemma retry_loop_exhausted (start n : nat) :
  start + n = max_retries →
  (∀ i, start ≤ i ≤ max_retries → succeeded (run w argv i) = false) →
  trace (loop (seq start (S n)))
  = flat_map (failed_attempt w argv what) (seq start n)
    ++ [ Exec argv;
         Log (attempt_failed_msg what max_retries
                (error_text (run w argv max_retries)));
         Log exhausted_msg ].
Proof.
  revert start. induction n as [|n IH]; intros start Heq Hfail.
  - rewrite Nat.add_0_r in Heq. subst start. cbn [seq app flat_map].
    rewrite retry_loop_cons. pose proof (Hfail max_retries) as Hs.
    destruct (run w argv max_retries) as [|e]; [discriminate Hs; lia|].
    by rewrite bool_decide_false by lia.
  - change (seq start (S (S n))) with (start :: seq (S start) (S n)).
    cbn [seq app flat_map]. rewrite retry_loop_cons.
    pose proof (Hfail start) as Hs. unfold failed_attempt at 1.
    destruct (run w argv start) as [|e]; [discriminate Hs; lia|].
    rewrite bool_decide_true by lia. cbn [error_text app]. do 4 f_equal.
    apply IH; [lia|]. intros i Hi. apply Hfail. lia.
Qed.

End RetryLoopFacts.

Lemma failed_attempts_counts (w : world) (argv : list string) (what : string) (n : nat) :
  (∀ i e, is_attempt_failed what (Log (attempt_failed_msg what i e)) = true) →
  is_attempt_failed what (Log retrying_msg) = false →
  count_events is_exec (failed_attempts w argv what n) = n ∧
  count_events is_sleep (failed_attempts w argv what n) = n ∧
  count_events (is_attempt_failed what) (failed_attempts w argv what n) = n ∧
  Forall (λ e, is_sleep e = true → e = Sleep retry_delay)
         (failed_attempts w argv what n).
Proof.
  intros Hfailed Hretry. unfold failed_attempts, count_events.
  cut (∀ attempts,
         let tr := flat_map (failed_attempt w argv what) attempts in
         length (List.filter is_exec tr) = length attempts ∧
         length (List.filter is_sleep tr) = length attempts ∧
         length (List.filter (is_attempt_failed what) tr) = length attempts ∧
         Forall (λ e, is_sleep e = true → e = Sleep retry_delay) tr).
  { intros H. specialize (H (seq 1 n)). by rewrite length_seq in H. }
  intros attempts. cbv zeta.
  induction attempts as [|attempt rest (IH1 & IH2 & IH3 & IH4)]; [by repeat split|].
  cbn [flat_map]. rewrite !List.filter_app, !length_app, IH1, IH2, IH3.
  unfold failed_attempt. cbn [List.filter is_exec is_sleep].
  change (is_attempt_failed what (Exec argv)) with false.
  change (is_attempt_failed what (Sleep retry_delay)) with false.
  rewrite Hfailed, Hretry. cbn [length]. repeat split; try lia.
  apply Forall_app. split; [|done].
  repeat constructor; cbn [is_sleep]; discriminate.
Qed.

Lemma retry_policy_loop (w : world) (argv : list string)
    (what opening done_msg exhausted_msg : string) :
  (∀ i e, is_attempt_failed what (Log (attempt_failed_msg what i e)) = true) →
  is_attempt_failed what (Log retrying_msg) = false →
  retry_policy w
    (log opening;;
     retry_loop w argv what done_msg exhausted_msg (seq 1 max_retries))
    argv what opening done_msg exhausted_msg.
Proof.
  intros Hfailed Hretry. split; [|split; [|split]].
  - rewrite outcome_bind_log. apply retry_loop_outcome.
  - intros n Hn Hfail Hok. rewrite trace_bind. cbn [log emit trace outcome app].
    f_equal.
    replace (seq 1 max_retries)
      with (seq 1 (n - 1) ++ (1 + (n - 1)) :: seq (S n) (max_retries - n)).
    + apply retry_loop_first_success.
      * lia.
      * intros i Hi. apply Hfail. lia.
      * by replace (1 + (n - 1)) with n by lia.
    + replace (1 + (n - 1)) with n by lia.
      replace max_retries with ((n - 1) + S (max_retries - n)) at 2 by lia.
      rewrite seq_app. cbn [seq]. by replace (1 + (n - 1)) with n by lia.
  - intros Hfail. rewrite trace_bind. cbn [log emit trace outcome app]. f_equal.
    change (seq 1 max_retries) with (seq 1 (S (max_retries - 1))).
    by apply retry_loop_exhausted.
  - intros n. by apply failed_attempts_counts.
Qed.

(** *** The service part never raises *)

Lemma completes_ret {A} (a : A) : completes (mret a : M A).
Proof. by exists a. Qed.

Lemma completes_emit (e : event) : completes (emit e).
Proof. by exists tt. Qed.

Lemma completes_log (msg : string) : completes (log msg).
Proof. by exists tt. Qed.

Lemma completes_bind {A B} (m : M A) (f : A → M B) :
  completes m → (∀ a, completes (f a)) → completes (m ≫= f).
Proof.
  intros [a Ha] Hf. destruct (Hf a) as [b Hb]. exists b.
  by rewrite outcome_bind, Ha.
Qed.

Lemma completes_unit (m : M unit) : completes m → outcome m = Ok tt.
Proof. by intros [[] ?]. Qed.

Ltac completes_step :=
  lazymatch goal with
  | |- completes (mbind _ _) => apply completes_bind; [|intros]
  | |- completes (mret _) => apply completes_ret
  | |- completes (log _) => apply completes_log
  | |- completes (emit _) => apply completes_emit
  | |- completes (if ?b then _ else _) => destruct b
  | |- completes (match ?x with _ => _ end) => destruct x
  end.

Lemma completes_wait_for_bus (w : world) (fuel waited : nat) :
  completes (wait_for_bus w fuel waited).
Proof.
  revert waited. induction fuel as [|fuel IH]; intros waited; cbn [wait_for_bus].
  - repeat completes_step.
  - destruct (negb (bus_socket_exists w waited) && bool_decide (waited < max_wait));
      repeat lazymatch goal with
             | |- completes (wait_for_bus _ _ _) => apply IH
             | |- _ => completes_step
             end.
Qed.

Lemma completes_configure_memory_limits (w : world) :
  completes (configure_memory_limits w).
Proof. unfold configure_memory_limits. repeat completes_step. Qed.

Lemma completes_enable_service (w : world) : completes (enable_service w).
Proof.
  unfold enable_service. apply completes_bind; [apply completes_log|intros _].
  exists tt. apply retry_loop_outcome.
Qed.

Lemma completes_start_service (w : world) : completes (start_service w).
Proof.
  unfold start_service. apply completes_bind; [apply completes_log|intros _].
  exists tt. apply retry_loop_outcome.
Qed.

Ltac completes_provision :=
  repeat lazymatch goal with
         | |- completes (wait_for_bus _ _ _) => apply completes_wait_for_bus
         | |- completes (configure_memory_limits _) =>
             apply completes_configure_memory_limits
         | |- completes (enable_service _) => apply completes_enable_service
         | |- completes (start_service _) => apply completes_start_service
         | |- _ => completes_step
         end.

Lemma provision_completes (w : world) : completes (provision w).
Proof. unfold provision, subprocess_run. cbv zeta. completes_provision. Qed.

Lemma trace_bind_Ok {A B} (m : M A) (f : A → M B) (a : A) :
  outcome m = Ok a → trace (m ≫= f) = trace m ++ trace (f a).
Proof. intros H. by rewrite trace_bind, H. Qed.

Lemma ends_with_bind {A B} (m : M A) (f : A → M B) (tail : list event) :
  completes m → (∀ a, ∃ before, trace (f a) = before ++ tail) →
  ∃ before, trace (m ≫= f) = before ++ tail.
Proof.
  intros [a Ha] Hf. destruct (Hf a) as [before Hb]. exists (trace m ++ before).
  by rewrite (trace_bind_Ok _ _ _ Ha), Hb, app_assoc.
Qed.

(** After the enable loop, however it ended, the restart loop runs, and
    then the closing message is logged. *)
Lemma provision_trace (w : world) :
  ∃ before, trace (provision w)
            = before ++ trace (enable_service w) ++ trace (start_service w)
              ++ [Log completed_msg].
Proof.
  unfold provision, subprocess_run. cbv zeta.
  repeat lazymatch goal with
         | |- ∃ before, trace (enable_service w ≫= _) = _ =>
             exists [];
             rewrite (trace_bind_Ok _ _ tt (completes_unit _ (completes_enable_service w))),
                     (trace_bind_Ok _ _ tt (completes_unit _ (completes_start_service w)));
             reflexivity
         | |- ∃ before, trace (_ ≫= _) = _ =>
             apply ends_with_bind; [completes_provision|intros]
         end.
Qed.

Lemma main_completes (w : world) (out : value) :
  outcome (configure w) = Ok out →
  outcome (main w) = Ok tt ∧
  ∃ before, trace (main w)
            = before ++ trace (enable_service w) ++ trace (start_service w)
              ++ [Log completed_msg].
Proof.
  intros Hout. unfold main. split.
  - rewrite outcome_bind, Hout, outcome_bind.
    assert (outcome (persist w out) = Ok tt) as ->.
    { apply completes_unit. unfold persist. repeat completes_step. }
    apply completes_unit, provision_completes.
  - apply ends_with_bind; [by exists out|]. intros a.
    apply ends_with_bind; [unfold persist; repeat completes_step|]. intros _.
    apply provision_trace.
Qed.

Lemma append_cons (x : ascii) (a b : string) : String x a +:+ b = String x (a +:+ b).
Proof. reflexivity. Qed.

Lemma append_assoc (a b c : string) : (a +:+ b) +:+ c = a +:+ b +:+ c.
Proof.
  induction a as [|x a IH]; [done|]. rewrite !append_cons. by rewrite IH.
Qed.

Lemma prefix_append (p s : string) : String.prefix p (p +:+ s) = true.
Proof.
  induction p as [|a p IH]; [by destruct s|]. rewrite append_cons.
  cbn [String.prefix]. by destruct (ascii_dec a a).
Qed.

Lemma attempt_failed_msg_recognised (what : string) (i : nat) (e : string) :
  is_attempt_failed what (Log (attempt_failed_msg what i e)) = true.
Proof.
  unfold is_attempt_failed, attempt_failed_msg, startswith.
  rewrite <-append_assoc. apply prefix_append.
Qed.

(** C8. Each of the two loops (enable, restart) runs its command until the
    first success or until 10 attempts have been made, sleeping 5 seconds
    between two attempts; when the first success is the [n]-th attempt the
    trace holds exactly [n - 1] failure messages, retry messages and sleeps
    before the success message (9 of each when the 10th attempt succeeds);
    when all 10 attempts fail the last failure is followed by the final
    warning.  Neither loop raises: after the enable loop the restart loop
    runs and the closing message is logged, so a run whose configuration
    step completes runs to its end. *)
Theorem retry_loops_bounded (w : world) :
  max_retries = 10 ∧ retry_delay = 5 ∧
  retry_policy w (enable_service w) enable_argv "Enable"
    "Enabling gateway service..." "Gateway service enabled!"
    "Warning: All enable attempts failed" ∧
  retry_policy w (start_service w) restart_argv "Start"
    "Starting gateway service..." "Gateway service started!"
    "Warning: All start attempts failed" ∧
  completes (provision w) ∧
  (∃ before, trace (provision w)
             = before ++ trace (enable_service w) ++ trace (start_service w)
               ++ [Log completed_msg]) ∧
  (∀ out, outcome (configure w) = Ok out →
     outcome (main w) = Ok tt ∧
     ∃ before, trace (main w)
               = before ++ trace (enable_service w) ++ trace (start_service w)
                 ++ [Log completed_msg]).
Proof.
  split; [reflexivity|]. split; [reflexivity|].
  split.
  { exact (retry_policy_loop w enable_argv "Enable" "Enabling gateway service..."
             "Gateway service enabled!" "Warning: All enable attempts failed"
             (attempt_failed_msg_recognised "Enable") eq_refl). }
  split.
  { exact (retry_policy_loop w restart_argv "Start" "Starting gateway service..."
             "Gateway service started!" "Warning: All start attempts failed"
             (attempt_failed_msg_recognised "Start") eq_refl). }
  split; [apply provision_completes|]. split; [apply provision_trace|].
  apply main_completes.
Qed.

Lemma retry_loops_bounded_witness :
  (count_events (is_attempt_failed "Enable") (trace (enable_service (flaky_world 10))) = 9 ∧
   count_events is_sleep (trace (enable_service (flaky_world 10))) = 9 ∧
   count_events is_exec (trace (enable_service (flaky_world 10))) = 10 ∧
   last (trace (enable_service (flaky_world 10))) = Some (Log "Gateway service enabled!")) ∧
  (count_events (is_attempt_failed "Start") (trace (start_service failing_world)) = 10 ∧
   count_events is_sleep (trace (start_service failing_world)) = 9 ∧
   last (trace (start_service failing_world))
   = Some (Log "Warning: All start attempts failed")) ∧
  outcome (main failing_world) = Ok tt.
Proof.
  destruct (retry_loops_bounded (flaky_world 10)) as (_ & _ & (_ & Hfirst & _) & _).
  destruct (retry_loops_bounded failing_world)
    as (_ & _ & _ & (_ & _ & Hexhausted & _) & _ & _ & Hmain).
  split; [|split].
  - rewrite (Hfirst 10).
    + vm_compute. repeat split; reflexivity.
    + vm_compute. split; repeat constructor.
    + intros i Hi. unfold flaky_world, with_run. cbn [run].
      by rewrite bool_decide_true by lia.
    + reflexivity.
  - rewrite Hexhausted; [vm_compute; repeat split; reflexivity|].
    intros i Hi. reflexivity.
  - destruct (Hmain (fresh_document (fresh_token failing_world)
                       (strftime_iso (utcnow failing_world)))) as [Hok _];
      [vm_compute; reflexivity|exact Hok].
Defined.

(** ** C7: the memory limits in the unit file *)

(** C7, on a unit file whose comment mentions [[Service]]: with 1000 MB the
    directives are [MemoryMax=800M] and [MemoryHigh=750M] and the old
    [MemoryMax=] line is removed, but the two directives are inserted after
    every occurrence of the text [[Service]], not only after the section
    header: the comment line is cut in two and the directives also land in
    the [[Unit]] section. *)
Theorem memory_limits_at_every_occurrence :
  memory_max 1000 = "800M" ∧ memory_high 1000 = "750M" ∧
  splitlines unit_file_with_comment
  = [ "[Unit]"; "# limits live in the [Service] section"; "[Service]";
      "MemoryMax=1G"; "ExecStart=/usr/bin/openclaw gateway" ] ∧
  (splitlines <$> rewrite_unit_file 1000 unit_file_with_comment)
  = Some [ "[Unit]"; "# limits live in the [Service]"; "MemoryMax=800M";
           "MemoryHigh=750M section"; "[Service]"; "MemoryMax=800M";
           "MemoryHigh=750M"; "ExecStart=/usr/bin/openclaw gateway" ].
Proof. repeat split; vm_compute; reflexivity. Qed.

(** ** Further properties of deep_merge *)

Lemma deep_merge_absorb_depth (n : nat) :
  ∀ a b : dict, depth (VDict b) ≤ n →
    deep_merge (deep_merge a b) b = deep_merge a b.
Proof.
  induction n as [|n IH]; intros a b Hd; [simpl in Hd; lia|].
  apply map_eq. intros k. rewrite !deep_merge_lookup.
  destruct (b !! k) as [bk|] eqn:Hb; [|done].
  pose proof (depth_lookup _ _ _ Hb) as Hlt. f_equal.
  destruct bk as [| | | | | |u]; try by rewrite !merge_item_unfold; destruct (a !! k) as [[]|].
  assert (Hu : depth (VDict u) ≤ n) by lia.
  rewrite (merge_item_unfold (a !! k)).
  destruct (a !! k) as [[| | | | | |r]|]; rewrite merge_item_unfold; f_equal;
    try (by apply IH);
    by rewrite <-(deep_merge_empty_l u) at 1 3; rewrite IH by done;
       rewrite deep_merge_empty_l.
Qed.

Lemma deep_merge_absorb (a b : dict) :
  deep_merge (deep_merge a b) b = deep_merge a b.
Proof. by apply (deep_merge_absorb_depth (depth (VDict b))). Qed.

(** X1. Deep merge, idempotence. Applying an update a second time changes
    nothing: [deep_merge (deep_merge a b) b = deep_merge a b] for all
    mappings, and merging a mapping into itself gives it back. *)
Theorem deep_merge_update_twice (a b : dict) :
  deep_merge (deep_merge a b) b = deep_merge a b ∧ deep_merge b b = b.
Proof.
  split; [apply deep_merge_absorb|].
  pose proof (deep_merge_absorb ∅ b) as H.
  by rewrite deep_merge_empty_l in H.
Qed.

Lemma misses_lookup (p : list string) (u : value) :
  misses p u = true → lookup_path p u = None.
Proof.
  revert u. induction p as [|k r IH]; intros u; [done|].
  destruct u as [| | | | | |du]; try done. cbn [misses lookup_path child].
  destruct (du !! k) as [uk|]; [apply IH|done].
Qed.

(** What the update does not reach is read as in the old value. *)
Lemma merge_item_misses (p : list string) (old u : value) :
  misses p u = true →
  lookup_path p (merge_item (Some old) u) = lookup_path p old.
Proof.
  revert old u. induction p as [|k r IH]; intros old u; [done|].
  destruct u as [| | | | | |du]; try done. intros Hm.
  rewrite merge_item_unfold.
  destruct old as [| | | | | |r0];
    try (by rewrite (misses_lookup _ _ Hm)).
  cbn [misses] in Hm. cbn [lookup_path child]. rewrite deep_merge_lookup.
  destruct (du !! k) as [uk|]; [|done].
  destruct (r0 !! k) as [x|]; [by apply IH|].
  rewrite merge_item_unfold. by apply misses_lookup.
Qed.

(** X2. Deep merge, keys and paths. The keys of the result are those of the
    base and those of the update, so no key is dropped; whatever non-mapping
    value the update holds at a nested path is what the result holds there,
    whatever the base holds; and a path that leaves the update (one of its
    keys is missing from the update at that depth) reads in the result as it
    does in the base. *)
Theorem deep_merge_keys_and_paths (base update : dict) :
  dom (deep_merge base update) = dom base ∪ dom update ∧
  (∀ p x, lookup_path p (VDict update) = Some x → is_dict x = false →
          lookup_path p (VDict (deep_merge base update)) = Some x) ∧
  (∀ p, misses p (VDict update) = true →
        lookup_path p (VDict (deep_merge base update)) = lookup_path p (VDict base)).
Proof.
  split; [|split].
  - apply set_eq. intros k.
    rewrite elem_of_union, !elem_of_dom, deep_merge_lookup.
    destruct (update !! k) as [v|] eqn:Hu.
    + split; [intros _; right; eauto|eauto].
    + split; [by left|]. intros [H|[x Hx]]; [done|discriminate Hx].
  - intros p x Hx Hleaf.
    change (VDict (deep_merge base update))
      with (merge_item (Some (VDict base)) (VDict update)).
    by apply merge_item_lookup_path.
  - intros p Hm.
    change (VDict (deep_merge base update))
      with (merge_item (Some (VDict base)) (VDict update)).
    by apply merge_item_misses.
Qed.

Lemma deep_merge_keys_and_paths_witness :
  let base : dict :=
    {[ "providers" := VDict {[ "ark" := VStr "old"; "other" := VInt 1 ]} ]} in
  let update : dict :=
    {[ "mode" := VStr "merge";
       "providers" := VDict {[ "ark" := VDict {[ "api" := VStr "x" ]} ]} ]} in
  lookup_path ["providers"; "ark"; "api"] (VDict (deep_merge base update))
  = Some (VStr "x") ∧
  lookup_path ["providers"; "other"] (VDict (deep_merge base update))
  = Some (VInt 1).
Proof.
  intros base update.
  destruct (deep_merge_keys_and_paths base update) as (_ & Hleaf & Hmiss).
  split; [apply Hleaf; vm_compute; reflexivity|].
  rewrite Hmiss; vm_compute; reflexivity.
Defined.

(** ** The top-level keys of the output *)

Lemma assign_top_keys (p : list string) (key : string) (v : value) (d : dict)
    (c' : value) :
  assign p key v (VDict d) = Ok c' →
  ∃ d', c' = VDict d' ∧ dom d' = dom d ∪ stmt_top_key (SAssign p key v).
Proof.
  destruct p as [|k p]; simpl.
  - intros [= <-]. eexists. split; [done|]. rewrite dom_insert_L. set_solver.
  - destruct (d !! k) as [sub|] eqn:Hk; [|done]. simpl.
    destruct (assign p key v sub) as [sub'|]; [|done]. simpl.
    intros [= <-]. eexists. split; [done|]. rewrite dom_insert_L.
    assert (k ∈ dom d) by (apply elem_of_dom; eauto). set_solver.
Qed.

Lemma exec_stmt_top_keys (st : stmt) (d : dict) (c' : value) :
  exec_stmt st (VDict d) = Ok c' →
  ∃ d', c' = VDict d' ∧ dom d' = dom d ∪ stmt_top_key st.
Proof.
  destruct st as [p key|p key v]; simpl; [|apply assign_top_keys].
  intros [[-> (o & Ho & Hc)]|(d' & Hd' & Hk & Ha)]%ensure_cases.
  - exists d. split; [done|]. destruct p as [|k p]; [|set_solver].
    injection Ho as <-. simpl in Hc. injection Hc as Hc.
    apply bool_decide_eq_true in Hc. apply elem_of_dom in Hc. set_solver.
  - apply assign_top_keys in Ha as (d'' & -> & Hdom). exists d''.
    split; [done|]. rewrite Hdom. by destruct p.
Qed.

Lemma exec_list_top_keys (sts : list stmt) (d : dict) (c' : value) :
  exec_list sts (VDict d) = Ok c' →
  ∃ d', c' = VDict d' ∧ dom d' = dom d ∪ stmts_top_keys sts.
Proof.
  revert d. induction sts as [|st sts IH]; intros d; simpl.
  - intros [= <-]. exists d. split; [done|]. set_solver.
  - intros (c1 & H1 & H)%result_bind_Ok_inv.
    apply exec_stmt_top_keys in H1 as (d1 & -> & Hd1).
    apply IH in H as (d' & -> & Hd'). exists d'. split; [done|].
    rewrite Hd', Hd1. set_solver.
Qed.

Lemma root_dict_before_token (tok : string) (c c1 : value) :
  exec_list (stmts_gateway_token tok) c = Ok c1 → ∃ d, c = VDict d.
Proof.
  unfold stmts_gateway_token. cbn [exec_list exec_stmt].
  intros (a & Ha & H)%result_bind_Ok_inv.
  apply result_bind_Ok_inv in H as (b & Hb & _).
  assert (∃ d, a = VDict d) as [da ->].
  { apply ensure_cases in Hb as [[_ (o & Ho & _)]|(d & Hd & _)];
      destruct a; try done; eauto. }
  apply ensure_cases in Ha as [[Heq _]|(d & _ & _ & Ha)]; [eauto|].
  destruct c; try done. eauto.
Qed.

Lemma top_keys_feishu_app_id (cr : credentials) :
  stmts_top_keys (stmts_feishu_app_id cr) = ∅.
Proof.
  unfold stmts_feishu_app_id. destruct (nonempty _);
    cbn [stmts_top_keys stmt_top_key foldr]; set_solver.
Qed.

Lemma top_keys_feishu_app_secret (cr : credentials) :
  stmts_top_keys (stmts_feishu_app_secret cr) = ∅.
Proof.
  unfold stmts_feishu_app_secret. destruct (nonempty _);
    cbn [stmts_top_keys stmt_top_key foldr]; set_solver.
Qed.

Lemma top_keys_telegram (cr : credentials) :
  stmts_top_keys (stmts_telegram cr)
  = if nonempty (telegram_bot_token cr) then {[ "plugins" ]} else ∅.
Proof.
  unfold stmts_telegram. destruct (nonempty _);
    cbn [stmts_top_keys stmt_top_key foldr]; set_solver.
Qed.

Lemma top_keys_wecom (cr : credentials) :
  stmts_top_keys (stmts_wecom cr) ⊆ {[ "gateway" ]}.
Proof.
  unfold stmts_wecom. destruct (nonempty _ && nonempty _);
    cbn [stmts_top_keys stmt_top_key foldr app stmts_chat_completions]; set_solver.
Qed.

Lemma top_keys_ark (merged : value) (id : string) :
  stmts_top_keys (stmts_ark merged id) = {[ "models"; "agents" ]}.
Proof. cbn [stmts_top_keys stmt_top_key foldr stmts_ark]. set_solver. Qed.

Lemma top_keys_dingtalk (cr : credentials) (tok : value) :
  stmts_top_keys (stmts_dingtalk cr tok) = {[ "gateway" ]}.
Proof.
  cbn [stmts_top_keys stmt_top_key foldr stmts_dingtalk stmts_chat_completions].
  set_solver.
Qed.

Lemma top_keys_gateway_token (tok : string) :
  stmts_top_keys (stmts_gateway_token tok) = {[ "gateway" ]}.
Proof. cbn [stmts_top_keys stmt_top_key foldr stmts_gateway_token]. set_solver. Qed.

Lemma top_keys_channels : stmts_top_keys stmts_channels = {[ "channels" ]}.
Proof. cbn [stmts_top_keys stmt_top_key foldr stmts_channels]. set_solver. Qed.

Lemma top_keys_meta (now : string) : stmts_top_keys (stmts_meta now) = {[ "meta" ]}.
Proof. cbn [stmts_top_keys stmt_top_key foldr stmts_meta]. set_solver. Qed.

(** X3. Top-level keys. A run that completes started from an object, and the
    top-level keys of its output are exactly those of the loaded document
    together with [gateway], [channels] and [meta], with [models] and
    [agents] when the ARK credentials are resolved, and with [plugins] when
    the Telegram token is: no top-level key is removed, and no other is
    added. *)
Theorem top_level_keys_of_output (w : world) (out : value) :
  outcome (configure w) = Ok out →
  is_dict (prior_config w) = true ∧
  top_keys out = top_keys (prior_config w) ∪ added_top_keys (credentials_of w).
Proof.
  intros [c1 c2 c3 c4 c5 c6 c7 c8 H1 H2 H3 H4 H5 H6 H7 H8 H9]%configure_inv.
  destruct (root_dict_before_token _ _ _ H1) as [d0 Hd0]. rewrite Hd0 in *.
  split; [done|]. unfold added_top_keys, ark_configured.
  apply exec_list_top_keys in H1 as (d1 & -> & Hd1).
  rewrite top_keys_gateway_token in Hd1.
  assert (∃ d2, c2 = VDict d2 ∧
            dom d2 = dom d1 ∪
              (if nonempty (ark_api_key (credentials_of w))
                  && nonempty (ark_model_id (credentials_of w))
               then {[ "models"; "agents" ]} else ∅)) as (d2 & -> & Hd2).
  { apply ark_result_inv in H2 as [[-> ->]|(-> & d & base & _ & _ & H2)].
    - exists d1. split; [done|]. by rewrite union_empty_r_L.
    - apply exec_list_top_keys in H2 as (d2 & -> & Hd2). exists d2.
      split; [done|]. by rewrite Hd2, top_keys_ark. }
  apply exec_list_top_keys in H3 as (d3 & -> & Hd3).
  rewrite top_keys_channels in Hd3.
  apply exec_list_top_keys in H4 as (d4 & -> & Hd4).
  rewrite top_keys_feishu_app_id, union_empty_r_L in Hd4.
  apply exec_list_top_keys in H5 as (d5 & -> & Hd5).
  rewrite top_keys_feishu_app_secret, union_empty_r_L in Hd5.
  apply exec_list_top_keys in H6 as (d6 & -> & Hd6).
  rewrite top_keys_telegram in Hd6.
  assert (∃ d7, c7 = VDict d7 ∧ dom d7 ⊆ dom d6 ∪ {[ "gateway" ]} ∧ dom d6 ⊆ dom d7)
    as (d7 & -> & Hd7 & Hd7').
  { apply dingtalk_result_inv in H7 as [[_ ->]|(_ & tok & _ & H7)].
    - exists d6. split; [done|]. clear. set_solver.
    - apply exec_list_top_keys in H7 as (d7 & -> & Hd7). exists d7.
      split; [done|]. rewrite Hd7, top_keys_dingtalk. clear. set_solver. }
  apply exec_list_top_keys in H8 as (d8 & -> & Hd8).
  pose proof (top_keys_wecom (credentials_of w)) as Hwc.
  apply exec_list_top_keys in H9 as (d9 & -> & Hd9).
  rewrite top_keys_meta in Hd9.
  cbn [top_keys]. rewrite Hd9, Hd8.
  revert Hwc. generalize (stmts_top_keys (stmts_wecom (credentials_of w))).
  intros X HX. revert Hd7 Hd7'. rewrite Hd6, Hd5, Hd4, Hd3, Hd2, Hd1.
  generalize (dom d7) (dom d0). clear -HX. intros D7 D0 Hd7 Hd7'.
  apply set_eq. intros x. specialize (HX x). specialize (Hd7 x).
  specialize (Hd7' x). revert HX Hd7 Hd7'.
  destruct (nonempty (ark_api_key _) && nonempty (ark_model_id _)),
    (nonempty (telegram_bot_token _)); set_unfold; tauto.
Qed.

Lemma top_level_keys_of_output_witness :
  ∃ out, outcome (configure busy_world) = Ok out ∧
         top_keys out = top_keys (prior_config busy_world)
                        ∪ added_top_keys (credentials_of busy_world).
Proof.
  destruct (configure_completes busy_world) as [out Hout]; [vm_compute; reflexivity|].
  exists out. split; [done|]. by apply (top_level_keys_of_output busy_world out).
Defined.

(** ** What a run leaves alone *)

Lemma untouched_unaffected (cr : credentials) (q : list string) (sts : list stmt) :
  untouched cr q = true → List.Forall (stmt_listed cr) sts →
  forallb (unaffected q) sts = true.
Proof.
  unfold untouched. intros [Ha Hc]%andb_prop Hsts.
  rewrite List.forallb_forall in Ha, Hc. apply List.forallb_forall.
  rewrite List.Forall_forall in Hsts. intros st Hst. specialize (Hsts st Hst).
  destruct st as [p key|p key v]; simpl in *; [by apply Hc|by apply Ha].
Qed.

Ltac find_disjunct :=
  solve [ reflexivity | left; find_disjunct | right; find_disjunct ].

Ltac solve_listed :=
  repeat (apply List.Forall_cons;
          [ unfold stmt_listed, created_items, assigned_items;
            cbn [app In]; rewrite ?in_app_iff;
            repeat match goal with H : _ = true |- _ => rewrite H end;
            rewrite ?orb_true_r; cbn [orb In];
            find_disjunct
          | ]);
  apply List.Forall_nil.

Lemma listed_gateway_token (cr : credentials) (tok : string) :
  List.Forall (stmt_listed cr) (stmts_gateway_token tok).
Proof. solve_listed. Qed.

Lemma listed_ark (cr : credentials) (merged : value) :
  ark_configured cr = true →
  List.Forall (stmt_listed cr) (stmts_ark merged (ark_model_id cr)).
Proof. intros H. solve_listed. Qed.

Lemma listed_channels (cr : credentials) : List.Forall (stmt_listed cr) stmts_channels.
Proof. solve_listed. Qed.

Lemma listed_feishu_app_id (cr : credentials) :
  List.Forall (stmt_listed cr) (stmts_feishu_app_id cr).
Proof.
  unfold stmts_feishu_app_id. destruct (nonempty (feishu_app_id cr)) eqn:H;
    [solve_listed|constructor].
Qed.

Lemma listed_feishu_app_secret (cr : credentials) :
  List.Forall (stmt_listed cr) (stmts_feishu_app_secret cr).
Proof.
  unfold stmts_feishu_app_secret. destruct (nonempty (feishu_app_secret cr)) eqn:H;
    [solve_listed|constructor].
Qed.

Lemma listed_telegram (cr : credentials) :
  List.Forall (stmt_listed cr) (stmts_telegram cr).
Proof.
  unfold stmts_telegram. destruct (nonempty (telegram_bot_token cr)) eqn:H;
    [solve_listed|constructor].
Qed.

Lemma listed_dingtalk (cr : credentials) (tok : value) :
  dingtalk_configured cr = true →
  List.Forall (stmt_listed cr) (stmts_dingtalk cr tok).
Proof. intros H. unfold stmts_dingtalk, stmts_chat_completions. solve_listed. Qed.

Lemma listed_wecom (cr : credentials) :
  List.Forall (stmt_listed cr) (stmts_wecom cr).
Proof.
  unfold stmts_wecom. fold (wecom_configured cr).
  destruct (wecom_configured cr) eqn:H; [|constructor].
  unfold stmts_chat_completions. solve_listed.
Qed.

Lemma listed_meta (cr : credentials) (now : string) :
  List.Forall (stmt_listed cr) (stmts_meta now).
Proof. solve_listed. Qed.

Lemma untouched_after_run (w : world) (out : value) (q : list string) :
  outcome (configure w) = Ok out →
  untouched (credentials_of w) q = true →
  lookup_path q out = lookup_path q (prior_config w).
Proof.
  intros [c1 c2 c3 c4 c5 c6 c7 c8 H1 H2 H3 H4 H5 H6 H7 H8 H9]%configure_inv Hq.
  assert (Hframe : ∀ sts, List.Forall (stmt_listed (credentials_of w)) sts →
                          forallb (unaffected q) sts = true)
    by (intros sts; by apply untouched_unaffected).
  rewrite (exec_frame _ _ _ q H9) by apply Hframe, listed_meta.
  rewrite (exec_frame _ _ _ q H8) by apply Hframe, listed_wecom.
  transitivity (lookup_path q c6).
  { apply dingtalk_result_inv in H7 as [[_ ->]|(Hcond & tok & _ & H7)]; [done|].
    apply (exec_frame _ _ _ q H7). by apply Hframe, listed_dingtalk. }
  rewrite (exec_frame _ _ _ q H6) by apply Hframe, listed_telegram.
  rewrite (exec_frame _ _ _ q H5) by apply Hframe, listed_feishu_app_secret.
  rewrite (exec_frame _ _ _ q H4) by apply Hframe, listed_feishu_app_id.
  rewrite (exec_frame _ _ _ q H3) by apply Hframe, listed_channels.
  transitivity (lookup_path q c1).
  { apply ark_result_inv in H2 as [[_ ->]|(Hcond & d & base & _ & _ & H2)]; [done|].
    apply (exec_frame _ _ _ q H2). by apply Hframe, listed_ark. }
  apply (exec_frame _ _ _ q H1). apply Hframe, listed_gateway_token.
Qed.

(** X4. What a run leaves alone. Call an item untouched when its path parts ways
    with the path of every item the run assigns for the resolved credentials,
    and with the path of every item the run creates when missing unless it
    lies below that item. Every untouched item reads in the output of a
    completed run exactly as in the loaded document. *)
Theorem untouched_items_unchanged (w : world) (out : value) (q : list string) :
  outcome (configure w) = Ok out →
  untouched (credentials_of w) q = true →
  lookup_path q out = lookup_path q (prior_config w).
Proof. apply untouched_after_run. Qed.

Lemma untouched_items_unchanged_witness :
  ∃ out, outcome (configure busy_world) = Ok out ∧
         lookup_path ["gateway"; "port"] out = Some (VInt 18789) ∧
         lookup_path ["channels"; "feishu"; "domain"] out = Some (VStr "lark").
Proof.
  destruct (configure_completes busy_world) as [out Hout]; [vm_compute; reflexivity|].
  exists out. split; [done|]. split.
  - rewrite (untouched_items_unchanged busy_world out _ Hout);
      vm_compute; reflexivity.
  - rewrite (untouched_items_unchanged busy_world out _ Hout);
      vm_compute; reflexivity.
Defined.

(** ** What each block leaves in the output *)

Lemma wecom_gateway_after_run (w : world) (out : value) :
  outcome (configure w) = Ok out →
  wecom_configured (credentials_of w) = true →
  lookup_path ["gateway"; "bind"] out = Some (VStr "lan") ∧
  lookup_path ["gateway"; "controlUi"; "enabled"] out = Some (VBool true) ∧
  lookup_path ["gateway"; "controlUi"; "allowInsecureAuth"] out = Some (VBool true) ∧
  lookup_path ["gateway"; "http"; "endpoints"; "chatCompletions"; "enabled"] out
  = Some (VBool true).
Proof.
  intros [c1 c2 c3 c4 c5 c6 c7 c8 H1 H2 H3 H4 H5 H6 H7 H8 H9]%configure_inv Hcond.
  unfold wecom_configured in Hcond. unfold stmts_wecom in H8. rewrite Hcond in H8.
  unfold stmts_chat_completions in H8. cbn [app] in H8.
  repeat split; frame_block H9.
  - by apply (exec_assigned [_; _] _ ["gateway"] "bind" _ _ _ [] H8).
  - by apply (exec_assigned [_; _; _; _] _ ["gateway"; "controlUi"] "enabled"
                _ _ _ [] H8).
  - by apply (exec_assigned [_; _; _; _; _] _ ["gateway"; "controlUi"]
                "allowInsecureAuth" _ _ _ [] H8).
  - by apply (exec_assigned [_; _; _; _; _; _; _; _; _] []
                ["gateway"; "http"; "endpoints"; "chatCompletions"] "enabled"
                _ _ _ [] H8).
Qed.

Lemma chat_completions_after_run (w : world) (out : value) :
  outcome (configure w) = Ok out →
  dingtalk_configured (credentials_of w) || wecom_configured (credentials_of w) = true →
  lookup_path ["gateway"; "http"; "endpoints"; "chatCompletions"; "enabled"] out
  = Some (VBool true).
Proof.
  intros Hout Hcond.
  destruct (wecom_configured (credentials_of w)) eqn:Hwc;
    [by destruct (wecom_gateway_after_run w out Hout Hwc) as (_ & _ & _ & ?)|].
  rewrite orb_false_r in Hcond.
  apply configure_inv in Hout as [c1 c2 c3 c4 c5 c6 c7 c8 H1 H2 H3 H4 H5 H6 H7 H8 H9].
  frame_block H9. unfold wecom_configured in Hwc.
  frame_block_using Hwc H8.
  apply dingtalk_result_inv in H7 as [[Hno _]|(_ & tok & _ & H7)];
    [unfold dingtalk_configured in Hcond; by rewrite Hcond in Hno|].
  unfold stmts_dingtalk, stmts_chat_completions in H7.
  by apply (exec_assigned [_; _; _; _; _] []
              ["gateway"; "http"; "endpoints"; "chatCompletions"] "enabled"
              _ _ _ [] H7).
Qed.

Lemma telegram_plugin_after_run (w : world) (out : value) :
  outcome (configure w) = Ok out →
  nonempty (telegram_bot_token (credentials_of w)) = true →
  lookup_path ["plugins"; "entries"; "telegram"] out
  = Some (VDict {[ "enabled" := VBool true ]}).
Proof.
  intros [c1 c2 c3 c4 c5 c6 c7 c8 H1 H2 H3 H4 H5 H6 H7 H8 H9]%configure_inv Hcond.
  frame_block H9. frame_block H8. frame_block H7.
  unfold stmts_telegram in H6. rewrite Hcond in H6.
  by apply (exec_assigned [_; _; _] [] ["plugins"; "entries"] "telegram"
              _ _ _ [] H6).
Qed.

Lemma meta_after_run (w : world) (out : value) :
  outcome (configure w) = Ok out →
  lookup_path ["meta"; "lastTouchedAt"] out = Some (VStr (strftime_iso (utcnow w))).
Proof.
  intros [c1 c2 c3 c4 c5 c6 c7 c8 H1 H2 H3 H4 H5 H6 H7 H8 H9]%configure_inv.
  by apply (exec_assigned [_] [] ["meta"] "lastTouchedAt" _ _ _ [] H9).
Qed.

(** The [models] section the ARK block stores: the merge of the loaded
    section (empty when there is none) with the literal of lines 157-186. *)
Lemma models_after_run (w : world) (out : value) :
  outcome (configure w) = Ok out →
  ark_configured (credentials_of w) = true →
  ∃ base,
    default (VDict ∅) (lookup_path ["models"] (prior_config w)) = VDict base ∧
    lookup_path ["models"] out
    = Some (VDict (deep_merge base
                     (ark_config (get_ark_url (detect_site w)
                                    (ark_coding_plan (credentials_of w)))
                        (ark_api_key (credentials_of w))
                        (ark_model_id (credentials_of w)) (get_instance_id w)))).
Proof.
  intros [c1 c2 c3 c4 c5 c6 c7 c8 H1 H2 H3 H4 H5 H6 H7 H8 H9]%configure_inv Hcond.
  unfold ark_configured in Hcond.
  apply ark_result_inv in H2 as [[Hno _]|(_ & d & base & -> & Hbase & H2)];
    [by rewrite Hcond in Hno|].
  exists base. split.
  - rewrite <-(exec_frame _ _ _ ["models"] H1) by reflexivity.
    revert Hbase. cbn [lookup_path child]. by destruct (d !! "models").
  - frame_block H9. frame_block H8. frame_block H7. frame_block H6.
    frame_block H5. frame_block H4. frame_block H3.
    by apply (exec_assigned [] _ [] "models" _ _ _ [] H2).
Qed.

Lemma agents_after_run (w : world) (out : value) :
  outcome (configure w) = Ok out →
  ark_configured (credentials_of w) = true →
  lookup_path ["agents"; "defaults"; "model"] out
  = Some (VDict {[ "primary" := VStr ("ark/" +:+ ark_model_id (credentials_of w)) ]}) ∧
  lookup_path ["agents"; "defaults"; "models"] out
  = Some (VDict {[ "ark/" +:+ ark_model_id (credentials_of w) := VDict ∅ ]}).
Proof.
  intros [c1 c2 c3 c4 c5 c6 c7 c8 H1 H2 H3 H4 H5 H6 H7 H8 H9]%configure_inv Hcond.
  unfold ark_configured in Hcond.
  apply ark_result_inv in H2 as [[Hno _]|(_ & d & base & -> & Hbase & H2)];
    [by rewrite Hcond in Hno|].
  split; frame_block H9; frame_block H8; frame_block H7; frame_block H6;
    frame_block H5; frame_block H4; frame_block H3.
  - by apply (exec_assigned [_; _; _] _ ["agents"; "defaults"] "model" _ _ _ [] H2).
  - by apply (exec_assigned [_; _; _; _] [] ["agents"; "defaults"] "models"
                _ _ _ [] H2).
Qed.

(** ** Running the configuration step on its own output *)

Lemma assign_settled (p : list string) (key : string) (v c : value) :
  lookup_path (p ++ [key]) c = Some v → assign p key v c = Ok c.
Proof.
  revert c. induction p as [|k p IH]; intros c; simpl.
  - destruct c as [| | | | | |d]; try done. simpl.
    destruct (d !! key) as [x|] eqn:Hk; [|done]. intros [= ->].
    by rewrite insert_id.
  - destruct c as [| | | | | |d]; try done. simpl.
    destruct (d !! k) as [sub|] eqn:Hk; [|done]. intros Hsub. simpl.
    rewrite (IH _ Hsub). simpl. by rewrite insert_id.
Qed.

Lemma ensure_settled (p : list string) (key : string) (c : value) :
  is_some_b (lookup_path (p ++ [key]) c) = true → ensure p key c = Ok c.
Proof.
  rewrite lookup_path_app. destruct (lookup_path p c) as [o|] eqn:Ho; [|done].
  apply getpath_lookup in Ho. unfold ensure. rewrite Ho. simpl.
  destruct o as [| | | | | |d]; try done. simpl.
  destruct (d !! key) eqn:Hk; [|done]. intros _.
  by rewrite bool_decide_true by eauto.
Qed.

Lemma exec_list_settled (sts : list stmt) (c : value) :
  List.Forall (stmt_settled c) sts → exec_list sts c = Ok c.
Proof.
  induction 1 as [|st sts Hst _ IH]; [done|]. simpl.
  assert (exec_stmt st c = Ok c) as ->; [|done].
  destruct st as [p key|p key v]; simpl in *;
    [by apply ensure_settled|by apply assign_settled].
Qed.

Lemma lookup_path_above (p r : list string) (c x : value) :
  lookup_path (p ++ r) c = Some x → is_some_b (lookup_path p c) = true.
Proof. rewrite lookup_path_app. by destruct (lookup_path p c). Qed.

Ltac settled_list :=
  repeat apply List.Forall_cons; try apply List.Forall_nil;
  unfold stmt_settled; cbn [app].

Lemma configure_again (w : world) (out : value) :
  outcome (configure w) = Ok out →
  outcome (configure (with_config_file out w)) = Ok out.
Proof.
  intros Hout. rewrite outcome_configure. unfold configure_result.
  change (prior_config (with_config_file out w)) with out.
  change (credentials_of (with_config_file out w)) with (credentials_of w).
  change (fresh_token (with_config_file out w)) with (fresh_token w).
  change (detect_site (with_config_file out w)) with (detect_site w).
  change (get_instance_id (with_config_file out w)) with (get_instance_id w).
  change (utcnow (with_config_file out w)) with (utcnow w).
  pose proof (token_after_run w out Hout) as Htok.
  pose proof (meta_after_run w out Hout) as Hmeta.
  pose proof (channels_after_run is_some_b w out kept_is_some Hout
                (or_intror eq_refl)) as Hch.
  pose proof (feishu_fields_after_run w out Hout) as (Hfid & Hfs & _).
  (* token *)
  rewrite (exec_list_settled (stmts_gateway_token _) out); cycle 1.
  { settled_list.
    - by eapply (lookup_path_above ["gateway"] ["auth"; "token"]).
    - by eapply (lookup_path_above ["gateway"; "auth"] ["token"]).
    - done. }
  rewrite result_bind_Ok.
  (* ARK *)
  assert (ark_result (detect_site w) (get_instance_id w) (credentials_of w) out = Ok out)
    as ->.
  { unfold ark_result. fold (ark_configured (credentials_of w)).
    destruct (ark_configured (credentials_of w)) eqn:Hark; [|done].
    destruct (models_after_run w out Hout Hark) as (base & _ & Hmodels).
    destruct (agents_after_run w out Hout Hark) as (Hmodel & Hmods).
    destruct out as [| | | | | |dout]; try discriminate Htok.
    set (update := ark_config _ _ _ _) in *.
    unfold py_get. rewrite result_bind_Ok.
    change (lookup_path ["models"] (VDict dout))
      with (match dout !! "models" with Some x => Some x | None => None end)
      in Hmodels.
    destruct (dout !! "models") as [m|] eqn:Hm; [|done].
    injection Hmodels as ->.
    change (call_deep_merge _ update)
      with (Ok (VDict (deep_merge (deep_merge base update) update))).
    rewrite result_bind_Ok, deep_merge_absorb.
    apply exec_list_settled.
    settled_list.
    - unfold lookup_path, child. by rewrite Hm.
    - by eapply (lookup_path_above ["agents"] ["defaults"; "model"]).
    - by eapply (lookup_path_above ["agents"; "defaults"] ["model"]).
    - done.
    - done. }
  rewrite result_bind_Ok.
  (* channels *)
  rewrite (exec_list_settled stmts_channels out); cycle 1.
  { by repeat apply List.Forall_cons; try apply List.Forall_nil. }
  rewrite result_bind_Ok.
  (* feishu *)
  rewrite (exec_list_settled (stmts_feishu_app_id _) out); cycle 1.
  { unfold stmts_feishu_app_id.
    destruct (nonempty (feishu_app_id (credentials_of w))) eqn:Hc; [|constructor].
    rewrite ?Hc in Hfid.
    settled_list; [|done].
    by eapply (lookup_path_above ["channels"; "feishu"] ["appId"]). }
  rewrite result_bind_Ok.
  rewrite (exec_list_settled (stmts_feishu_app_secret _) out); cycle 1.
  { unfold stmts_feishu_app_secret.
    destruct (nonempty (feishu_app_secret (credentials_of w))) eqn:Hc; [|constructor].
    rewrite ?Hc in Hfs.
    settled_list; [|done].
    by eapply (lookup_path_above ["channels"; "feishu"] ["appSecret"]). }
  rewrite result_bind_Ok.
  (* telegram *)
  rewrite (exec_list_settled (stmts_telegram _) out); cycle 1.
  { unfold stmts_telegram.
    destruct (nonempty (telegram_bot_token (credentials_of w))) eqn:Htg;
      [|constructor].
    pose proof (telegram_after_run w out Hout Htg) as Hblock.
    pose proof (telegram_plugin_after_run w out Hout Htg) as Hplugin.
    settled_list.
    - done.
    - by eapply (lookup_path_above ["plugins"] ["entries"; "telegram"]).
    - by eapply (lookup_path_above ["plugins"; "entries"] ["telegram"]).
    - done. }
  rewrite result_bind_Ok.
  (* dingtalk *)
  assert (Hchat : dingtalk_configured (credentials_of w)
                  || wecom_configured (credentials_of w) = true →
                  List.Forall (stmt_settled out) stmts_chat_completions).
  { intros Hcond. pose proof (chat_completions_after_run w out Hout Hcond) as Hen.
    settled_list.
    - by eapply (lookup_path_above ["gateway"; "http"] ["endpoints"; "chatCompletions"; "enabled"]).
    - by eapply (lookup_path_above ["gateway"; "http"; "endpoints"] ["chatCompletions"; "enabled"]).
    - by eapply (lookup_path_above ["gateway"; "http"; "endpoints"; "chatCompletions"] ["enabled"]).
    - done. }
  assert (dingtalk_result (credentials_of w) out = Ok out) as ->.
  { unfold dingtalk_result. fold (dingtalk_configured (credentials_of w)).
    destruct (dingtalk_configured (credentials_of w)) eqn:Hdt; [|done].
    apply getpath_lookup in Htok as Hget. rewrite Hget, result_bind_Ok.
    apply exec_list_settled. unfold stmts_dingtalk.
    apply List.Forall_cons; [by apply dingtalk_after_run|].
    apply List.Forall_cons; [|by apply Hchat].
    by eapply (lookup_path_above ["gateway"] ["auth"; "token"]). }
  rewrite result_bind_Ok.
  (* wecom *)
  rewrite (exec_list_settled (stmts_wecom _) out); cycle 1.
  { unfold stmts_wecom. fold (wecom_configured (credentials_of w)).
    destruct (wecom_configured (credentials_of w)) eqn:Hwc; [|constructor].
    destruct (wecom_gateway_after_run w out Hout Hwc) as (Hbind & Hen & Hins & _).
    apply List.Forall_app. split; [|apply Hchat; by rewrite orb_true_r].
    settled_list.
    - by apply wecom_after_run.
    - by eapply (lookup_path_above ["gateway"] ["auth"; "token"]).
    - done.
    - by eapply (lookup_path_above ["gateway"; "controlUi"] ["enabled"]).
    - done.
    - done. }
  rewrite result_bind_Ok.
  (* meta *)
  apply exec_list_settled.
  settled_list; [|done].
  by eapply (lookup_path_above ["meta"] ["lastTouchedAt"]).
Qed.

(** X5. Running again, same inputs. When the configuration step completes and
    is run again on the document it produced, with the same credentials,
    site, instance, random bytes and clock, it completes and produces that
    same document: every statement finds the document as it would leave it,
    and the ARK section is merged into itself. *)
Theorem rerun_reproduces_output (w : world) (out : value) :
  outcome (configure w) = Ok out →
  outcome (configure (with_config_file out w)) = Ok out.
Proof. apply configure_again. Qed.

Lemma rerun_reproduces_output_witness :
  ∃ out, outcome (configure busy_world) = Ok out ∧
         outcome (configure (with_config_file out busy_world)) = Ok out.
Proof.
  destruct (configure_completes busy_world) as [out Hout]; [vm_compute; reflexivity|].
  exists out. split; [done|]. by apply (rerun_reproduces_output busy_world out).
Defined.

(** X6. Running again, any inputs. Starting from a well-shaped document (an
    object whose items the script descends into are objects where they
    exist) the configuration step completes and its output is well-shaped
    again; so every later run that loads this output completes too, whatever
    the credentials, site, random bytes and clock of that run. *)
Theorem well_shaped_output_reruns (w : world) :
  well_shaped (prior_config w) = true →
  ∃ out, outcome (configure w) = Ok out ∧ well_shaped out = true ∧
         ∀ w', config_file w' = Some out → ∃ out', outcome (configure w') = Ok out'.
Proof.
  intros (out & Hout & Hshape)%configure_result_total. exists out.
  rewrite outcome_configure. split; [done|]. split; [done|].
  intros w' Hfile. apply configure_completes. unfold prior_config.
  by rewrite Hfile.
Qed.

Lemma well_shaped_output_reruns_witness :
  ∃ out, outcome (configure busy_world) = Ok out ∧ well_shaped out = true ∧
         ∀ w', config_file w' = Some out → ∃ out', outcome (configure w') = Ok out'.
Proof. apply (well_shaped_output_reruns busy_world). vm_compute. reflexivity. Defined.

(** ** Gateway exposure *)

Ltac solve_untouched :=
  unfold untouched, assigned_items, created_items;
  repeat match goal with H : _ = false |- _ => rewrite H end;
  cbn [orb andb];
  repeat match goal with
         | |- context [if ?b then _ else _] =>
             lazymatch b with
             | bool_decide _ => fail
             | _ => destruct b
             end
         end;
  cbn;
  repeat match goal with
         | H : ?k ≠ ?s |- context [bool_decide (?s = ?k)] =>
             rewrite (bool_decide_false (s = k)) by congruence
         end;
  reflexivity.

(** X7. Gateway exposure. With the WeCom credentials resolved, a completed run
    binds the gateway to the LAN, enables the control UI with insecure
    authentication allowed and enables the chat-completions endpoint; the
    DingTalk credentials alone enable that endpoint too.  Without the WeCom
    credentials the run changes neither [gateway.bind] nor anything under
    [gateway.controlUi], and with neither set of credentials it changes
    nothing under [gateway.http]: an exposure configured earlier is never
    reverted. *)
Theorem gateway_exposure (w : world) (out : value) :
  outcome (configure w) = Ok out →
  let cr := credentials_of w in
  (wecom_configured cr = true →
     lookup_path ["gateway"; "bind"] out = Some (VStr "lan") ∧
     lookup_path ["gateway"; "controlUi"; "enabled"] out = Some (VBool true) ∧
     lookup_path ["gateway"; "controlUi"; "allowInsecureAuth"] out = Some (VBool true)) ∧
  (dingtalk_configured cr || wecom_configured cr = true →
     lookup_path ["gateway"; "http"; "endpoints"; "chatCompletions"; "enabled"] out
     = Some (VBool true)) ∧
  (wecom_configured cr = false →
     ∀ r, lookup_path ("gateway" :: "bind" :: r) out
          = lookup_path ("gateway" :: "bind" :: r) (prior_config w) ∧
          lookup_path ("gateway" :: "controlUi" :: r) out
          = lookup_path ("gateway" :: "controlUi" :: r) (prior_config w)) ∧
  (dingtalk_configured cr || wecom_configured cr = false →
     ∀ r, lookup_path ("gateway" :: "http" :: r) out
          = lookup_path ("gateway" :: "http" :: r) (prior_config w)).
Proof.
  intros Hout cr. split; [|split; [|split]].
  - intros Hwc. destruct (wecom_gateway_after_run w out Hout Hwc) as (? & ? & ? & _).
    done.
  - by apply chat_completions_after_run.
  - intros Hwc r. fold cr in Hwc.
    split; apply (untouched_after_run w out _ Hout); fold cr; solve_untouched.
  - intros [Hdt Hwc]%orb_false_elim r.
    apply (untouched_after_run w out _ Hout); fold cr; solve_untouched.
Qed.

Lemma gateway_exposure_witness :
  ∃ out, outcome (configure busy_world) = Ok out ∧
         lookup_path ["gateway"; "bind"] (prior_config busy_world) = None ∧
         lookup_path ["gateway"; "bind"] out = Some (VStr "lan") ∧
         lookup_path ["gateway"; "controlUi"; "allowInsecureAuth"] out
         = Some (VBool true).
Proof.
  destruct (configure_completes busy_world) as [out Hout]; [vm_compute; reflexivity|].
  destruct (gateway_exposure busy_world out Hout) as (Hwc & _).
  destruct Hwc as (Hbind & _ & Hins); [vm_compute; reflexivity|].
  exists out. split; [exact Hout|]. split; [vm_compute; reflexivity|].
  split; [exact Hbind|exact Hins].
Defined.

(** ** The Telegram plugin entry *)

(** X8. Telegram plugin. With the Telegram token resolved, a completed run
    registers the plugin: [plugins.entries.telegram] is exactly
    [{"enabled": true}], and every other entry of [plugins.entries] and every
    other key of [plugins] reads as in the loaded document.  Without the
    token nothing under [plugins] is changed, so a plugin entry registered by
    an earlier run stays. *)
Theorem telegram_plugin_registered (w : world) (out : value) :
  outcome (configure w) = Ok out →
  let cr := credentials_of w in
  (nonempty (telegram_bot_token cr) = true →
     lookup_path ["plugins"; "entries"; "telegram"] out
     = Some (VDict {[ "enabled" := VBool true ]})) ∧
  (∀ k r, k ≠ "telegram" →
     lookup_path ("plugins" :: "entries" :: k :: r) out
     = lookup_path ("plugins" :: "entries" :: k :: r) (prior_config w)) ∧
  (∀ k r, k ≠ "entries" →
     lookup_path ("plugins" :: k :: r) out
     = lookup_path ("plugins" :: k :: r) (prior_config w)) ∧
  (nonempty (telegram_bot_token cr) = false →
     ∀ r, lookup_path ("plugins" :: r) out = lookup_path ("plugins" :: r) (prior_config w)).
Proof.
  intros Hout cr. split; [by apply telegram_plugin_after_run|].
  split; [|split].
  - intros k r Hk. apply (untouched_after_run w out _ Hout). fold cr.
    solve_untouched.
  - intros k r Hk. apply (untouched_after_run w out _ Hout). fold cr.
    solve_untouched.
  - intros Htg r. apply (untouched_after_run w out _ Hout). fold cr.
    solve_untouched.
Qed.

Lemma telegram_plugin_registered_witness :
  ∃ out, outcome (configure busy_world) = Ok out ∧
         lookup_path ["plugins"] (prior_config busy_world) = None ∧
         lookup_path ["plugins"; "entries"; "telegram"; "enabled"] out
         = Some (VBool true).
Proof.
  destruct (configure_completes busy_world) as [out Hout]; [vm_compute; reflexivity|].
  destruct (telegram_plugin_registered busy_world out Hout) as (Htg & _).
  exists out. split; [exact Hout|]. split; [vm_compute; reflexivity|].
  change ["plugins"; "entries"; "telegram"; "enabled"]
    with (["plugins"; "entries"; "telegram"] ++ ["enabled"]).
  rewrite lookup_path_app, Htg by (vm_compute; reflexivity).
  vm_compute. reflexivity.
Defined.

(** ** The ARK block *)

Lemma lookup_models_base (prior : value) (base : dict) (p : list string) :
  default (VDict ∅) (lookup_path ["models"] prior) = VDict base → p ≠ [] →
  lookup_path ("models" :: p) prior = lookup_path p (VDict base).
Proof.
  intros Hbase Hp. change ("models" :: p) with (["models"] ++ p).
  rewrite lookup_path_app.
  destruct (lookup_path ["models"] prior) as [m|]; simpl in Hbase.
  - by subst m.
  - injection Hbase as <-. destruct p as [|k r]; [done|]. simpl.
    by rewrite lookup_empty.
Qed.

(** X9. ARK block. With an API key and a model identifier resolved, a
    completed run stores under [models] the deep merge of the loaded section
    with the literal of lines 157-186: every non-mapping value of the literal
    (the mode, the base URL, the key, the API name, the whole model list) is
    in the output at its path, and every path that leaves the literal, such
    as another provider or another field of the [ark] provider, reads as in
    the loaded document.  The default model of the agents is set to
    [ark/<model id>] and [agents.defaults.models] to the one-entry mapping
    for that model. *)
Theorem ark_block_merged (w : world) (out : value) :
  outcome (configure w) = Ok out →
  let cr := credentials_of w in
  let literal :=
    VDict (ark_config (get_ark_url (detect_site w) (ark_coding_plan cr))
                      (ark_api_key cr) (ark_model_id cr) (get_instance_id w)) in
  ark_configured cr = true →
  (∀ p x, lookup_path p literal = Some x → is_dict x = false →
          lookup_path ("models" :: p) out = Some x) ∧
  (∀ p, misses p literal = true →
        lookup_path ("models" :: p) out = lookup_path ("models" :: p) (prior_config w)) ∧
  lookup_path ["agents"; "defaults"; "model"] out
  = Some (VDict {[ "primary" := VStr ("ark/" +:+ ark_model_id cr) ]}) ∧
  lookup_path ["agents"; "defaults"; "models"] out
  = Some (VDict {[ "ark/" +:+ ark_model_id cr := VDict ∅ ]}).
Proof.
  intros Hout cr literal Hark.
  destruct (models_after_run w out Hout Hark) as (base & Hbase & Hmodels).
  split; [|split; [|by apply agents_after_run]].
  - intros p x Hx Hleaf. change ("models" :: p) with (["models"] ++ p).
    rewrite lookup_path_app, Hmodels.
    change (VDict (deep_merge base ?u)) with (merge_item (Some (VDict base)) (VDict u)).
    by apply merge_item_lookup_path.
  - intros p Hmiss. rewrite (lookup_models_base _ base p Hbase) by (by destruct p).
    change ("models" :: p) with (["models"] ++ p).
    rewrite lookup_path_app, Hmodels.
    change (VDict (deep_merge base ?u)) with (merge_item (Some (VDict base)) (VDict u)).
    by apply merge_item_misses.
Qed.

Lemma ark_block_merged_witness :
  ∃ out, outcome (configure busy_world) = Ok out ∧
         lookup_path ["models"; "mode"] out = Some (VStr "merge") ∧
         lookup_path ["models"; "providers"; "ark"; "apiKey"] out = Some (VStr "k1") ∧
         lookup_path ["models"; "providers"; "ark"; "note"] out = Some (VStr "n") ∧
         lookup_path ["agents"; "defaults"; "model"; "primary"] out
         = Some (VStr "ark/m1").
Proof.
  destruct (configure_completes busy_world) as [out Hout]; [vm_compute; reflexivity|].
  destruct (ark_block_merged busy_world out Hout) as (Hleaf & Hmiss & Hmodel & _);
    [vm_compute; reflexivity|].
  exists out. split; [exact Hout|].
  split; [apply Hleaf; vm_compute; reflexivity|].
  split; [apply Hleaf; vm_compute; reflexivity|].
  split; [rewrite Hmiss; vm_compute; reflexivity|].
  change ["agents"; "defaults"; "model"; "primary"]
    with (["agents"; "defaults"; "model"] ++ ["primary"]).
  rewrite lookup_path_app, Hmodel. vm_compute. reflexivity.
Defined.

(** ** The timestamp *)

(** X10. Timestamp. Every completed run stores the UTC time of the run, rendered
    by [strftime], at [meta.lastTouchedAt], whatever the credentials and
    whatever the loaded document held there; every other entry of [meta]
    reads as in the loaded document. *)
Theorem last_touched_recorded (w : world) (out : value) :
  outcome (configure w) = Ok out →
  lookup_path ["meta"; "lastTouchedAt"] out = Some (VStr (strftime_iso (utcnow w))) ∧
  ∀ k r, k ≠ "lastTouchedAt" →
    lookup_path ("meta" :: k :: r) out = lookup_path ("meta" :: k :: r) (prior_config w).
Proof.
  intros Hout. split; [by apply meta_after_run|]. intros k r Hk.
  apply (untouched_after_run w out _ Hout). solve_untouched.
Qed.

Lemma last_touched_recorded_witness :
  ∃ out, outcome (configure busy_world) = Ok out ∧
         lookup_path ["meta"; "lastTouchedAt"] out
         = Some (VStr "2026-02-03T04:05:06.000Z").
Proof.
  destruct (configure_completes busy_world) as [out Hout]; [vm_compute; reflexivity|].
  destruct (last_touched_recorded busy_world out Hout) as [Hmeta _].
  exists out. split; [exact Hout|]. rewrite Hmeta. vm_compute. reflexivity.
Defined.

(** ** Events of a run *)

Lemma silent_ret {A} (P : event → bool) (a : A) : silent P (mret a : M A).
Proof. constructor. Qed.

Lemma silent_lift {A} (P : event → bool) (r : result A) : silent P (lift r).
Proof. constructor. Qed.

Lemma silent_emit (P : event → bool) (e : event) : P e = false → silent P (emit e).
Proof. intros He. by repeat constructor. Qed.

Lemma silent_bind {A B} (P : event → bool) (m : M A) (f : A → M B) :
  silent P m → (∀ a, silent P (f a)) → silent P (m ≫= f).
Proof.
  unfold silent. intros Hm Hf. rewrite trace_bind. apply Forall_app. split; [done|].
  destruct (outcome m); [apply Hf|constructor].
Qed.

Ltac silent_step :=
  lazymatch goal with
  | |- silent _ (mbind _ _) => apply silent_bind; [|intros]
  | |- silent _ (mret _) => apply silent_ret
  | |- silent _ (lift _) => apply silent_lift
  | |- silent _ (log _) => apply silent_emit; reflexivity
  | |- silent _ (emit _) => apply silent_emit; reflexivity
  | |- silent _ (if ?b then _ else _) => destruct b
  | |- silent _ (match ?x with _ => _ end) => destruct x
  end.

Lemma silent_filter {A} (P : event → bool) (m : M A) :
  silent P m → List.filter P (trace m) = [].
Proof.
  unfold silent. induction 1 as [|e tr He _ IH]; [done|]. simpl. by rewrite He.
Qed.

Lemma silent_weaken {A} (P Q : event → bool) (m : M A) :
  (∀ e, P e = false → Q e = false) → silent P m → silent Q m.
Proof. unfold silent. intros HPQ H. eapply Forall_impl; [exact H|exact HPQ]. Qed.

Lemma silent_slept {A} (m : M A) : silent is_sleep m → slept (trace m) = 0.
Proof.
  unfold silent. induction 1 as [|e tr He _ IH]; [done|]. simpl.
  by destruct e.
Qed.

(** The configuration part only logs. *)
Lemma configure_only_logs (w : world) : silent (λ e, negb (is_log e)) (configure w).
Proof.
  unfold configure, log_final_config, load_config, set_gateway_token,
    configure_ark, ensure_channels, configure_feishu_app_id,
    configure_feishu_app_secret, configure_telegram, configure_dingtalk,
    configure_wecom, enable_chat_completions, touch_meta.
  repeat silent_step.
Qed.










Lemma outcome_persist (w : world) (config : value) : outcome (persist w config) = Ok tt.
Proof. unfold persist. by destruct (bool_decide _). Qed.





(** ** Waiting for the bus socket *)

Lemma slept_app (a b : list event) : slept (a ++ b) = slept a + slept b.
Proof.
  induction a as [|e a IH]; [done|]. simpl. rewrite IH. destruct e; lia.
Qed.

Lemma count_events_app (P : event → bool) (a b : list event) :
  count_events P (a ++ b) = count_events P a + count_events P b.
Proof. unfold count_events. by rewrite List.filter_app, length_app. Qed.

Lemma div10_step (n : nat) :
  (n + 1) `div` 10 = n `div` 10 + (if bool_decide ((n + 1) `mod` 10 = 0) then 1 else 0).
Proof.
  pose proof (Nat.div_mod_eq n 10) as Hn.
  pose proof (Nat.div_mod_eq (n + 1) 10) as Hn1.
  pose proof (Nat.mod_upper_bound n 10) as Hb.
  pose proof (Nat.mod_upper_bound (n + 1) 10) as Hb1.
  case_bool_decide; lia.
Qed.

Lemma wait_for_bus_spec (w : world) (fuel waited : nat) :
  max_wait ≤ waited + fuel →
  ∃ n, outcome (wait_for_bus w fuel waited) = Ok n ∧
       waited ≤ n ∧ (n ≤ max_wait ∨ n = waited) ∧
       (∀ i, waited ≤ i < n → bus_socket_exists w i = false) ∧
       (n < max_wait → bus_socket_exists w n = true) ∧
       trace (wait_for_bus w fuel waited)
       = flat_map (λ i, Sleep 1 ::
                        if bool_decide ((i + 1) `mod` 10 = 0)
                        then [Log ("Still waiting for bus socket... ("
                                   +:+ pretty (i + 1) +:+ "s)")]
                        else [])
                  (seq waited (n - waited)).
Proof.
  revert waited. induction fuel as [|fuel IH]; intros waited Hfuel;
    cbn [wait_for_bus].
  - rewrite bool_decide_false by lia. rewrite andb_false_r. exists waited.
    rewrite Nat.sub_diag. repeat split; try done; try lia; auto.
  - destruct (bus_socket_exists w waited) eqn:Hex; cbn [negb andb].
    { exists waited. rewrite Nat.sub_diag. repeat split; try done; try lia; auto. }
    case_bool_decide as Hlt; cycle 1.
    { exists waited. rewrite Nat.sub_diag. repeat split; try done; try lia; auto. }
    destruct (IH (waited + 1)) as (n & Hn & Hle & Hmax & Hno & Hyes & Htr); [lia|].
    exists n. rewrite !outcome_bind. cbn [emit outcome].
    assert (Hmid : ∀ b : bool, outcome (if b then log ("Still waiting for bus socket... ("
                                   +:+ pretty (waited + 1) +:+ "s)")
                               else mret tt) = Ok tt) by (by intros []).
    rewrite Hmid. split; [done|]. split; [lia|]. split; [lia|].
    split.
    { intros i Hi. destruct (decide (i = waited)) as [->|]; [done|].
      apply Hno. lia. }
    split; [done|].
    rewrite !trace_bind. cbn [emit outcome trace]. rewrite Hmid, Htr.
    replace (n - waited) with (S (n - (waited + 1))) by lia.
    cbn [seq flat_map]. rewrite Nat.add_1_r.
    by destruct (bool_decide _).
Qed.

Lemma bus_wait_trace_counts (waited k : nat) :
  let tr := flat_map (λ i, Sleep 1 ::
                        if bool_decide ((i + 1) `mod` 10 = 0)
                        then [Log ("Still waiting for bus socket... ("
                                   +:+ pretty (i + 1) +:+ "s)")]
                        else [])
                  (seq waited k) in
  slept tr = k ∧ count_events is_sleep tr = k ∧
  count_events is_still_waiting tr = (waited + k) `div` 10 - waited `div` 10 ∧
  writes tr = [].
Proof.
  revert waited. induction k as [|k IH]; intros waited; cbn zeta.
  - rewrite Nat.add_0_r, Nat.sub_diag. done.
  - cbn [seq flat_map]. destruct (IH (S waited)) as (Hs & Hc & Hl & Hw).
    replace (waited + S k) with (S waited + k) by lia.
    pose proof (div10_step waited) as Hstep. rewrite Nat.add_1_r in Hstep.
    assert (Hmono : S waited `div` 10 ≤ (S waited + k) `div` 10)
      by (apply Nat.Div0.div_le_mono; lia).
    rewrite Nat.add_1_r.
    destruct (bool_decide (S waited `mod` 10 = 0)).
    + change (Sleep 1 :: [Log ?m] ++ ?r) with ([Sleep 1; Log m] ++ r).
      rewrite slept_app, !count_events_app, Hs, Hc, Hl.
      unfold writes in *. rewrite List.filter_app, Hw.
      repeat split; try done. change (count_events is_still_waiting [Sleep 1; Log _])
        with 1. lia.
    + change (Sleep 1 :: [] ++ ?r) with ([Sleep 1] ++ r).
      rewrite slept_app, !count_events_app, Hs, Hc, Hl.
      unfold writes in *. rewrite List.filter_app, Hw.
      repeat split; try done. change (count_events is_still_waiting [Sleep 1]) with 0.
      lia.
Qed.

(** X12. Waiting for the bus socket (lines 317-323). The loop ends: it returns
    the first second, counted from 0, at which the socket exists, or 60 when
    it exists at none of the seconds 0 to 59.  It has slept one second for
    each second waited, so never more than 60 seconds and not at all when the
    socket is there at once, and it has logged one progress message per full
    ten seconds waited. *)
Theorem bus_wait_bounded (w : world) :
  ∃ waited,
    outcome (wait_for_bus w max_wait 0) = Ok waited ∧
    waited ≤ 60 ∧
    (∀ i, i < waited → bus_socket_exists w i = false) ∧
    (waited < 60 → bus_socket_exists w waited = true) ∧
    slept (trace (wait_for_bus w max_wait 0)) = waited ∧
    count_events is_sleep (trace (wait_for_bus w max_wait 0)) = waited ∧
    count_events is_still_waiting (trace (wait_for_bus w max_wait 0)) = waited `div` 10.
Proof.
  destruct (wait_for_bus_spec w max_wait 0) as (n & Hn & _ & Hmax & Hno & Hyes & Htr);
    [done|].
  exists n. split; [done|].
  assert (n ≤ 60) by (destruct Hmax; [done|lia]).
  split; [done|]. split; [intros i Hi; apply Hno; lia|]. split; [exact Hyes|].
  rewrite Htr, Nat.sub_0_r.
  destruct (bus_wait_trace_counts 0 n) as (Hs & Hc & Hl & _).
  cbn zeta in *. rewrite Hs, Hc, Hl. repeat split; try done.
  change (0 `div` 10) with 0. by rewrite Nat.sub_0_r.
Qed.

Lemma bus_wait_bounded_witness :
  outcome (wait_for_bus slow_bus_world max_wait 0) = Ok 25 ∧
  slept (trace (wait_for_bus slow_bus_world max_wait 0)) = 25 ∧
  count_events is_still_waiting (trace (wait_for_bus slow_bus_world max_wait 0)) = 2.
Proof.
  destruct (bus_wait_bounded slow_bus_world)
    as (waited & Hout & Hle & Hno & Hyes & Hslept & _ & Hlogs).
  assert (waited = 25) as ->.
  { assert (H : outcome (wait_for_bus slow_bus_world max_wait 0) = Ok 25)
      by (vm_compute; reflexivity).
    rewrite H in Hout. by injection Hout. }
  split; [exact Hout|]. split; [exact Hslept|]. exact Hlogs.
Defined.

(** ** Time spent sleeping *)

Lemma slept_bind_le {A B} (m : M A) (f : A → M B) (a b : nat) :
  slept (trace m) ≤ a → (∀ x, slept (trace (f x)) ≤ b) →
  slept (trace (m ≫= f)) ≤ a + b.
Proof.
  intros Hm Hf. rewrite trace_bind, slept_app.
  destruct (outcome m) as [x|]; [specialize (Hf x)|simpl]; lia.
Qed.

Lemma slept_bind_silent {A B} (m : M A) (f : A → M B) (b : nat) :
  silent is_sleep m → (∀ x, slept (trace (f x)) ≤ b) →
  slept (trace (m ≫= f)) ≤ b.
Proof.
  intros Hm Hf. apply (slept_bind_le m f 0 b); [|done].
  by rewrite (silent_slept _ Hm).
Qed.

Lemma slept_retry_loop (w : world) (argv : list string)
    (what done_msg exhausted_msg : string) (attempts : list nat) :
  slept (trace (retry_loop w argv what done_msg exhausted_msg attempts))
  ≤ retry_delay * length (List.filter (λ a, bool_decide (a < max_retries)) attempts).
Proof.
  induction attempts as [|attempt rest IH]; [done|].
  rewrite retry_loop_cons. cbn [List.filter].
  destruct (run w argv attempt) as [|e].
  - simpl. lia.
  - destruct (bool_decide (attempt < max_retries)); cbn [slept foldr app length];
      fold (slept (trace (retry_loop w argv what done_msg exhausted_msg rest))); lia.
Qed.

Lemma slept_enable_service (w : world) : slept (trace (enable_service w)) ≤ 45.
Proof.
  unfold enable_service. apply slept_bind_silent; [by apply silent_emit|intros _].
  etrans; [apply slept_retry_loop|]. by vm_compute.
Qed.

Lemma slept_start_service (w : world) : slept (trace (start_service w)) ≤ 45.
Proof.
  unfold start_service. apply slept_bind_silent; [by apply silent_emit|intros _].
  etrans; [apply slept_retry_loop|]. by vm_compute.
Qed.

Lemma slept_wait_for_bus (w : world) : slept (trace (wait_for_bus w max_wait 0)) ≤ 60.
Proof.
  destruct (wait_for_bus_spec w max_wait 0) as (n & _ & _ & Hmax & _ & _ & Htr);
    [done|].
  rewrite Htr, Nat.sub_0_r. destruct (bus_wait_trace_counts 0 n) as (Hs & _).
  cbn zeta in Hs. rewrite Hs. destruct Hmax; [done|lia].
Qed.

Lemma silent_configure_memory_limits (w : world) :
  silent is_sleep (configure_memory_limits w).
Proof. unfold configure_memory_limits. repeat silent_step. Qed.

Lemma slept_provision (w : world) : slept (trace (provision w)) ≤ 150.
Proof.
  unfold provision, subprocess_run. cbv zeta.
  repeat lazymatch goal with
         | |- slept (trace (wait_for_bus _ _ _ ≫= _)) ≤ _ =>
             apply (slept_bind_le _ _ 60 90); [apply slept_wait_for_bus|intros]
         | |- slept (trace (enable_service _ ≫= _)) ≤ _ =>
             apply (slept_bind_le _ _ 45 45); [apply slept_enable_service|intros]
         | |- slept (trace (start_service _ ≫= _)) ≤ _ =>
             apply (slept_bind_le _ _ 45 0); [apply slept_start_service|intros]
         | |- slept (trace (log _)) ≤ _ => by simpl
         | |- slept (trace (_ ≫= _)) ≤ _ => apply slept_bind_silent; [|intros]
         | |- silent _ (configure_memory_limits _) =>
             apply silent_configure_memory_limits
         | |- silent _ _ => silent_step
         end.
Qed.

(** X13. Time spent sleeping. Whatever the world does, a run of [main] sleeps at
    most 150 seconds in total: at most 60 waiting for the bus socket and at
    most 45 in each of the two retry loops (nine pauses of five seconds, none
    after the last attempt); the configuration part never sleeps.  The bound
    is reached when the socket never appears and every command fails. *)
Theorem sleep_time_bounded (w : world) :
  slept (trace (main w)) ≤ 150 ∧
  slept (trace (configure w)) = 0 ∧
  slept (trace (wait_for_bus w max_wait 0)) ≤ 60 ∧
  slept (trace (enable_service w)) ≤ 45 ∧
  slept (trace (start_service w)) ≤ 45 ∧
  slept (trace (main worst_world)) = 150.
Proof.
  assert (Hcfg : silent is_sleep (configure w)).
  { apply (silent_weaken (λ e, negb (is_log e))); [by intros []|].
    apply configure_only_logs. }
  split; [|split; [by apply silent_slept|]].
  - unfold main. apply (slept_bind_silent _ _ 150 Hcfg). intros out.
    apply slept_bind_silent; [unfold persist; repeat silent_step|intros _].
    apply slept_provision.
  - split; [apply slept_wait_for_bus|]. split; [apply slept_enable_service|].
    split; [apply slept_start_service|]. vm_compute. reflexivity.
Qed.

(** ** The entries read from the .env file *)

Lemma lstrip_idem (s : string) : lstrip (lstrip s) = lstrip s.
Proof.
  induction s as [|c s IH]; [done|]. cbn [lstrip].
  destruct (py_isspace c) eqn:Hc; [done|]. cbn [lstrip]. by rewrite Hc.
Qed.

Lemma rstrip_idem (s : string) : rstrip (rstrip s) = rstrip s.
Proof.
  induction s as [|c s IH]; [done|]. cbn [rstrip].
  destruct (rstrip s) as [|a r] eqn:Hr.
  - destruct (py_isspace c) eqn:Hc; [done|]. cbn [rstrip]. by rewrite Hc.
  - cbn [rstrip]. cbn [rstrip] in IH. by rewrite IH.
Qed.

Lemma rstrip_lstrip (t : string) : rstrip t = t → rstrip (lstrip t) = lstrip t.
Proof.
  induction t as [|c t IH]; [done|]. intros Ht. cbn [lstrip].
  destruct (py_isspace c) eqn:Hc; [|done]. apply IH.
  cbn [rstrip] in Ht. rewrite Hc in Ht.
  destruct (rstrip t) as [|a r]; [done|]. by injection Ht.
Qed.

Lemma strip_idem (s : string) : strip (strip s) = strip s.
Proof.
  unfold strip. rewrite (rstrip_lstrip (rstrip s)) by apply rstrip_idem.
  apply lstrip_idem.
Qed.

Lemma lstrip_head (s r : string) (a : ascii) :
  lstrip s = String a r → py_isspace a = false.
Proof.
  induction s as [|c s IH]; [done|]. cbn [lstrip].
  destruct (py_isspace c) eqn:Hc; [done|]. by intros [= <- _].
Qed.

Lemma rstrip_head (a : ascii) (s : string) :
  py_isspace a = false → ∃ r, rstrip (String a s) = String a r.
Proof.
  intros Ha. cbn [rstrip]. destruct (rstrip s); rewrite ?Ha; eauto.
Qed.

Lemma split1_parts (c : ascii) (s k v : string) :
  split1 c s = [k; v] →
  s = k +:+ String c v ∧ str_contains (String c EmptyString) k = false.
Proof.
  revert k. induction s as [|a s IH]; intros k; [done|]. cbn [split1].
  destruct (Ascii.eqb a c) eqn:Hac.
  - apply Ascii.eqb_eq in Hac as ->. by intros [= <- <-].
  - apply Ascii.eqb_neq in Hac.
    destruct (split1 c s) as [|k' [|v' [|]]] eqn:Hs; try done.
    intros [= <- <-]. destruct (IH k' eq_refl) as [-> Hk']. split; [done|].
    rewrite contains_char_cons, Hk'. by rewrite bool_decide_false by congruence.
Qed.

Lemma load_env_line_trimmed (vars : gmap string string) (line : string) :
  map_Forall trimmed_entry vars → map_Forall trimmed_entry (load_env_line vars line).
Proof.
  intros Hvars. unfold load_env_line.
  destruct (nonempty (strip line)) eqn:Hne; [|done]. cbn [negb orb].
  destruct (startswith (strip line) "#") eqn:Hhash; [done|].
  destruct (str_contains "=" (strip line)) eqn:Hsep; [|done].
  destruct (split1_contains _ _ Hsep) as (key & v & Hsplit). rewrite Hsplit.
  apply map_Forall_insert_2; [|done].
  destruct (split1_parts _ _ _ _ Hsplit) as [Hline Hkey].
  split; [apply strip_idem|]. split; [apply strip_idem|].
  split; [by apply strip_no_char|].
  destruct key as [|a key]; [done|].
  assert (Ha : py_isspace a = false).
  { unfold strip in Hline. by apply lstrip_head in Hline. }
  destruct (rstrip_head a key Ha) as [r Hr]. unfold strip. rewrite Hr.
  cbn [lstrip]. rewrite Ha. rewrite Hline in Hhash.
  change (String a key +:+ String "="%char v)
    with (String a (key +:+ String "="%char v)) in Hhash.
  unfold startswith in *. cbn [String.prefix] in *.
  destruct (ascii_dec "#" a); [|done]. by destruct key.
Qed.

(** X14. Entries of the .env file (lines 54-66). Whatever the lines of the file,
    every entry [load_env_file] returns has a key and a value without leading
    or trailing whitespace, a key that contains no [=] (the line is split at
    its first [=], the value keeps any further ones) and that does not start
    with [#]. *)
Theorem env_file_entries_trimmed (file : option (list string)) :
  map_Forall trimmed_entry (load_env_file file).
Proof.
  destruct file as [lines|]; [|apply map_Forall_empty]. unfold load_env_file.
  assert (H : ∀ vars, map_Forall trimmed_entry vars →
                map_Forall trimmed_entry (fold_left load_env_line lines vars)).
  { induction lines as [|line lines IH]; intros vars Hvars; [done|].
    cbn [fold_left]. by apply IH, load_env_line_trimmed. }
  apply H, map_Forall_empty.
Qed.

Lemma env_file_entries_trimmed_witness :
  load_env_file (Some ["  # comment"; " ARK_MODEL_ID = a=b "; "=x"; "plain"])
  !! "ARK_MODEL_ID" = Some "a=b" ∧
  trimmed_entry "ARK_MODEL_ID" "a=b".
Proof.
  assert (H : load_env_file (Some ["  # comment"; " ARK_MODEL_ID = a=b "; "=x"; "plain"])
              !! "ARK_MODEL_ID" = Some "a=b") by (vm_compute; reflexivity).
  split; [exact H|].
  exact (env_file_entries_trimmed _ "ARK_MODEL_ID" "a=b" H).
Defined.

(** ** The memory directives when the header occurs once *)

Lemma prefix_cons (a b : ascii) (p s : string) :
  String.prefix (String a p) (String b s)
  = bool_decide (a = b) && String.prefix p s.
Proof.
  cbn [String.prefix]. destruct (ascii_dec a b) as [->|Hne].
  - by rewrite bool_decide_true.
  - by rewrite bool_decide_false.
Qed.

Lemma prefix_empty (s : string) : String.prefix EmptyString s = true.
Proof. by destruct s. Qed.

(** A pattern without the character [h] that matches at the start of
    [x ++ h ++ y] matches within [x]. *)
Lemma prefix_before_char (h : ascii) (p x y : string) :
  str_contains (String h EmptyString) p = false →
  String.prefix p (x +:+ String h y) = true → String.prefix p x = true.
Proof.
  revert x. induction p as [|a p IH]; intros x Hp; [intros _; apply prefix_empty|].
  rewrite contains_char_cons in Hp. apply orb_false_iff in Hp as [Hah Hp].
  apply bool_decide_eq_false in Hah.
  destruct x as [|b x].
  - change (EmptyString +:+ String h y) with (String h y). rewrite prefix_cons.
    rewrite bool_decide_false by congruence. done.
  - rewrite append_cons, !prefix_cons.
    intros [-> Hpx]%andb_prop. rewrite (IH x Hp Hpx). by rewrite andb_true_r.
Qed.

Lemma contains_unfold (sub : string) (c : ascii) (s : string) :
  str_contains sub (String c s) = String.prefix sub (String c s) || str_contains sub s.
Proof. reflexivity. Qed.

Lemma replace_go_skip (old new t rest : string) :
  replace_go old new (String.length t) (t +:+ rest) = replace_go old new 0 rest.
Proof.
  induction t as [|c t IH]; [by destruct rest|].
  rewrite append_cons. cbn [String.length replace_go]. apply IH.
Qed.

Lemma replace_go_absent (old new s : string) :
  str_contains old s = false → replace_go old new 0 s = s.
Proof.
  induction s as [|c s IH]; [done|]. rewrite contains_unfold.
  intros [Hp Hs]%orb_false_iff. cbn [replace_go]. rewrite Hp. by rewrite IH.
Qed.

(** One occurrence: when the pattern starts with a character that it does not
    repeat, and occurs neither in [before] nor in [after], it is replaced
    where it stands and nothing else changes. *)
Lemma replace_single (h : ascii) (t new before after : string) :
  str_contains (String h EmptyString) t = false →
  str_contains (String h t) before = false →
  str_contains (String h t) after = false →
  replace (String h t) new (before +:+ String h t +:+ after)
  = before +:+ new +:+ after.
Proof.
  intros Ht Hb Ha. unfold replace.
  induction before as [|b before IH].
  - change (EmptyString +:+ ?x) with x. rewrite append_cons.
    cbn [replace_go]. rewrite <-append_cons, prefix_append.
    change (String.length (String h t) - 1) with (String.length t - 0).
    rewrite Nat.sub_0_r, replace_go_skip. by rewrite replace_go_absent.
  - rewrite contains_unfold in Hb. apply orb_false_iff in Hb as [Hp Hb].
    rewrite !(append_cons b before). cbn [replace_go].
    assert (String.prefix (String h t) (String b (before +:+ String h t +:+ after))
            = false) as ->.
    { destruct (String.prefix _ (String b (before +:+ _))) eqn:Hm; [|done].
      rewrite prefix_cons in Hm. apply andb_prop in Hm as [Hhb Hm].
      rewrite (append_cons h t after) in Hm.
      apply (prefix_before_char h t before (t +:+ after) Ht) in Hm.
      by rewrite prefix_cons, Hhb, Hm in Hp. }
    by rewrite IH.
Qed.

(** X15. Memory directives, one header. When the text of the unit file, once its
    old [MemoryMax=] and [MemoryHigh=] lines are dropped, has the section
    header [[Service]] with no other occurrence of that text before or after
    it, the rewritten file is that text with the two new directives on the
    two lines that follow the header, and nothing else changed. *)
Theorem limits_follow_single_header (total_mem_mb : Z) (content before after : string) :
  remove_memory_directives content = before +:+ "[Service]" +:+ after →
  str_contains "[Service]" before = false →
  str_contains "[Service]" after = false →
  rewrite_unit_file total_mem_mb content
  = Some (before +:+ "[Service]" +:+ nl
          +:+ "MemoryMax=" +:+ memory_max total_mem_mb +:+ nl
          +:+ "MemoryHigh=" +:+ memory_high total_mem_mb +:+ after).
Proof.
  intros Hcontent Hb Ha. unfold rewrite_unit_file. rewrite Hcontent.
  assert (str_contains "[Service]" (before +:+ "[Service]" +:+ after) = true) as ->.
  { clear. induction before as [|b before IH].
    - change (EmptyString +:+ ?x) with x. destruct after; reflexivity.
    - rewrite append_cons, contains_unfold, IH. apply orb_true_r. }
  f_equal. rewrite replace_single by done. f_equal.
  unfold service_header_with_limits. by rewrite !append_assoc.
Qed.

Lemma limits_follow_single_header_witness :
  rewrite_unit_file 1000 plain_unit_file
  = Some ("[Unit]" +:+ nl +:+ "Description=OpenClaw gateway" +:+ nl +:+
          "[Service]" +:+ nl +:+ "MemoryMax=800M" +:+ nl +:+ "MemoryHigh=750M" +:+ nl +:+
          "ExecStart=/usr/bin/openclaw gateway" +:+ nl +:+
          "[Install]" +:+ nl +:+ "WantedBy=default.target").
Proof.
  rewrite (limits_follow_single_header 1000 plain_unit_file
             ("[Unit]" +:+ nl +:+ "Description=OpenClaw gateway" +:+ nl)
             (nl +:+ "ExecStart=/usr/bin/openclaw gateway" +:+ nl +:+
              "[Install]" +:+ nl +:+ "WantedBy=default.target"));
    vm_compute; reflexivity.
Defined.

(** ** Secrets in the log *)

Lemma mask_nonempty (v v' : string) : nonempty v = nonempty v' → mask v = mask v'.
Proof. unfold mask. by intros ->. Qed.

(** X16. Secrets in the log. [mask] renders a value as one of two fixed texts,
    and the summary logged at lines 118-128 is the same for two sets of
    credentials that have the same model identifier and coding-plan flag and
    the same secrets set: the value of a secret never reaches that summary. *)
Theorem final_config_log_masks_secrets (cr cr' : credentials) :
  same_up_to_secrets cr cr' →
  trace (log_final_config cr) = trace (log_final_config cr') ∧
  ∀ v, mask v = (if nonempty v then "***SET***" else "(not set)").
Proof.
  intros (Hid & Hplan & Hkey & Hfid & Hfs & Htg & Hdid & Hds & Hwt & Hwk).
  split; [|done]. unfold log_final_config.
  rewrite !trace_bind. cbn [log emit trace outcome].
  rewrite ?outcome_bind_log. cbn [log emit trace outcome].
  rewrite Hid, Hplan.
  rewrite (mask_nonempty _ _ Hkey), (mask_nonempty _ _ Hfid), (mask_nonempty _ _ Hfs),
    (mask_nonempty _ _ Htg), (mask_nonempty _ _ Hdid), (mask_nonempty _ _ Hds),
    (mask_nonempty _ _ Hwt), (mask_nonempty _ _ Hwk).
  reflexivity.
Qed.

Lemma final_config_log_masks_secrets_witness :
  trace (log_final_config (credentials_of busy_world))
  = trace (log_final_config
             (credentials_of (with_environ (<[ "ARK_API_KEY" := "another-key" ]>
                                              all_credentials) busy_world))).
Proof.
  apply final_config_log_masks_secrets. vm_compute. repeat split.
Defined.

(** ** A gateway entry that is not an object *)

Lemma token_statements_raise (tok : string) (c : value) :
  none_or_dict (lookup_path [] c) = false
  ∨ none_or_dict (lookup_path ["gateway"] c) = false
  ∨ none_or_dict (lookup_path ["gateway"; "auth"] c) = false →
  exec_list (stmts_gateway_token tok) c = Raise TypeError.
Proof.
  unfold stmts_gateway_token. cbn [exec_list exec_stmt].
  intros [Hroot|[Hgw|Hauth]].
  - destruct c as [| | | | |items|d]; try done.
    + unfold ensure. cbn [getpath mbind result_bind mret result_ret py_contains].
      destruct (str_contains "gateway" s); [|done].
      unfold ensure. by cbn.
    + unfold ensure. cbn [getpath mbind result_bind py_contains].
      destruct (existsb _ items); [|done].
      unfold ensure. by cbn.
  - destruct c as [| | | | | |d]; try done.
    cbn [lookup_path child] in Hgw.
    destruct (d !! "gateway") as [gw|] eqn:Hd; [|done].
    assert (ensure [] "gateway" (VDict d) = Ok (VDict d)) as ->.
    { unfold ensure. cbn [getpath mbind result_bind py_contains].
      by rewrite bool_decide_true by eauto. }
    cbn [mbind result_bind]. unfold ensure.
    cbn [getpath py_getitem mbind result_bind]. rewrite Hd.
    cbn [mbind result_bind].
    destruct gw as [| | | |s|items|dg]; try done.
    + cbn [py_contains mbind result_bind]. destruct (str_contains "auth" s).
      * cbn [assign py_getitem mbind result_bind]. by rewrite Hd.
      * cbn [assign py_getitem mbind result_bind]. by rewrite Hd.
    + cbn [py_contains mbind result_bind]. destruct (existsb _ items).
      * cbn [assign py_getitem mbind result_bind]. by rewrite Hd.
      * cbn [assign py_getitem mbind result_bind]. by rewrite Hd.
  - destruct c as [| | | | | |d]; try done.
    cbn [lookup_path child] in Hauth.
    destruct (d !! "gateway") as [gw|] eqn:Hd; [|done].
    destruct gw as [| | | | | |dg]; try done. cbn [child] in Hauth.
    destruct (dg !! "auth") as [auth|] eqn:Hdg; [|done].
    assert (ensure [] "gateway" (VDict d) = Ok (VDict d)) as ->.
    { unfold ensure. cbn [getpath mbind result_bind py_contains].
      by rewrite bool_decide_true by eauto. }
    cbn [mbind result_bind].
    assert (ensure ["gateway"] "auth" (VDict d) = Ok (VDict d)) as ->.
    { unfold ensure. cbn [getpath py_getitem mbind result_bind]. rewrite Hd.
      cbn [mbind result_bind py_contains]. by rewrite bool_decide_true by eauto. }
    cbn [mbind result_bind assign py_getitem]. rewrite Hd.
    cbn [mbind result_bind py_getitem]. rewrite Hdg. cbn [mbind result_bind].
    by destruct auth.
Qed.

(** X17. Malformed gateway entry. When the loaded document is not an object, or
    its [gateway] entry is not an object, or [gateway.auth] is not an object,
    every run raises [TypeError] in lines 144-149, whatever the credentials;
    [main] then raises too and has written no file but its log. *)
Theorem malformed_gateway_raises (w : world) :
  none_or_dict (lookup_path [] (prior_config w)) = false
  ∨ none_or_dict (lookup_path ["gateway"] (prior_config w)) = false
  ∨ none_or_dict (lookup_path ["gateway"; "auth"] (prior_config w)) = false →
  outcome (configure w) = Raise TypeError ∧
  outcome (main w) = Raise TypeError ∧
  writes (trace (main w)) = [].
Proof.
  intros Hbad. assert (Hcfg : outcome (configure w) = Raise TypeError).
  { rewrite outcome_configure. unfold configure_result.
    by rewrite (token_statements_raise _ _ Hbad). }
  split; [done|]. unfold main. rewrite outcome_bind, trace_bind, Hcfg, app_nil_r.
  split; [done|]. apply silent_filter.
  apply (silent_weaken (λ e, negb (is_log e))); [by intros []|].
  apply configure_only_logs.
Qed.

Lemma malformed_gateway_raises_witness :
  outcome (configure world_auth_string) = Raise TypeError ∧
  outcome (main world_auth_string) = Raise TypeError ∧
  writes (trace (main world_auth_string)) = [].
Proof.
  apply malformed_gateway_raises. right. right. vm_compute. reflexivity.
Defined.

(** ** No KeyError *)

Lemma walkable_lookup (p r : list string) (c o : value) :
  lookup_path p c = Some o → walkable (p ++ r) c = walkable r o.
Proof.
  revert c. induction p as [|k p IH]; intros c; simpl; [by intros [= ->]|].
  destruct c as [| | | | | |d]; try done. simpl.
  destruct (d !! k) as [x|]; [apply IH|done].
Qed.

Lemma walkable_some (q : list string) (c : value) :
  is_some_b (lookup_path q c) = true → walkable q c = true.
Proof.
  destruct (lookup_path q c) as [o|] eqn:Ho; [|done]. intros _.
  rewrite <-(app_nil_r q). by rewrite (walkable_lookup q [] c o Ho).
Qed.

Lemma getpath_no_key_error (p : list string) (c : value) :
  walkable p c = true → getpath p c ≠ Raise KeyError.
Proof.
  revert c. induction p as [|k p IH]; intros c; simpl; [done|].
  destruct c as [| | | | | |d]; try done. simpl.
  destruct (d !! k) as [x|]; [apply IH|done].
Qed.

Lemma assign_no_key_error (p : list string) (key : string) (v c : value) :
  walkable p c = true → assign p key v c ≠ Raise KeyError.
Proof.
  revert c. induction p as [|k p IH]; intros c; simpl.
  - by destruct c.
  - destruct c as [| | | | | |d]; try done. simpl.
    destruct (d !! k) as [x|]; [|done]. intros Hx. specialize (IH x Hx).
    simpl. by destruct (assign p key v x) as [x'|[]].
Qed.

Lemma ensure_no_key_error (p : list string) (key : string) (c : value) :
  walkable p c = true → ensure p key c ≠ Raise KeyError.
Proof.
  intros Hp. unfold ensure. pose proof (getpath_no_key_error p c Hp) as Hg.
  destruct (getpath p c) as [o|[]]; try done. simpl.
  destruct (py_contains o key) as [[]|e] eqn:Hc; simpl.
  - done.
  - by apply assign_no_key_error.
  - destruct o; simpl in Hc; congruence.
Qed.

Lemma assign_diverge_walk (p : list string) (key : string) (v c c' : value)
    (q : list string) :
  assign p key v c = Ok c' → diverge (p ++ [key]) q = true →
  walkable q c' = walkable q c.
Proof.
  revert c c' q. induction p as [|k p IH]; intros c c' q; simpl.
  - destruct c as [| | | | | |d]; try done. simpl. intros [= <-].
    destruct q as [|j q]; [done|]. case_bool_decide; [by destruct q|].
    intros _. simpl. by rewrite lookup_insert_ne.
  - intros (sub & Hget & H)%result_bind_Ok_inv.
    apply result_bind_Ok_inv in H as (sub' & Hsub & Hset).
    destruct c as [| | | | | |d]; try done. simpl in *.
    destruct (d !! k) eqn:Hk; [|done]. injection Hget as ->.
    injection Hset as <-. destruct q as [|j q]; [done|].
    case_bool_decide as Hkj.
    + subst j. simpl. rewrite lookup_insert_eq, Hk. by apply IH.
    + intros _. simpl. by rewrite lookup_insert_ne.
Qed.

Lemma assign_keeps_walk (p : list string) (key : string) (v c c' : value)
    (q : list string) :
  assign p key v c = Ok c' → keeps_walk q (SAssign p key v) = true →
  walkable q c = true → walkable q c' = true.
Proof.
  intros Ha Hq Hw. unfold keeps_walk in Hq. apply orb_prop in Hq as [Hd|Hs].
  - by rewrite (assign_diverge_walk _ _ _ _ _ _ Ha Hd).
  - destruct (strip_prefix q (p ++ [key])) as [r|] eqn:Hr; [|done].
    apply strip_prefix_Some in Hr. apply walkable_some.
    apply (lookup_path_above q r c' v). rewrite <-Hr.
    pose proof (assign_hit p key v c c' [] Ha) as Hhit. exact Hhit.
Qed.

Lemma ensure_keeps_walk (p : list string) (key : string) (c c' : value)
    (q : list string) :
  ensure p key c = Ok c' → walkable q c = true → walkable q c' = true.
Proof.
  intros [[-> _]|(d & Hd & Hk & Ha)]%ensure_cases Hw; [done|].
  destruct (path_trichotomy (p ++ [key]) q) as [Hdiv|[[r Hr]|(k & r & Hr)]].
  - by rewrite (assign_diverge_walk _ _ _ _ _ _ Ha Hdiv).
  - apply strip_prefix_Some in Hr. subst q. rewrite <-app_assoc in Hw.
    rewrite (walkable_lookup p _ c _ Hd) in Hw. simpl in Hw. by rewrite Hk in Hw.
  - apply strip_prefix_Some in Hr. apply walkable_some.
    apply (lookup_path_above q (k :: r) c' (VDict ∅)). rewrite <-Hr.
    exact (assign_hit p key _ c c' [] Ha).
Qed.

Lemma ensure_walk_footprint (p : list string) (key : string) (c c' : value) :
  ensure p key c = Ok c' → walkable (p ++ [key]) c' = true.
Proof.
  intros [[-> (o & Ho & Hc)]|(d & Hd & Hk & Ha)]%ensure_cases.
  - rewrite (walkable_lookup p _ c o Ho). destruct o as [| | | | | |d]; try done.
    simpl in *. injection Hc as Hc. apply bool_decide_eq_true in Hc as [x ->].
    done.
  - apply walkable_some. by rewrite (assign_hit p key _ c c' [] Ha).
Qed.

Lemma Walk_path (known : list (list string)) (c : value) (p : list string) :
  Walk known c → is_present p known = true → walkable p c = true.
Proof.
  intros Hw Hp. destruct p as [|k p]; [done|]. simpl in Hp.
  apply mem_path_In in Hp. unfold Walk in Hw. rewrite List.forallb_forall in Hw.
  by apply Hw.
Qed.

Lemma exec_stmt_key_safe (known : list (list string)) (st : stmt) (c : value) :
  Walk known c → is_present (stmt_path st) known = true →
  key_safe (walk_step known st) (exec_stmt st c).
Proof.
  intros Hw Hp. pose proof (Walk_path _ _ _ Hw Hp) as Hpath.
  unfold key_safe. destruct (exec_stmt st c) as [c'|e] eqn:Hexec.
  - unfold Walk, walk_step. cbn [forallb]. apply andb_true_intro. split.
    + destruct st as [p key|p key v]; simpl in *.
      * by apply (ensure_walk_footprint p key c).
      * apply walkable_some. by rewrite (assign_hit p key v c c' [] Hexec).
    + apply List.forallb_forall. intros q [Hq Hkeep]%List.filter_In.
      unfold Walk in Hw. rewrite List.forallb_forall in Hw. specialize (Hw q Hq).
      destruct st as [p key|p key v]; simpl in Hexec.
      * by apply (ensure_keeps_walk p key c).
      * by apply (assign_keeps_walk p key v c).
  - intros ->. destruct st as [p key|p key v]; simpl in *.
    + by apply (ensure_no_key_error p key c).
    + by apply (assign_no_key_error p key v c).
Qed.

Lemma Walk_weaken (known known' : list (list string)) (c : value) :
  forallb (λ q, mem_path q known) known' = true → Walk known c → Walk known' c.
Proof.
  unfold Walk. rewrite !List.forallb_forall. intros Hsub Hw q Hq.
  apply Hw, mem_path_In, Hsub, Hq.
Qed.

Lemma exec_list_key_safe (sts : list stmt) (known known' : list (list string))
    (c : value) :
  Walk known c → keysafe known sts = true →
  forallb (λ q, mem_path q (walk_after known sts)) known' = true →
  key_safe known' (exec_list sts c).
Proof.
  revert known c. induction sts as [|st sts IH]; intros known c Hw Hsafe Hsub.
  - simpl. by apply (Walk_weaken known).
  - cbn [keysafe] in Hsafe. apply andb_prop in Hsafe as [Hp Hsafe].
    cbn [exec_list]. pose proof (exec_stmt_key_safe known st c Hw Hp) as Hst.
    destruct (exec_stmt st c) as [c1|e]; [|exact Hst].
    by apply (IH (walk_step known st)).
Qed.

Lemma key_safe_bind (known known' : list (list string)) (r : result value)
    (f : value → result value) :
  key_safe known r → (∀ c, Walk known c → key_safe known' (f c)) →
  key_safe known' (r ≫= f).
Proof. intros Hr Hf. destruct r as [c|e]; [by apply Hf|done]. Qed.

Lemma call_deep_merge_no_key_error (base : value) (update : dict) :
  call_deep_merge base update ≠ Raise KeyError.
Proof. destruct base; simpl; try done. by destruct (decide _). Qed.

Lemma ark_key_safe (site iid : string) (cr : credentials) (c : value) :
  Walk present_token c → key_safe present_token (ark_result site iid cr c).
Proof.
  intros Hw. unfold ark_result.
  destruct (nonempty (ark_api_key cr) && nonempty (ark_model_id cr)); [|done].
  destruct c as [| | | | | |d]; try done. unfold py_get. rewrite result_bind_Ok.
  set (update := ark_config _ _ _ _).
  destruct (call_deep_merge (default (VDict ∅) (d !! "models")) update)
    as [merged|e] eqn:Hm.
  - rewrite result_bind_Ok. by apply (exec_list_key_safe _ present_token).
  - simpl. intros ->. by apply call_deep_merge_no_key_error in Hm.
Qed.

Lemma dingtalk_key_safe (cr : credentials) (c : value) :
  Walk present_channels c → key_safe present_channels (dingtalk_result cr c).
Proof.
  intros Hw. unfold dingtalk_result.
  destruct (nonempty (dingtalk_client_id cr) && nonempty (dingtalk_client_secret cr));
    [|done].
  pose proof (getpath_no_key_error ["gateway"; "auth"; "token"] c
                (Walk_path _ _ ["gateway"; "auth"; "token"] Hw eq_refl)) as Hg.
  destruct (getpath ["gateway"; "auth"; "token"] c) as [tok|e];
    [|simpl; congruence].
  rewrite result_bind_Ok. by apply (exec_list_key_safe _ present_channels).
Qed.

Lemma configure_key_safe (w : world) : key_safe [] (configure_result w).
Proof.
  unfold configure_result.
  apply (key_safe_bind present_token);
    [by apply (exec_list_key_safe _ [])|intros c1 H1].
  apply (key_safe_bind present_token); [by apply ark_key_safe|intros c2 H2].
  apply (key_safe_bind present_channels);
    [by apply (exec_list_key_safe _ present_token)|intros c3 H3].
  apply (key_safe_bind present_channels).
  { apply (exec_list_key_safe _ present_channels); [done|..];
      unfold stmts_feishu_app_id; by destruct (nonempty _). }
  intros c4 H4. apply (key_safe_bind present_channels).
  { apply (exec_list_key_safe _ present_channels); [done|..];
      unfold stmts_feishu_app_secret; by destruct (nonempty _). }
  intros c5 H5. apply (key_safe_bind present_channels).
  { apply (exec_list_key_safe _ present_channels); [done|..];
      unfold stmts_telegram; by destruct (nonempty _). }
  intros c6 H6. apply (key_safe_bind present_channels);
    [by apply dingtalk_key_safe|intros c7 H7].
  apply (key_safe_bind present_channels).
  { apply (exec_list_key_safe _ present_channels); [done|..];
      unfold stmts_wecom; by destruct (nonempty _ && nonempty _). }
  intros c8 H8. by apply (exec_list_key_safe _ present_channels).
Qed.

(** X18. No KeyError. Whatever the loaded document and the credentials, neither
    the configuration part nor [main] raises [KeyError]: every item the
    script indexes has been created by an earlier [if k not in ...] guard or
    assignment, so a run on a malformed document can only fail with
    [TypeError] or [AttributeError]. *)
Theorem never_key_error (w : world) :
  outcome (configure w) ≠ Raise KeyError ∧ outcome (main w) ≠ Raise KeyError.
Proof.
  assert (Hcfg : outcome (configure w) ≠ Raise KeyError).
  { rewrite outcome_configure. pose proof (configure_key_safe w) as H.
    destruct (configure_result w) as [out|e]; [done|]. simpl in H. congruence. }
  split; [exact Hcfg|]. unfold main. rewrite outcome_bind.
  destruct (outcome (configure w)) as [out|e] eqn:Hout; [|congruence].
  rewrite outcome_bind, outcome_persist.
  by rewrite (completes_unit _ (provision_completes w)).
Qed.


(** ** The metadata service in the ARK block *)

Lemma ark_model_list_after_run (w : world) (out : value) :
  outcome (configure w) = Ok out →
  ark_configured (credentials_of w) = true →
  lookup_path ["models"; "providers"; "ark"; "models"] out
  = lookup_path ["providers"; "ark"; "models"]
      (VDict (ark_config (get_ark_url (detect_site w)
                            (ark_coding_plan (credentials_of w)))
                (ark_api_key (credentials_of w))
                (ark_model_id (credentials_of w)) (get_instance_id w))).
Proof.
  intros Hout Hark.
  destruct (models_after_run w out Hout Hark) as (base & _ & Hmodels).
  change ["models"; "providers"; "ark"; "models"]
    with (["models"] ++ ["providers"; "ark"; "models"]).
  rewrite lookup_path_app, Hmodels. clear Hmodels Hout Hark.
  generalize (get_ark_url (detect_site w) (ark_coding_plan (credentials_of w))).
  generalize (ark_api_key (credentials_of w)) (ark_model_id (credentials_of w))
             (get_instance_id w).
  intros key id iid url.
  change (VDict (deep_merge base ?u)) with (merge_item (Some (VDict base)) (VDict u)).
  destruct (lookup_path ["providers"; "ark"; "models"] (VDict (ark_config url key id iid)))
    as [x|] eqn:Hx; [|by vm_compute in Hx].
  apply merge_item_lookup_path; [exact Hx|].
  vm_compute in Hx. by injection Hx as <-.
Qed.

(** X19. Metadata in the ARK block. With the ARK credentials resolved, a
    completed run stores a provider model list of exactly one entry, for the
    resolved model identifier, whose [X-Client-Request-Id] header is
    [ecs-openclaw/0203.1/] followed by the stripped body of the instance-id
    request, or by [unknown] when that request failed.  The base URL is
    chosen from the stripped body of the site request; when that request
    failed the site is [unknown] and the URL is the cn-beijing one. *)
Theorem metadata_in_ark_block (w : world) (out : value) :
  outcome (configure w) = Ok out →
  let cr := credentials_of w in
  ark_configured cr = true →
  match lookup_path ["models"; "providers"; "ark"; "models"] out with
  | Some (VList [entry]) =>
      lookup_path ["id"] entry = Some (VStr (ark_model_id cr)) ∧
      lookup_path ["headers"; "X-Client-Request-Id"] entry
      = Some (VStr ("ecs-openclaw/" +:+ SCRIPT_VERSION +:+ "/" +:+
                    match instance_id_body w with
                    | Some body => strip body
                    | None => "unknown"
                    end))
  | _ => False
  end ∧
  lookup_path ["models"; "providers"; "ark"; "baseUrl"] out
  = Some (VStr (get_ark_url (match site_name w with
                             | Some body => strip body
                             | None => "unknown"
                             end) (ark_coding_plan cr))) ∧
  get_ark_url "unknown" (ark_coding_plan cr)
  = (if ark_coding_plan cr
     then "https://ark.cn-beijing.volces.com/api/coding/v3"
     else "https://ark.cn-beijing.volces.com/api/v3").
Proof.
  intros Hout cr Hark. split; [|split; [|by destruct (ark_coding_plan cr)]].
  - rewrite (ark_model_list_after_run w out Hout Hark). fold cr.
    fold (get_instance_id w).
    generalize (get_ark_url (detect_site w) (ark_coding_plan cr)).
    generalize (ark_api_key cr) (ark_model_id cr) (get_instance_id w).
    intros key id iid url. vm_compute. split; reflexivity.
  - by apply ark_base_url_after_run.
Qed.

Lemma metadata_in_ark_block_witness :
  ∃ out, outcome (configure busy_world) = Ok out ∧
         instance_id_body busy_world = None ∧
         match lookup_path ["models"; "providers"; "ark"; "models"] out with
         | Some (VList [entry]) =>
             lookup_path ["headers"; "X-Client-Request-Id"] entry
             = Some (VStr "ecs-openclaw/0203.1/unknown")
         | _ => False
         end.
Proof.
  destruct (configure_completes busy_world) as [out Hout]; [vm_compute; reflexivity|].
  destruct (metadata_in_ark_block busy_world out Hout) as (Hentry & _);
    [vm_compute; reflexivity|].
  exists out. split; [exact Hout|]. split; [reflexivity|].
  destruct (lookup_path _ out) as [[| | | | |[|entry [|]]|]|];
    try exact (False_ind _ Hentry).
  destruct Hentry as [_ Hh]. rewrite Hh. vm_compute. reflexivity.
Defined.
